(** * The Ewts lexer: state table and scanning loop

    A shallow embedding of [doc/site/lexer/ewts.py]: the [tokens] table of
    [EwtsLexer] (a Pygments [RegexLexer]) with its regular expressions, read
    with the backtracking semantics of Python's [re] under the flags
    [re.DOTALL | re.MULTILINE], and the scanning loop that interprets the
    table. *)

From Stdlib Require Import List NArith Arith Bool Ascii String Lia.
Import ListNotations.

Set Implicit Arguments.

(** ** Characters and texts

    A Python [str] is a sequence of Unicode code points; a position is an
    index into it. *)

Definition text := list N.

Definition ch (a : ascii) : N := N_of_ascii a.

Definition codes (s : string) : text := map N_of_ascii (list_ascii_of_string s).

Definition newline : N := 10%N.

(** [text[a:b]] *)
Definition slice (s : text) (a b : nat) : text := firstn (b - a) (skipn a s).

(** The Unicode data the patterns consult above the ASCII range: what
    [\s] and [\w] accept there ([str.isspace], [str.isalnum]) and the two
    character sets [uni.combine] builds from [pygments.unistring]. Below 128
    the classes are written out in [is_space], [is_word], [is_ident_start]
    and [is_ident_part]. A white-space code point is never alphanumeric. *)
Record unicode := {
  uni_space : N -> bool;
  uni_alnum : N -> bool;
  uni_start : N -> bool;   (* Lu Ll Lt Lm Lo Nl *)
  uni_part : N -> bool;    (* Lu Ll Lt Lm Lo Nl Mn Mc Nd Pc *)
  uni_space_not_alnum : forall c, uni_space c = true -> uni_alnum c = false
}.

(** A table with no code point above ASCII in any class. *)
Definition ascii_only : unicode :=
  {| uni_space := fun _ => false;
     uni_alnum := fun _ => false;
     uni_start := fun _ => false;
     uni_part := fun _ => false;
     uni_space_not_alnum := fun _ _ => eq_refl |}.

Definition between (lo hi c : N) : bool := ((lo <=? c) && (c <=? hi))%N.

Definition ascii_letter (c : N) : bool :=
  between (ch "A") (ch "Z") c || between (ch "a") (ch "z") c.

Definition ascii_digit (c : N) : bool := between (ch "0") (ch "9") c.

Definition is_space (U : unicode) (c : N) : bool :=
  if (c <? 128)%N
  then between 9 13 c || between 28 32 c
  else uni_space U c.

Definition is_word (U : unicode) (c : N) : bool :=
  if (c <? 128)%N
  then ascii_letter c || ascii_digit c || (c =? ch "_")%N
  else uni_alnum U c.

Definition is_ident_start (U : unicode) (c : N) : bool :=
  if (c <? 128)%N then ascii_letter c else uni_start U c.

Definition is_ident_part (U : unicode) (c : N) : bool :=
  if (c <? 128)%N
  then ascii_letter c || ascii_digit c || (c =? ch "_")%N
  else uni_part U c.

(** ** Regular expressions *)

(** The members of a bracketed character set. *)
Inductive item :=
  | one (c : N)
  | range (lo hi : N)
  | esc_s                 (* \s *)
  | esc_w                 (* \w *)
  | cat_start             (* uni.combine('Lu','Ll','Lt','Lm','Lo','Nl') *)
  | cat_part.             (* uni.combine('Lu',...,'Nl','Mn','Mc','Nd','Pc') *)

Inductive regex :=
  | Empty                                   (* the empty pattern *)
  | Chr (c : N)                             (* a literal character *)
  | Any                                     (* .  (DOTALL) *)
  | In_ (items : list item)                 (* [...] *)
  | NotIn (items : list item)               (* [^...] *)
  | Cat (a b : regex)
  | Or (a b : regex)                        (* a|b *)
  | Rep (greedy : bool) (lo : nat) (hi : option nat) (a : regex)
  | Group (n : nat) (a : regex)             (* the n-th capturing group *)
  | Look (a : regex)                        (* (?=a) *)
  | Bos                                     (* \A *)
  | Bol                                     (* ^  (MULTILINE) *)
  | Eol                                     (* $  (MULTILINE) *)
  | WordB                                   (* \b *)
  | NotWordB.                               (* \B *)

Definition star := Rep true 0 None.          (* a* *)
Definition plus := Rep true 1 None.          (* a+ *)
Definition opt := Rep true 0 (Some 1).       (* a? *)
Definition lazy_star := Rep false 0 None.    (* a*? *)
Definition times (n : nat) := Rep true n (Some n).   (* a{n} *)

Fixpoint cats (rs : list regex) : regex :=
  match rs with
  | [] => Empty
  | [r] => r
  | r :: rs' => Cat r (cats rs')
  end.

Fixpoint alt (rs : list regex) : regex :=
  match rs with
  | [] => NotIn []            (* unused: every alternation below has a branch *)
  | [r] => r
  | r :: rs' => Or r (alt rs')
  end.

Definition lit (s : string) : regex := cats (map Chr (codes s)).

Definition words (ws : list string) : regex := alt (map lit ws).

Definition c1 (a : ascii) : item := one (ch a).
Definition rg (a b : ascii) : item := range (ch a) (ch b).
Definition chr (a : ascii) : regex := Chr (ch a).

(** ** Matching

    [rexmatch r s pos] is [re.compile(r, flags).match(s, pos)]: the first
    match found by backtracking, alternatives tried from left to right, a
    greedy repetition trying one more round before stopping and a lazy one
    the other way round. Positions refer to the whole text, so [^], [\A]
    and [\b] see the characters before [pos]. *)

Definition groups := list (nat * (nat * nat)).

Fixpoint group_span (n : nat) (g : groups) : option (nat * nat) :=
  match g with
  | [] => None
  | (m, sp) :: g' => if Nat.eqb n m then Some sp else group_span n g'
  end.

Record match_ := { m_end : nat; m_groups : groups }.

Section Matching.

Variable U : unicode.
Variable s : text.

Definition member (c : N) (it : item) : bool :=
  match it with
  | one d => (c =? d)%N
  | range lo hi => between lo hi c
  | esc_s => is_space U c
  | esc_w => is_word U c
  | cat_start => is_ident_start U c
  | cat_part => is_ident_part U c
  end.

Definition in_set (items : list item) (c : N) : bool := existsb (member c) items.

Definition word_at (i : nat) : bool :=
  match nth_error s i with Some c => is_word U c | None => false end.

(** [\b]: exactly one of the characters around [i] is a word character. *)
Definition boundary (i : nat) : bool :=
  xorb (match i with 0 => false | S j => word_at j end) (word_at i).

Definition at_bol (i : nat) : bool :=
  match i with
  | 0 => true
  | S j => match nth_error s j with Some c => (c =? newline)%N | None => false end
  end.

Definition at_eol (i : nat) : bool :=
  match nth_error s i with Some c => (c =? newline)%N | None => true end.

Definition cont := nat -> groups -> option match_.

Definition accept : cont := fun j g => Some {| m_end := j; m_groups := g |}.

Definition one_char (p : N -> bool) (i : nat) (g : groups) (k : cont) : option match_ :=
  match nth_error s i with
  | Some c => if p c then k (S i) g else None
  | None => None
  end.

Definition below (hi : option nat) (n : nat) : bool :=
  match hi with Some h => n <? h | None => true end.

(** The rounds of a repetition, [n] of them done so far. A round that does
    not advance is given up; no repeated pattern of the table matches the
    empty string. [fuel] bounds the rounds left by the characters left. *)
Fixpoint rounds (body : nat -> groups -> cont -> option match_)
    (greedy : bool) (lo : nat) (hi : option nat)
    (fuel n i : nat) (g : groups) (k : cont) : option match_ :=
  match fuel with
  | 0 => None
  | S fuel' =>
      let again (_ : unit) :=
        if below hi n
        then body i g (fun j g' =>
               if i <? j then rounds body greedy lo hi fuel' (S n) j g' k else None)
        else None in
      let stop (_ : unit) := if lo <=? n then k i g else None in
      if greedy
      then match again tt with Some m => Some m | None => stop tt end
      else match stop tt with Some m => Some m | None => again tt end
  end.

Fixpoint run (r : regex) : nat -> groups -> cont -> option match_ :=
  match r with
  | Empty => fun i g k => k i g
  | Chr c => one_char (N.eqb c)
  | Any => one_char (fun _ => true)
  | In_ items => one_char (in_set items)
  | NotIn items => one_char (fun c => negb (in_set items c))
  | Cat a b => fun i g k => run a i g (fun j g' => run b j g' k)
  | Or a b => fun i g k =>
      match run a i g k with Some m => Some m | None => run b i g k end
  | Rep greedy lo hi a => fun i g k =>
      rounds (run a) greedy lo hi (S (List.length s - i)) 0 i g k
  | Group n a => fun i g k => run a i g (fun j g' => k j ((n, (i, j)) :: g'))
  | Look a => fun i g k =>
      match run a i g accept with Some m => k i (m_groups m) | None => None end
  | Bos => fun i g k => match i with 0 => k i g | S _ => None end
  | Bol => fun i g k => if at_bol i then k i g else None
  | Eol => fun i g k => if at_eol i then k i g else None
  | WordB => fun i g k => if boundary i then k i g else None
  | NotWordB => fun i g k => if boundary i then None else k i g
  end.

Definition rexmatch (r : regex) (pos : nat) : option match_ := run r pos [] accept.

End Matching.

(** ** The state table *)

(** Token types (the parts of [pygments.token] the lexer names, and [Error],
    which the scanning loop gives to a character no rule matches). *)
Inductive label :=
  | Text | Whitespace | Error | Punctuation
  | Comment | Comment_Hashbang | Comment_Single | Comment_Multiline
  | Operator | Operator_Word
  | Keyword | Keyword_Constant | Keyword_Declaration | Keyword_Reserved
  | Name_Builtin | Name_Exception | Name_Other
  | Number_Bin | Number_Oct | Number_Hex | Number_Integer | Number_Float
  | String_Regex | String_Double | String_Single | String_Backtick | String_Interpol.

Inductive state :=
  | commentsandwhitespace | slashstartsregex | badregex | root | interp | interp_inside.

(** What a rule yields: one token of a type, or [bygroups(t1, ..., tn)]. *)
Inductive action :=
  | emit (l : label)
  | bygroups (ls : list label).

(** One move on the state stack: ['#pop'] or the name of a state to push. *)
Inductive move := pop | push (st : state).

Inductive entry :=
  | rule (rex : regex) (act : action) (new_state : list move)
  | include (st : state)
  | default (new_state : list move).

Definition keywords : list string :=
  ["for"; "in"; "while"; "do"; "break"; "return"; "continue"; "switch"; "case";
   "default"; "if"; "else"; "throw"; "try"; "catch"; "finally"; "yield"; "await";
   "async"; "this"; "of"; "static"; "export"; "import"; "debugger"; "extends";
   "super"]%string.

Definition declarations : list string :=
  ["var"; "let"; "const"; "with"; "function"; "class"]%string.

Definition reserved : list string :=
  ["abstract"; "boolean"; "byte"; "char"; "double"; "enum"; "final"; "float";
   "goto"; "implements"; "int"; "interface"; "long"; "native"; "package";
   "private"; "protected"; "public"; "short"; "synchronized"; "throws";
   "transient"; "volatile"]%string.

Definition constants : list string :=
  ["true"; "false"; "null"; "NaN"; "Infinity"; "undefined"]%string.

Definition sized_array (prefix : string) : regex :=
  cats [lit prefix; words ["8"; "16"; "32"]%string; lit "Array"].

Definition builtins : regex :=
  alt (map lit
         ["Array"; "Boolean"; "Date"; "BigInt"; "Function"; "Math"; "ArrayBuffer";
          "Number"; "Object"; "RegExp"; "String"; "Promise"; "Proxy"; "decodeURI";
          "decodeURIComponent"; "encodeURI"; "encodeURIComponent";
          "eval"; "isFinite"; "isNaN"; "parseFloat"; "parseInt"; "DataView";
          "document"; "window"; "globalThis"; "global"; "Symbol"; "Intl";
          "WeakSet"; "WeakMap"; "Set"; "Map"; "Reflect"; "JSON"; "Atomics"]%string
       ++ [sized_array "Int"]
       ++ map lit ["BigInt64Array"; "Float32Array"; "Float64Array";
                   "Uint8ClampedArray"]%string
       ++ [sized_array "Uint"; lit "BigUint64Array"]).

Definition digits : regex := plus (In_ [rg "0" "9"]).

Definition hex4 : regex :=
  times 4 (In_ [rg "a" "f"; rg "A" "F"; rg "0" "9"]).

(** [JS_IDENT_START], [JS_IDENT_PART] and [JS_IDENT]: a character of the
    class or the escape form, a backslash, [u] and four hexadecimal digits. *)
Definition JS_IDENT_START : regex :=
  Or (In_ [c1 "$"; c1 "_"; cat_start]) (cats [chr "\"; chr "u"; hex4]).

Definition JS_IDENT_PART : regex :=
  Or (In_ [c1 "$"; cat_part; one 8204; one 8205]) (cats [chr "\"; chr "u"; hex4]).

Definition JS_IDENT : regex := Cat JS_IDENT_START (star JS_IDENT_PART).

(** A quoted string: two backslashes, a backslash and another character, or
    a character that is neither the quote nor a backslash, any number of
    times between two quotes. *)
Definition quoted (q : N) : regex :=
  cats [Chr q;
       star (Group 1 (alt [lit "\\"; Cat (chr "\") (NotIn [c1 "\"]); NotIn [one q; c1 "\"]]));
       Chr q].

(** A group of alternatives that must end at a word boundary. *)
Definition whole_word (r : regex) : regex := Cat (Group 1 r) WordB.

(** At the start of a line, before white space, a slash or [<!--]. *)
Definition line_start : regex :=
  Cat Bol (Look (alt [In_ [esc_s]; chr "/"; lit "<!--"])).

(** Before a slash. *)
Definition slash_ahead : regex := Look (chr "/").

(** [super], white space, a parenthesised argument list: three groups. *)
Definition super_call : regex :=
  cats [ Group 1 (lit "super");
         Group 2 (star (In_ [esc_s]));
         Group 3 (cats [chr "(";
                        plus (In_ [esc_w; c1 ","; c1 "?"; c1 "."; c1 "$"; esc_s]);
                        star (In_ [esc_s]);
                        chr ")"]) ].

(** One element of a regular expression literal: an escaped character, a
    character that is not a bracket, a slash, a backslash or a newline, or a
    bracketed class. *)
Definition regex_part : regex :=
  alt [ Cat (chr "\") Any;
        NotIn [c1 "["; c1 "/"; c1 "\"; one newline];
        cats [chr "[";
              star (Group 2 (Or (Cat (chr "\") Any)
                                (NotIn [c1 "]"; c1 "\"; one newline])));
              chr "]"] ].

(** The flags of a regular expression literal, up to a word boundary, or
    none where there is no word boundary. *)
Definition regex_flags : regex :=
  Or (Cat (plus (In_ [c1 "g"; c1 "i"; c1 "m"; c1 "u"; c1 "y"; c1 "s"; c1 "d"])) WordB)
     NotWordB.

(** A regular expression literal and its flags. *)
Definition regex_literal : regex :=
  cats [chr "/"; plus (Group 1 regex_part); chr "/"; Group 3 regex_flags].

(** Every numeric literal that is not binary, octal, hexadecimal or a
    [BigInt]: a fraction, a number with a fraction or an integer, and an
    optional exponent. *)
Definition float_literal : regex :=
  Cat (Group 1 (alt [ Cat (chr ".") digits;
                      cats [digits; chr "."; star (In_ [rg "0" "9"])];
                      digits ]))
      (opt (Group 2 (cats [In_ [c1 "e"; c1 "E"]; opt (In_ [c1 "-"; c1 "+"]); digits]))).

Definition tokens (st : state) : list entry :=
  match st with
  | commentsandwhitespace =>
      [ rule (plus (In_ [esc_s])) (emit Whitespace) [];
        rule (lit "<!--") (emit Comment) [];
        (* two slashes, then as little as possible up to the end of the line *)
        rule (cats [lit "//"; lazy_star Any; Eol]) (emit Comment_Single) [];
        rule (cats [lit "/*"; lazy_star Any; lit "*/"]) (emit Comment_Multiline) [] ]
  | slashstartsregex =>
      [ include commentsandwhitespace;
        rule regex_literal (emit String_Regex) [pop];
        rule slash_ahead (emit Text) [pop; push badregex];
        default [pop] ]
  | badregex =>
      [ rule (Chr newline) (emit Whitespace) [pop] ]
  | root =>
      [ rule (cats [Bos; lit "#!"; opt (chr " "); chr "/"; lazy_star Any; Eol])
             (emit Comment_Hashbang) [];
        rule line_start (emit Text) [push slashstartsregex];
        include commentsandwhitespace;
        (* numeric literals *)
        rule (cats [chr "0"; In_ [c1 "b"; c1 "B"]; plus (In_ [c1 "0"; c1 "1"]); opt (chr "n")])
             (emit Number_Bin) [];
        rule (cats [chr "0"; opt (In_ [c1 "o"; c1 "O"]); plus (In_ [rg "0" "7"]); opt (chr "n")])
             (emit Number_Oct) [];
        rule (cats [chr "0"; In_ [c1 "x"; c1 "X"];
                   plus (In_ [rg "0" "9"; rg "a" "f"; rg "A" "F"]); opt (chr "n")])
             (emit Number_Hex) [];
        rule (Cat digits (chr "n")) (emit Number_Integer) [];
        rule float_literal (emit Number_Float) [];
        rule (Or (lit "...") (lit "=>")) (emit Punctuation) [];
        rule (alt [ lit "++"; lit "--"; lit "~"; Cat (lit "??") (opt (chr "=")); lit "?";
                    lit ":"; Cat (chr "\") (Look (Chr newline));
                    Cat (Group 1 (alt [ lit "<<"; Cat (lit ">>") (opt (chr ">"));
                                        Cat (chr "=") (opt (chr "="));
                                        Cat (chr "!") (opt (chr "="));
                                        alt [ lit "**"; lit "||"; lit "&&";
                                              In_ [c1 "-"; c1 "<"; c1 ">"; c1 "+"; c1 "*";
                                                   c1 "%"; c1 "&"; c1 "|"; c1 "^"; c1 "/"] ] ]))
                        (opt (chr "=")) ])
             (emit Operator) [push slashstartsregex];
        rule (In_ [c1 "{"; c1 "("; c1 "["; c1 ";"; c1 ","]) (emit Punctuation)
             [push slashstartsregex];
        rule (In_ [c1 "}"; c1 ")"; c1 "]"; c1 "."]) (emit Punctuation) [];
        rule (whole_word (words ["typeof"; "instanceof"; "in"; "void"; "delete"; "new"]%string))
             (emit Operator_Word) [push slashstartsregex];
        rule (cats [WordB; Group 1 (words ["constructor"; "from"; "as"]%string); WordB])
             (emit Keyword_Reserved) [];
        rule (whole_word (words keywords)) (emit Keyword) [push slashstartsregex];
        rule (whole_word (words declarations)) (emit Keyword_Declaration)
             [push slashstartsregex];
        rule (whole_word (words reserved)) (emit Keyword_Reserved) [];
        rule (whole_word (words constants)) (emit Keyword_Constant) [];
        rule (whole_word builtins) (emit Name_Builtin) [];
        rule (whole_word (Cat (opt (words ["Eval"; "Internal"; "Range"; "Reference";
                                           "Syntax"; "Type"; "URI"]%string))
                              (lit "Error")))
             (emit Name_Exception) [];
        rule super_call (bygroups [Keyword; Whitespace]) [push slashstartsregex];
        (* a name followed by an empty argument list, a space and a brace *)
        rule (Cat (Group 1 (Cat (In_ [rg "a" "z"; rg "A" "Z"; c1 "_"; c1 "?"; c1 "."; c1 "$"])
                                (star (In_ [esc_w; c1 "?"; c1 "."; c1 "$"]))))
                  (Look (lit "() {")))
             (emit Name_Other) [push slashstartsregex];
        rule JS_IDENT (emit Name_Other) [];
        rule (quoted 34) (emit String_Double) [];
        rule (quoted 39) (emit String_Single) [];
        rule (chr "`") (emit String_Backtick) [push interp] ]
  | interp =>
      [ rule (chr "`") (emit String_Backtick) [pop];
        rule (Cat (chr "\") Any) (emit String_Backtick) [];
        rule (lit "${") (emit String_Interpol) [push interp_inside];
        rule (chr "$") (emit String_Backtick) [];
        rule (plus (NotIn [c1 "`"; c1 "\"; c1 "$"])) (emit String_Backtick) [] ]
  | interp_inside =>
      [ rule (chr "}") (emit String_Interpol) [pop];
        include root ]
  end.

(** ** The scanning loop

    The lexer inherits its loop from the host framework ([RegexLexer]), which
    is not part of the repository: the loop is written here as section 4.1
    of the specification documents it. *)

(** A token as the loop yields it: the offset, the type and the matched text. *)
Record token := { t_pos : nat; t_type : label; t_value : text }.

(** The state of a scan: the position and the state stack, its head the
    top of the stack (the last element of the Python list). *)
Record config := { pos : nat; statestack : list state }.

Inductive outcome :=
  | Halt                                   (* the end of the input is reached *)
  | Crash                                  (* no state to look up *)
  | Next (out : list token) (c : config).

(** Modelled from the spec: the host framework's flattening of a state, the
    rule list with the included sub-lists in declared order (section 4.1,
    step 2); the inclusion chains of the table are shorter than the six
    states. *)
Fixpoint process_state (depth : nat) (st : state) : list entry :=
  match depth with
  | 0 => []
  | S d =>
      flat_map (fun e => match e with
                         | include st' => process_state d st'
                         | _ => [e]
                         end) (tokens st)
  end.

Definition tokendefs (st : state) : list entry := process_state 6 st.

(** Modelled from the spec: the host framework's reading of [default], the
    fallback action of a state, if it provides one (section 4.1, step 5). *)
Fixpoint fallback (es : list entry) : option (list move) :=
  match es with
  | [] => None
  | default new :: _ => Some new
  | _ :: es' => fallback es'
  end.

(** Modelled from the spec: the host framework's moves on the state stack;
    push appends, pop removes the top and is guarded so that the stack never
    empties (section 3, Lexer State Stack). *)
Definition apply_move (stack : list state) (m : move) : list state :=
  match m with
  | push st => st :: stack
  | pop => match stack with
           | _ :: (_ :: _) as rest => rest
           | _ => stack
           end
  end.

Definition transition (new : list move) (stack : list state) : list state :=
  fold_left apply_move new stack.

Section Scanning.

Variable U : unicode.
Variable s : text.

(** Modelled from the spec: the host framework's dispatch; the rules are
    tried in order at the position, the first match wins (section 4.1,
    steps 3 and 4). *)
Fixpoint first_match (es : list entry) (p : nat) : option (entry * match_) :=
  match es with
  | [] => None
  | e :: es' =>
      match e with
      | rule rex _ _ =>
          match rexmatch U s rex p with
          | Some m => Some (e, m)
          | None => first_match es' p
          end
      | _ => first_match es' p
      end
  end.

(** Modelled from the spec: the tokens the host framework yields for a
    match; a single label gives one token for the whole match, a grouped
    classification gives one token per labelled group in group order,
    skipping the groups that matched nothing (section 4.1, step 4). *)
Definition group_token (g : groups) (nl : nat * label) : list token :=
  match group_span (fst nl) g with
  | Some (a, b) =>
      if a <? b then [{| t_pos := a; t_type := snd nl; t_value := slice s a b |}] else []
  | None => []
  end.

Definition yield (act : action) (p : nat) (m : match_) : list token :=
  match act with
  | emit l => [{| t_pos := p; t_type := l; t_value := slice s p (m_end m) |}]
  | bygroups ls => flat_map (group_token (m_groups m)) (combine (seq 1 (List.length ls)) ls)
  end.

(** Modelled from the spec: the host framework's action on a match; the
    tokens are yielded, the position moves to the end of the match and the
    moves of the rule are made on the stack (section 4.1, step 4). *)
Definition fire (c : config) (e : entry) (m : match_) : outcome :=
  match e with
  | rule _ act new =>
      Next (yield act (pos c) m)
           {| pos := m_end m; statestack := transition new (statestack c) |}
  | _ => Crash
  end.

(** Modelled from the spec: the host framework's action without a match;
    the default of the state is applied and nothing is consumed, or else the
    character at the position becomes an [Error] token (section 4.1, steps 5
    and 6). *)
Definition no_match (c : config) (es : list entry) : outcome :=
  match fallback es with
  | Some new => Next [] {| pos := pos c; statestack := transition new (statestack c) |}
  | None =>
      Next [{| t_pos := pos c; t_type := Error; t_value := slice s (pos c) (S (pos c)) |}]
           {| pos := S (pos c); statestack := statestack c |}
  end.

(** Modelled from the spec: one step of the host framework's scanning loop,
    which ends at the end of the input (section 4.1, steps 2 to 7). *)
Definition step (c : config) : outcome :=
  if List.length s <=? pos c then Halt
  else
    match statestack c with
    | [] => Crash
    | st :: _ =>
        match first_match (tokendefs st) (pos c) with
        | Some (e, m) => fire c e m
        | None => no_match c (tokendefs st)
        end
    end.

(** Modelled from the spec: the host framework's loop from a configuration
    (section 4.1, steps 1 and 7), here for at most [fuel] steps; [None] when
    they do not suffice. *)
Fixpoint scan (fuel : nat) (c : config) : option (list token) :=
  match fuel with
  | 0 => None
  | S fuel' =>
      match step c with
      | Halt => Some []
      | Crash => None
      | Next out c' =>
          match scan fuel' c' with
          | Some rest => Some (out ++ rest)
          | None => None
          end
      end
  end.

Definition start : config := {| pos := 0; statestack := [root] |}.

(** The scan of a text, from the position 0 and the stack [[root]]. No scan
    takes more than three steps per character ([scan_start] below). *)
Definition get_tokens_unprocessed : option (list token) :=
  scan (3 * List.length s + 3) start.

End Scanning.

Definition tok (p : nat) (l : label) (v : string) : token :=
  {| t_pos := p; t_type := l; t_value := codes v |}.


(** ** Notions used to state the properties *)

(** The least number of characters a match of a pattern spans. *)
Fixpoint min_len (r : regex) : nat :=
  match r with
  | Chr _ | Any | In_ _ | NotIn _ => 1
  | Cat a b => min_len a + min_len b
  | Or a b => Nat.min (min_len a) (min_len b)
  | Rep _ lo _ a => lo * min_len a
  | Group _ a => min_len a
  | Empty | Look _ | Bos | Bol | Eol | WordB | NotWordB => 0
  end.

(** Every repeated part of a pattern spans at least one character. *)
Fixpoint rounds_advance (r : regex) : bool :=
  match r with
  | Cat a b | Or a b => rounds_advance a && rounds_advance b
  | Rep _ _ _ a => (1 <=? min_len a) && rounds_advance a
  | Group _ a | Look a => rounds_advance a
  | _ => true
  end.

(** The states whose rules are those of [root]. *)
Definition code_state (st : state) : bool :=
  match st with root | interp_inside => true | _ => false end.

(** The stacks on which code is scanned: [root] alone, or an interpolation
    inside a template opened from such a stack. *)
Fixpoint code_stack (stack : list state) : bool :=
  match stack with
  | [root] => true
  | interp_inside :: interp :: rest => code_stack rest
  | _ => false
  end.

(** The stacks a scan goes through: a code stack, possibly under one of the
    three states that are entered from code. *)
Definition well_nested (stack : list state) : bool :=
  match stack with
  | slashstartsregex :: rest | badregex :: rest | interp :: rest => code_stack rest
  | _ => code_stack stack
  end.

(** The configurations a scan of [s] goes through. *)
Inductive reachable (U : unicode) (s : text) : config -> Prop :=
  | reach_start : reachable U s start
  | reach_step c out c' :
      reachable U s c -> step U s c = Next out c' -> reachable U s c'.

(** The moves of an entry. *)
Definition moves (e : entry) : list move :=
  match e with
  | rule _ _ new => new
  | default new => new
  | include _ => []
  end.

(** [w] is written in [s] at position [p]. *)
Fixpoint prefix_at (s : text) (p : nat) (w : text) : bool :=
  match w with
  | [] => true
  | c :: w' =>
      match nth_error s p with
      | Some d => (c =? d)%N && prefix_at s (S p) w'
      | None => false
      end
  end.

(** What [line_start] looks ahead for. *)
Definition opens_slash (U : unicode) (s : text) (p : nat) : bool :=
  match nth_error s p with
  | Some c => is_space U c || (c =? ch "/")%N
  | None => false
  end || prefix_at s p (codes "<!--").

(** A bound on the steps left: three per character left, and the steps that
    consume nothing, which come at most two in a row. *)
Definition measure (U : unicode) (s : text) (c : config) : nat :=
  3 * (List.length s - pos c) +
  match statestack c with
  | slashstartsregex :: _ => 1
  | st :: _ => if code_state st && opens_slash U s (pos c) then 2 else 0
  | [] => 0
  end.

(** The texts of a token sequence, joined. *)
Definition joined (ts : list token) : text := List.concat (map t_value ts).

(** An entry that yields one token for a match of at least one character
    and makes one of the [allowed] moves. *)
Definition plain (allowed : list (list move)) (e : entry) : Prop :=
  exists rex l new,
    e = rule rex (emit l) new /\ 1 <= min_len rex /\ In new allowed.

(** The tokens [ts] cover the text from [p] to [q] one after the other:
    each starts where the one before ended and carries the text it spans. *)
Fixpoint spans (s : text) (p : nat) (ts : list token) (q : nat) : Prop :=
  match ts with
  | [] => p = q
  | t :: ts' =>
      t_pos t = p /\
      t_value t = slice s p (p + List.length (t_value t)) /\
      spans s (p + List.length (t_value t)) ts' q
  end.

(** Offsets that never go down, and offsets that always go up. *)
Fixpoint ascending (ps : list nat) : bool :=
  match ps with
  | p :: (q :: _) as ps' => (p <=? q) && ascending ps'
  | _ => true
  end.

Fixpoint strictly_ascending (ps : list nat) : bool :=
  match ps with
  | p :: (q :: _) as ps' => (p <? q) && strictly_ascending ps'
  | _ => true
  end.

(** What every step of a scan achieves: the stack stays well nested, the
    tokens yielded cover the text between the two positions, and the bound
    on the steps left goes down. *)
Definition sound_step (U : unicode) (s : text) (c : config) (out : list token) (c' : config) : Prop :=
  well_nested (statestack c') = true /\
  pos c' <= List.length s /\
  spans s (pos c) out (pos c') /\
  measure U s c' < measure U s c.

(** The first [n] steps of a scan from [c]: the tokens yielded and the
    configuration reached (the steps stop where the scan ends). *)
Fixpoint steps (U : unicode) (s : text) (n : nat) (c : config) : list token * config :=
  match n with
  | 0 => ([], c)
  | S n' =>
      match step U s c with
      | Next out c' => let (ts, c'') := steps U s n' c' in (out ++ ts, c'')
      | _ => ([], c)
      end
  end.

(** The stack after each step of a scan, with the tokens of the step. *)
Fixpoint trace (U : unicode) (s : text) (fuel : nat) (c : config)
  : list (list token * list state) :=
  match fuel with
  | 0 => []
  | S fuel' =>
      match step U s c with
      | Next out c' => (out, statestack c') :: trace U s fuel' c'
      | _ => []
      end
  end.

(** A complete scan from [c], as a sequence of steps up to the end of the
    input, yields [ts]. *)
Inductive scans (U : unicode) (s : text) : config -> list token -> Prop :=
  | scans_halt c : step U s c = Halt -> scans U s c []
  | scans_next c out c' ts :
      step U s c = Next out c' -> scans U s c' ts -> scans U s c (out ++ ts).

(** One [Error] token per character from [p] up to [q]. *)
Definition errors (s : text) (p q : nat) : list token :=
  map (fun i => {| t_pos := i; t_type := Error; t_value := slice s i (S i) |})
      (seq p (q - p)).

(** The words a pattern made of literals, alternatives, groups, optional
    parts and word boundaries can match. *)
Fixpoint lang (r : regex) : list text :=
  match r with
  | Empty | WordB => [[]]
  | Chr c => [[c]]
  | Cat a b => flat_map (fun u => map (app u) (lang b)) (lang a)
  | Or a b => lang a ++ lang b
  | Group _ a => lang a
  | Rep _ 0 (Some 1) a => [] :: lang a
  | _ => []
  end.

(** The types of the keyword, reserved-word and builtin-name rules. *)
Definition keyword_type (l : label) : bool :=
  match l with
  | Keyword | Keyword_Constant | Keyword_Declaration | Keyword_Reserved | Name_Builtin => true
  | _ => false
  end.

(** The words of the keyword, reserved-word and builtin-name rules of
    [root], each with the type of the rule that lists it. *)
Definition listed_words : list (label * text) :=
  flat_map (fun e => match e with
                     | rule rex (emit l) _ =>
                         if keyword_type l then map (pair l) (lang rex) else []
                     | _ => []
                     end) (tokendefs root).

(** The types of the rules of a state, in the order they are tried. *)
Definition rule_types (st : state) : list label :=
  flat_map (fun e => match e with rule _ (emit l) _ => [l] | _ => [] end) (tokendefs st).

(** The characters a match can stand at. [eats U r c]: a match of [r] that
    spans at least one character may start with the character [c];
    [skips U r c]: a match of [r] that spans no character may stand before
    [c]. Both are upper bounds: what stands before and after is not looked
    at. *)
Fixpoint eats (U : unicode) (r : regex) (c : N) {struct r} : bool :=
  match r with
  | Chr d => (d =? c)%N
  | Any => true
  | In_ items => in_set U items c
  | NotIn items => negb (in_set U items c)
  | Cat a b => eats U a c || (skips U a c && eats U b c)
  | Or a b => eats U a c || eats U b c
  | Rep _ _ _ a => eats U a c
  | Group _ a => eats U a c
  | Empty | Look _ | Bos | Bol | Eol | WordB | NotWordB => false
  end
with skips (U : unicode) (r : regex) (c : N) {struct r} : bool :=
  match r with
  | Empty | Bos | Bol | WordB | NotWordB => true
  | Eol => (c =? newline)%N
  | Cat a b => skips U a c && skips U b c
  | Or a b => skips U a c || skips U b c
  | Rep _ lo _ _ => lo =? 0
  | Group _ a => skips U a c
  | Look a => eats U a c || skips U a c
  | Chr _ | Any | In_ _ | NotIn _ => false
  end.

(** The rules that may match at the character [c]. *)
Definition can_begin (U : unicode) (c : N) (e : entry) : bool :=
  match e with
  | rule rex _ _ => eats U rex c || skips U rex c
  | _ => false
  end.

Definition candidates (U : unicode) (st : state) (c : N) : list entry :=
  filter (can_begin U c) (tokendefs st).

(** The positions a repetition goes through: from [i], one round after the
    other, each of the width listed, where the round at a position always
    hands over to what follows it at the next position. *)
Fixpoint chain (body : nat -> groups -> cont -> option match_) (i : nat) (ws : list nat) : Prop :=
  match ws with
  | [] => True
  | w :: ws' =>
      0 < w /\
      (forall g k', exists g', body i g k' = k' (i + w) g') /\
      chain body (i + w) ws'
  end.

(** The states and positions at which the rules of [commentsandwhitespace]
    are the first to be tried: [slashstartsregex] anywhere, and the two code
    states anywhere but at the start of a line, where the rule that looks
    for white space, a slash or [<!--] comes first (it pushes
    [slashstartsregex]). *)
Definition comments_first (s : text) (st : state) (p : nat) : bool :=
  match st with
  | slashstartsregex => true
  | root | interp_inside => negb (at_bol s p)
  | _ => false
  end.

(** What stands between the quotes of a string quoted by [d]: a backslash
    and the character after it, whatever it is, or a character that is
    neither [d] nor a backslash, any number of times. *)
Fixpoint string_body (d : N) (t : text) : bool :=
  match t with
  | [] => true
  | c :: t' =>
      if (c =? ch "\")%N
      then match t' with
           | _ :: t'' => string_body d t''
           | [] => false
           end
      else negb (c =? d)%N && string_body d t'
  end.

(** The digits of the octal and of the hexadecimal literals. *)
Definition octal_digit (c : N) : bool := between (ch "0") (ch "7") c.

Definition hex_digit (c : N) : bool :=
  ascii_digit c || between (ch "a") (ch "f") c || between (ch "A") (ch "F") c.

(** Where a literal ends whose digits end at [q]: an [n] that stands there
    belongs to it. *)
Definition after_suffix (s : text) (q : nat) : nat :=
  match nth_error s q with
  | Some d => if (d =? ch "n")%N then S q else q
  | None => q
  end.

(** The characters that go on a name: those of [JS_IDENT_PART]. *)
Definition name_part (U : unicode) (c : N) : bool :=
  in_set U [c1 "$"; cat_part; one 8204; one 8205] c.

(** The characters before which a name ends, whatever the rules: those that
    neither go on a name nor start an escape, and that the pattern for a name
    before [() {] cannot take either. *)
Definition name_end (U : unicode) (c : N) : bool :=
  negb (name_part U c || in_set U [esc_w; c1 "?"; c1 "."; c1 "$"; c1 "\"; c1 "("] c).

(** The stack with [n] templates open, each one in an interpolation of the
    one before. *)
Fixpoint nest (n : nat) : list state :=
  match n with
  | 0 => [root]
  | S n' => interp_inside :: interp :: nest n'
  end.

(** What holds of every token of a scan: only a [Text] token is empty, and
    an [Error] token is one character. *)
Definition sized (t : token) : Prop :=
  (t_value t = [] -> t_type t = Text) /\
  (t_type t = Error -> List.length (t_value t) = 1).

(** The characters that stand for themselves in a regular expression
    literal: no opening bracket, slash, backslash or newline. *)
Definition regex_plain (c : N) : bool :=
  negb ((c =? ch "[") || (c =? ch "/") || (c =? ch "\") || (c =? newline))%N.

(** What stands between the slashes of the regular expression literals
    without character classes: a backslash and the character after it,
    whatever it is, or a plain character, any number of times. *)
Fixpoint regex_body (t : text) : bool :=
  match t with
  | [] => true
  | c :: t' =>
      if (c =? ch "\")%N
      then match t' with
           | _ :: t'' => regex_body t''
           | [] => false
           end
      else regex_plain c && regex_body t'
  end.

(** The flags of a regular expression literal. *)
Definition regex_flag (c : N) : bool := existsb (N.eqb c) (codes "gimuysd").

(** ** Facts about matching *)

Section MatchFacts.

Variable U : unicode.
Variable s : text.

Lemma one_char_inv p i g k m :
  one_char s p i g k = Some m ->
  exists c, nth_error s i = Some c /\ p c = true /\ k (S i) g = Some m.
Proof.
  unfold one_char. destruct (nth_error s i) as [c|]; [|discriminate].
  destruct (p c) eqn:E; [|discriminate]. intros H. now exists c.
Qed.

Lemma nth_error_lt (i : nat) (c : N) : nth_error s i = Some c -> i < List.length s.
Proof. intros H. apply nth_error_Some. congruence. Qed.

(** A successful repetition hands over to its continuation, after the rounds
    still owed. *)
Lemma rounds_inv body greedy lo hi a :
  (forall i g k m, i <= List.length s -> body i g k = Some m ->
     exists j g', i + min_len a <= j /\ j <= List.length s /\ k j g' = Some m) ->
  forall fuel n i g k m,
    i <= List.length s ->
    rounds body greedy lo hi fuel n i g k = Some m ->
    exists j g', i + (lo - n) * min_len a <= j /\ j <= List.length s /\ k j g' = Some m.
Proof.
  intros Hbody. induction fuel as [|fuel IH]; intros n i g k m Hi H; [discriminate|].
  cbn [rounds] in H.
  assert (Hstop : (if lo <=? n then k i g else None) = Some m ->
                  exists j g', i + (lo - n) * min_len a <= j /\ j <= List.length s /\ k j g' = Some m).
  { destruct (Nat.leb_spec lo n) as [Hle|]; [|discriminate]. intros Hk.
    exists i, g. replace (lo - n) with 0 by lia. repeat split; auto; lia. }
  assert (Hagain : (if below hi n
                    then body i g (fun j g' =>
                           if i <? j then rounds body greedy lo hi fuel (S n) j g' k else None)
                    else None) = Some m ->
                   exists j g', i + (lo - n) * min_len a <= j /\ j <= List.length s /\ k j g' = Some m).
  { destruct (below hi n); [|discriminate]. intros Hb.
    apply Hbody in Hb; auto. destruct Hb as (j & g' & Hj & Hlen & Hk).
    destruct (Nat.ltb_spec i j) as [Hlt|]; [|discriminate].
    apply IH in Hk; auto. destruct Hk as (j2 & g2 & Hj2 & Hlen2 & Hk2).
    exists j2, g2. repeat split; auto.
    destruct (Nat.le_gt_cases lo n) as [Hle|Hgt].
    - replace (lo - n) with 0 by lia. lia.
    - replace (lo - n) with (S (lo - S n)) by lia. cbn [Nat.mul]. lia. }
  destruct greedy.
  - destruct (if below hi n then _ else None) eqn:E.
    + apply Hagain. exact H.
    + apply Hstop. exact H.
  - destruct (if lo <=? n then k i g else None) eqn:E.
    + apply Hstop. exact H.
    + apply Hagain. exact H.
Qed.

(** A successful match of a pattern hands over to its continuation at a
    position inside the text, at least [min_len] characters further. *)
Lemma run_inv r :
  forall i g k m,
    i <= List.length s ->
    run U s r i g k = Some m ->
    exists j g', i + min_len r <= j /\ j <= List.length s /\ k j g' = Some m.
Proof.
  induction r as [ |c| |items|items|a IHa b IHb|a IHa b IHb|greedy lo hi a IHa|n a IHa|a IHa
                 | | | | | ]; intros i g k m Hi H; cbn [run min_len] in *.
  - exists i, g. repeat split; auto; lia.
  - apply one_char_inv in H. destruct H as (d & Hd & _ & Hk).
    apply nth_error_lt in Hd. exists (S i), g. repeat split; auto; lia.
  - apply one_char_inv in H. destruct H as (d & Hd & _ & Hk).
    apply nth_error_lt in Hd. exists (S i), g. repeat split; auto; lia.
  - apply one_char_inv in H. destruct H as (d & Hd & _ & Hk).
    apply nth_error_lt in Hd. exists (S i), g. repeat split; auto; lia.
  - apply one_char_inv in H. destruct H as (d & Hd & _ & Hk).
    apply nth_error_lt in Hd. exists (S i), g. repeat split; auto; lia.
  - apply IHa in H; auto. destruct H as (j & g' & Hj & Hlen & Hk).
    apply IHb in Hk; auto. destruct Hk as (j2 & g2 & Hj2 & Hlen2 & Hk2).
    exists j2, g2. repeat split; auto; lia.
  - destruct (run U s a i g k) eqn:E.
    + injection H as <-. apply IHa in E; auto. destruct E as (j & g' & Hj & Hlen & Hk).
      exists j, g'. repeat split; auto; lia.
    + apply IHb in H; auto. destruct H as (j & g' & Hj & Hlen & Hk).
      exists j, g'. repeat split; auto; lia.
  - apply rounds_inv with (a := a) in H; auto.
    destruct H as (j & g' & Hj & Hlen & Hk). exists j, g'. repeat split; auto.
    replace (lo - 0) with lo in Hj by lia. exact Hj.
  - apply IHa in H; auto. destruct H as (j & g' & Hj & Hlen & Hk).
    exists j, ((n, (i, j)) :: g'). repeat split; auto.
  - destruct (run U s a i g (accept)) as [m'|]; [|discriminate].
    exists i, (m_groups m'). repeat split; auto; lia.
  - destruct i; [|discriminate]. exists 0, g. repeat split; auto; lia.
  - destruct (at_bol s i); [|discriminate]. exists i, g. repeat split; auto; lia.
  - destruct (at_eol s i); [|discriminate]. exists i, g. repeat split; auto; lia.
  - destruct (boundary U s i); [|discriminate]. exists i, g. repeat split; auto; lia.
  - destruct (boundary U s i); [discriminate|]. exists i, g. repeat split; auto; lia.
Qed.

Lemma rexmatch_bounds r p m :
  p <= List.length s ->
  rexmatch U s r p = Some m ->
  p + min_len r <= m_end m /\ m_end m <= List.length s.
Proof.
  intros Hp H. apply run_inv in H; auto.
  destruct H as (j & g' & Hj & Hlen & Hk). injection Hk as <-. cbn. auto.
Qed.

(** The continuation of a match matters only at the positions a match can
    end at. *)
Lemma rounds_ext body greedy lo hi a :
  (forall i g k1 k2, i <= List.length s ->
     (forall j g', i + min_len a <= j -> j <= List.length s -> k1 j g' = k2 j g') ->
     body i g k1 = body i g k2) ->
  forall fuel1 fuel2 n i g k1 k2,
    i <= List.length s ->
    List.length s - i < fuel1 -> List.length s - i < fuel2 ->
    (forall j g', i + (lo - n) * min_len a <= j -> j <= List.length s -> k1 j g' = k2 j g') ->
    rounds body greedy lo hi fuel1 n i g k1 = rounds body greedy lo hi fuel2 n i g k2.
Proof.
  intros Hbody. induction fuel1 as [|fuel1 IH]; intros fuel2 n i g k1 k2 Hi H1 H2 Hk; [lia|].
  destruct fuel2 as [|fuel2]; [lia|]. cbn [rounds].
  assert (Hstop : (if lo <=? n then k1 i g else None) = (if lo <=? n then k2 i g else None)).
  { destruct (Nat.leb_spec lo n); [|reflexivity]. apply Hk; [|exact Hi].
    replace (lo - n) with 0 by lia. lia. }
  assert (Hagain :
    (if below hi n
     then body i g (fun j g' =>
            if i <? j then rounds body greedy lo hi fuel1 (S n) j g' k1 else None)
     else None)
    = (if below hi n
       then body i g (fun j g' =>
              if i <? j then rounds body greedy lo hi fuel2 (S n) j g' k2 else None)
       else None)).
  { destruct (below hi n); [|reflexivity]. apply Hbody; [exact Hi|].
    intros j g' Hj Hlen. destruct (Nat.ltb_spec i j); [|reflexivity].
    apply IH; try lia. intros j2 g2 Hj2 Hlen2. apply Hk; [|exact Hlen2].
    destruct (Nat.le_gt_cases lo n).
    - replace (lo - n) with 0 by lia. lia.
    - replace (lo - n) with (S (lo - S n)) by lia. cbn [Nat.mul]. lia. }
  rewrite Hstop, Hagain. reflexivity.
Qed.

Lemma run_ext r :
  forall i g k1 k2,
    i <= List.length s ->
    (forall j g', i + min_len r <= j -> j <= List.length s -> k1 j g' = k2 j g') ->
    run U s r i g k1 = run U s r i g k2.
Proof.
  assert (Hone : forall p i g (k1 k2 : cont),
            (forall j g', i + 1 <= j -> j <= List.length s -> k1 j g' = k2 j g') ->
            one_char s p i g k1 = one_char s p i g k2).
  { intros p i g k1 k2 Hk. unfold one_char.
    destruct (nth_error s i) as [c|] eqn:E; [|reflexivity].
    apply nth_error_lt in E. destruct (p c); [|reflexivity]. apply Hk; lia. }
  induction r as [ |c| |items|items|a IHa b IHb|a IHa b IHb|greedy lo hi a IHa|n a IHa|a IHa
                 | | | | | ]; intros i g k1 k2 Hi Hk; cbn [run min_len] in *;
    try (apply Hone; exact Hk);
    try (rewrite (Hk i g) by lia; reflexivity).
  - apply IHa; [exact Hi|]. intros j g' Hj Hlen. apply IHb; [exact Hlen|].
    intros j2 g2 Hj2 Hlen2. apply Hk; lia.
  - rewrite (IHa i g k1 k2), (IHb i g k1 k2); auto; intros; apply Hk; lia.
  - apply rounds_ext with (a := a); auto; try lia.
    intros j g' Hj Hlen. apply Hk; [|exact Hlen]. replace (lo - 0) with lo in Hj by lia. lia.
  - apply IHa; [exact Hi|]. intros j g' Hj Hlen. apply Hk; lia.
  - destruct (run U s a i g (accept)) as [m'|]; [|reflexivity]. apply Hk; lia.
Qed.

(** The fuel of a repetition never runs out: any amount above the number of
    characters left gives the same match. *)
Lemma rounds_fuel greedy lo hi a fuel i g k :
  i <= List.length s ->
  List.length s - i < fuel ->
  rounds (run U s a) greedy lo hi fuel 0 i g k = run U s (Rep greedy lo hi a) i g k.
Proof.
  intros Hi Hfuel. cbn [run]. apply rounds_ext with (a := a); auto; try lia.
  intros. now apply run_ext.
Qed.

(** After a part that spans at least one character, the test that a round
    has advanced always passes. *)
Lemma advance_test_passes a i g (k : cont) :
  1 <= min_len a ->
  i <= List.length s ->
  run U s a i g (fun j g' => if i <? j then k j g' else None) = run U s a i g k.
Proof.
  intros Hmin Hi. apply run_ext; [exact Hi|].
  intros j g' Hj _. destruct (Nat.ltb_spec i j); [reflexivity|lia].
Qed.

End MatchFacts.

Lemma nth_error_shift (pre suf : text) i :
  nth_error (pre ++ suf) (i + List.length pre) = nth_error suf i.
Proof. rewrite nth_error_app2 by lia. f_equal. lia. Qed.

(** ** Facts about particular patterns *)

(** Replaces the code of each character written in the goal by its value. *)
Ltac eval_ch :=
  repeat match goal with
         | |- context [ch ?a] =>
             let v := eval vm_compute in (ch a) in change (ch a) with v
         | H : context [ch ?a] |- _ =>
             let v := eval vm_compute in (ch a) in change (ch a) with v in H
         end.

(** Decides the comparisons of a code point with constants. *)
Ltac cases_N :=
  repeat match goal with
         | |- context [(?a <=? ?b)%N] => destruct (N.leb_spec a b)
         | |- context [(?a <? ?b)%N] => destruct (N.ltb_spec a b)
         | |- context [(?a =? ?b)%N] => destruct (N.eqb_spec a b)
         | H : context [(?a <=? ?b)%N] |- _ => destruct (N.leb_spec a b)
         | H : context [(?a <? ?b)%N] |- _ => destruct (N.ltb_spec a b)
         | H : context [(?a =? ?b)%N] |- _ => destruct (N.eqb_spec a b)
         end.

Section PatternFacts.

Variable U : unicode.
Variable s : text.

Lemma run_cats r rs i g k :
  run U s (cats (r :: rs)) i g k = run U s r i g (fun j g' => run U s (cats rs) j g' k).
Proof. destruct rs; reflexivity. Qed.

Lemma run_alt_some rs r i g k :
  In r rs -> run U s r i g k <> None -> run U s (alt rs) i g k <> None.
Proof.
  induction rs as [|r0 rs IH]; intros Hin Hr; [destruct Hin|].
  destruct rs as [|r1 rs].
  - destruct Hin as [<-|[]]. exact Hr.
  - change (alt (r0 :: r1 :: rs)) with (Or r0 (alt (r1 :: rs))). cbn [run].
    destruct (run U s r0 i g k) eqn:E; [discriminate|].
    destruct Hin as [<-|Hin]; [contradiction|]. now apply IH.
Qed.

Lemma run_chars w : forall p g k,
  run U s (cats (map Chr w)) p g k =
  if prefix_at s p w then k (p + List.length w) g else None.
Proof.
  induction w as [|c w IH]; intros p g k.
  - cbn. now rewrite Nat.add_0_r.
  - cbn [map]. rewrite run_cats. cbn [run prefix_at List.length]. unfold one_char.
    destruct (nth_error s p) as [d|]; [|reflexivity].
    destruct (c =? d)%N; [|reflexivity]. cbn [andb]. rewrite IH.
    now rewrite Nat.add_succ_r.
Qed.

Lemma run_lit w p g k :
  run U s (lit w) p g k =
  if prefix_at s p (codes w) then k (p + List.length (codes w)) g else None.
Proof. apply run_chars. Qed.

Lemma run_chr a p g k :
  run U s (chr a) p g k =
  match nth_error s p with
  | Some c => if (c =? ch a)%N then k (S p) g else None
  | None => None
  end.
Proof.
  cbn. unfold one_char. destruct (nth_error s p) as [c|]; [|reflexivity].
  now rewrite N.eqb_sym.
Qed.

Lemma line_start_inv p m :
  rexmatch U s line_start p = Some m -> m_end m = p /\ opens_slash U s p = true.
Proof.
  unfold rexmatch, line_start. cbn [run alt].
  destruct (at_bol s p); [|discriminate].
  rewrite run_lit, run_chr. unfold one_char, opens_slash, in_set. cbn [existsb member].
  destruct (nth_error s p) as [c|].
  - rewrite orb_false_r. destruct (is_space U c); cbn [orb].
    + intros H. injection H as <-. auto.
    + destruct (c =? ch "/")%N; cbn [orb].
      * intros H. injection H as <-. auto.
      * destruct (prefix_at s p (codes "<!--")); [|discriminate].
        intros H. injection H as <-. auto.
  - cbn [orb]. destruct (prefix_at s p (codes "<!--")); [|discriminate].
    intros H. injection H as <-. auto.
Qed.

Lemma prefix_at_nth w : forall p i c,
  prefix_at s p w = true -> nth_error w i = Some c -> nth_error s (p + i) = Some c.
Proof.
  induction w as [|d w IH]; intros p i c Hp Hi; [destruct i; discriminate|].
  cbn [prefix_at] in Hp. destruct (nth_error s p) as [e|] eqn:E; [|discriminate].
  apply andb_prop in Hp. destruct Hp as [Hd Hw]. apply N.eqb_eq in Hd. subst e.
  destruct i as [|i]; cbn in Hi.
  - injection Hi as <-. now rewrite Nat.add_0_r.
  - rewrite Nat.add_succ_r. apply (IH (S p) i c Hw Hi).
Qed.

Lemma space_not_word c : is_space U c = true -> is_word U c = false.
Proof.
  unfold is_space, is_word, ascii_letter, ascii_digit, between. eval_ch.
  destruct (N.ltb_spec c 128).
  - cases_N; cbn; intros; try reflexivity; try discriminate; lia.
  - apply uni_space_not_alnum.
Qed.

(** A greedy repetition that has done its rounds always ends in a match. *)
Lemma rounds_total body lo hi fuel n i g :
  lo <= n -> rounds body true lo hi (S fuel) n i g accept <> None.
Proof.
  intros Hle. cbn [rounds].
  destruct (if below hi n then _ else None); [discriminate|].
  apply Nat.leb_le in Hle. rewrite Hle. discriminate.
Qed.

(** A greedy repetition over [m] positions at each of which the body takes
    exactly one character, and then none: it takes them all, if what
    follows accepts that. *)
Lemma greedy_run (body : nat -> groups -> cont -> option match_)
    (upd : nat -> groups -> groups) lo hi (k : cont) r m :
  forall fuel cnt i g,
    (forall j g' k', i <= j < i + m -> body j g' k' = k' (S j) (upd j g')) ->
    (forall g' k', body (i + m) g' k' = None) ->
    m < fuel -> lo <= cnt + m -> hi = None ->
    k (i + m) (fold_left (fun g' j => upd j g') (seq i m) g) = Some r ->
    rounds body true lo hi fuel cnt i g k = Some r.
Proof.
  induction m as [|m IH]; intros fuel cnt i g Hrun Hend Hfuel Hcnt -> Hk;
    (destruct fuel as [|fuel]; [lia|]); cbn [rounds below].
  - rewrite Nat.add_0_r in *. rewrite Hend.
    replace (lo <=? cnt) with true by (symmetry; apply Nat.leb_le; lia). exact Hk.
  - rewrite Hrun by lia.
    replace (i <? S i) with true by (symmetry; apply Nat.ltb_lt; lia).
    rewrite (IH fuel (S cnt) (S i) (upd i g)); try lia; try reflexivity.
    + intros j g' k' Hj. apply Hrun. lia.
    + intros g' k'. replace (S i + m) with (i + S m) by lia. apply Hend.
    + replace (S i + m) with (i + S m) by lia. exact Hk.
Qed.

Lemma spaces_match p c :
  nth_error s p = Some c -> is_space U c = true ->
  rexmatch U s (plus (In_ [esc_s])) p <> None.
Proof.
  intros Hc Hs. unfold rexmatch, plus. cbn [run rounds below].
  unfold one_char at 1. rewrite Hc. unfold in_set. cbn [existsb member].
  rewrite Hs. cbn [orb].
  replace (p <? S p) with true by (symmetry; apply Nat.ltb_lt; lia).
  apply nth_error_lt in Hc.
  destruct (List.length s - p) as [|fuel] eqn:E; [lia|].
  destruct (rounds _ _ _ _ _ _ _ _ _) eqn:R; [discriminate|].
  now apply rounds_total in R.
Qed.

Lemma slash_ahead_inv p m :
  rexmatch U s slash_ahead p = Some m ->
  nth_error s p = Some (ch "/") /\ m = {| m_end := p; m_groups := [] |}.
Proof.
  unfold rexmatch, slash_ahead. cbn [run]. rewrite run_chr.
  destruct (nth_error s p) as [c|]; [|discriminate].
  destruct (N.eqb_spec c (ch "/")); [|discriminate]. subst c.
  cbn. intros H. injection H as <-. auto.
Qed.

Lemma slash_ahead_match p :
  nth_error s p = Some (ch "/") ->
  rexmatch U s slash_ahead p = Some {| m_end := p; m_groups := [] |}.
Proof.
  intros H. unfold rexmatch, slash_ahead. cbn [run]. rewrite run_chr, H.
  now rewrite N.eqb_refl.
Qed.

(** After [super], the call pattern needs white space or a parenthesis. *)
Lemma super_call_inv p m :
  rexmatch U s super_call p = Some m ->
  prefix_at s p (codes "super") = true /\
  exists c, nth_error s (p + 5) = Some c /\ (is_space U c = true \/ c = ch "(").
Proof.
  unfold rexmatch, super_call. rewrite run_cats. cbn [run]. rewrite run_lit.
  destruct (prefix_at s p (codes "super")); [|discriminate]. intros H. split; [reflexivity|].
  change (List.length (codes "super")) with 5 in H.
  rewrite run_cats in H. cbn [run star rounds below] in H.
  unfold one_char at 1 in H. unfold in_set in H. cbn [existsb member] in H.
  destruct (nth_error s (p + 5)) as [c|] eqn:E.
  - exists c. split; [reflexivity|]. rewrite orb_false_r in H.
    destruct (is_space U c); [now left|]. right.
    cbn [Nat.leb] in H. rewrite run_cats in H. cbn [run] in H. rewrite run_cats in H.
    rewrite run_chr, E in H. destruct (N.eqb_spec c (ch "(")); [assumption|discriminate].
  - cbn [Nat.leb] in H. rewrite run_cats in H. cbn [run] in H. rewrite run_cats in H.
    rewrite run_chr, E in H. discriminate.
Qed.

(** Where the call pattern matches, the keyword rule, which stands before
    it in [root], matches as well. *)
Lemma super_call_shadowed p m :
  rexmatch U s super_call p = Some m ->
  rexmatch U s (whole_word (words keywords)) p <> None.
Proof.
  intros H. apply super_call_inv in H. destruct H as (Hpre & c & Hc & Hcls).
  unfold rexmatch, whole_word. cbn [run].
  apply run_alt_some with (r := lit "super").
  - unfold keywords. cbn [map]. auto 40 using in_eq, in_cons.
  - rewrite run_lit, Hpre. change (List.length (codes "super")) with 5.
    assert (Hr : nth_error s (p + 4) = Some (ch "r")).
    { apply prefix_at_nth with (w := codes "super"); auto. }
    assert (Hb : boundary U s (p + 5) = true).
    { unfold boundary. replace (p + 5) with (S (p + 4)) by lia.
      replace (word_at U s (p + 4)) with true
        by (unfold word_at; rewrite Hr; reflexivity).
      replace (S (p + 4)) with (p + 5) by lia. unfold word_at. rewrite Hc.
      destruct Hcls as [Hs| ->]; [now rewrite (space_not_word _ Hs)|reflexivity]. }
    rewrite Hb. discriminate.
Qed.

End PatternFacts.

(** ** Facts about the table and the loop *)

Lemma root_entries e :
  In e (tokendefs root) ->
  plain [[]; [push slashstartsregex]; [push interp]] e \/
  e = rule line_start (emit Text) [push slashstartsregex] \/
  e = rule super_call (bygroups [Keyword; Whitespace]) [push slashstartsregex].
Proof.
  intros H. cbv [tokendefs process_state tokens flat_map app] in H.
  repeat (destruct H as [<-|H];
          [first [ now (right; left) | now (right; right)
                 | left; eexists _, _, _; split; [reflexivity|]; split;
                   [cbn; lia | cbn; tauto] ] |]).
  destruct H.
Qed.

Lemma interp_inside_entries : 
  tokendefs interp_inside = rule (chr "}") (emit String_Interpol) [pop] :: tokendefs root.
Proof. reflexivity. Qed.

Lemma slashstartsregex_entries e :
  In e (tokendefs slashstartsregex) ->
  plain [[]; [pop]] e \/
  e = rule slash_ahead (emit Text) [pop; push badregex] \/
  e = default [pop].
Proof.
  intros H. cbv [tokendefs process_state tokens flat_map app] in H.
  repeat (destruct H as [<-|H];
          [first [ now (right; left) | now (right; right)
                 | left; eexists _, _, _; split; [reflexivity|]; split;
                   [cbn; lia | cbn; tauto] ] |]).
  destruct H.
Qed.

Lemma interp_entries e :
  In e (tokendefs interp) -> plain [[]; [pop]; [push interp_inside]] e.
Proof.
  intros H. cbv [tokendefs process_state tokens flat_map app] in H.
  repeat (destruct H as [<-|H];
          [eexists _, _, _; split; [reflexivity|]; split; [cbn; lia | cbn; tauto] |]).
  destruct H.
Qed.

Lemma badregex_entries e :
  In e (tokendefs badregex) -> plain [[pop]] e.
Proof.
  intros H. cbv [tokendefs process_state tokens flat_map app] in H.
  repeat (destruct H as [<-|H];
          [eexists _, _, _; split; [reflexivity|]; split; [cbn; lia | cbn; tauto] |]).
  destruct H.
Qed.

(** Every pattern of the table spans at least one character, but for the
    two that only look ahead. *)
Lemma table_rules st rex act new :
  In (rule rex act new) (tokendefs st) ->
  1 <= min_len rex \/ rex = line_start \/ rex = slash_ahead.
Proof.
  intros H. destruct st; cbv [tokendefs process_state tokens flat_map app] in H;
    repeat (destruct H as [H|H];
            [first [ discriminate H
                   | injection H as <- _ _;
                     first [ left; cbn; lia | right; left; reflexivity
                           | right; right; reflexivity ] ] |]);
    destruct H.
Qed.

(** In every pattern of the table the repeated parts span at least one
    character, so that each round of a repetition advances. *)
Lemma table_rounds_advance st rex act new :
  In (rule rex act new) (tokendefs st) -> rounds_advance rex = true.
Proof.
  intros H. destruct st; cbv [tokendefs process_state tokens flat_map app] in H;
    repeat (destruct H as [H|H];
            [first [discriminate H | injection H as <- _ _; reflexivity] |]);
    destruct H.
Qed.

Section ScanFacts.

Variable U : unicode.
Variable s : text.

Lemma first_match_some es p e m :
  first_match U s es p = Some (e, m) ->
  exists rex act new,
    e = rule rex act new /\ In e es /\ rexmatch U s rex p = Some m.
Proof.
  induction es as [|e0 es IH]; [discriminate|]. cbn [first_match].
  destruct e0 as [rex act new| |].
  - destruct (rexmatch U s rex p) as [m0|] eqn:E.
    + intros H. injection H as <- <-. exists rex, act, new. cbn. auto.
    + intros H. destruct (IH H) as (r & a & n & ? & ? & ?).
      exists r, a, n. cbn. auto.
  - intros H. destruct (IH H) as (r & a & n & ? & ? & ?). exists r, a, n. cbn. auto.
  - intros H. destruct (IH H) as (r & a & n & ? & ? & ?). exists r, a, n. cbn. auto.
Qed.

Lemma first_match_none es p rex act new :
  first_match U s es p = None -> In (rule rex act new) es -> rexmatch U s rex p = None.
Proof.
  induction es as [|e0 es IH]; intros H Hin; [destruct Hin|]. cbn [first_match] in H.
  destruct Hin as [->|Hin].
  - destruct (rexmatch U s rex p); [discriminate|reflexivity].
  - destruct e0 as [rex0 act0 new0| |]; auto.
    destruct (rexmatch U s rex0 p); [discriminate|auto].
Qed.

Lemma first_match_app es1 es2 p :
  first_match U s (es1 ++ es2) p =
  match first_match U s es1 p with
  | Some x => Some x
  | None => first_match U s es2 p
  end.
Proof.
  induction es1 as [|e0 es1 IH]; [reflexivity|]. cbn [app first_match].
  destruct e0 as [rex act new| |]; auto.
  destruct (rexmatch U s rex p); auto.
Qed.

(** The call pattern is never the first rule of [root] to match: the keyword
    rule stands before it. *)
Lemma root_never_super p e m :
  first_match U s (tokendefs root) p = Some (e, m) ->
  e <> rule super_call (bygroups [Keyword; Whitespace]) [push slashstartsregex].
Proof.
  intros H ->.
  change (tokendefs root)
    with (firstn 23 (tokendefs root)
          ++ rule super_call (bygroups [Keyword; Whitespace]) [push slashstartsregex]
          :: skipn 24 (tokendefs root)) in H.
  rewrite first_match_app in H.
  destruct (first_match U s (firstn 23 (tokendefs root)) p) as [x|] eqn:E1.
  - injection H as ->. apply first_match_some in E1.
    destruct E1 as (_ & _ & _ & _ & Hin & _).
    cbv [tokendefs process_state tokens flat_map app firstn] in Hin.
    repeat (destruct Hin as [Hin|Hin]; [discriminate Hin|]). destruct Hin.
  - cbn [first_match] in H.
    destruct (rexmatch U s super_call p) as [m0|] eqn:E2.
    + apply super_call_shadowed in E2. apply E2.
      apply first_match_none
        with (rex := whole_word (words keywords)) (act := emit Keyword)
             (new := [push slashstartsregex]) in E1; [exact E1|].
      cbv [tokendefs process_state tokens flat_map app firstn]. auto 40 using in_eq, in_cons.
    + apply first_match_some in H. destruct H as (_ & _ & _ & _ & Hin & _).
      cbv [tokendefs process_state tokens flat_map app skipn] in Hin.
      repeat (destruct Hin as [Hin|Hin]; [discriminate Hin|]). destruct Hin.
Qed.

Lemma slashstartsregex_opens p :
  opens_slash U s p = true -> first_match U s (tokendefs slashstartsregex) p <> None.
Proof.
  unfold opens_slash. intros H Hnone. apply orb_prop in H. destruct H as [H|H].
  - destruct (nth_error s p) as [c|] eqn:E; [|discriminate].
    apply orb_prop in H. destruct H as [H|H].
    + apply (@spaces_match U s p c E H).
      apply (@first_match_none _ p _ (emit Whitespace) [] Hnone). cbn. auto.
    + apply N.eqb_eq in H. subst c. apply slash_ahead_match with (U := U) in E.
      rewrite (@first_match_none _ p _ (emit Text) [pop; push badregex] Hnone) in E;
        [discriminate|]. cbn. auto 10.
  - assert (E : rexmatch U s (lit "<!--") p = None).
    { apply (@first_match_none _ p _ (emit Comment) [] Hnone). cbn. auto. }
    unfold rexmatch in E. rewrite run_lit, H in E. discriminate.
Qed.

Lemma first_match_all_fail es p :
  (forall rex act new, In (rule rex act new) es -> rexmatch U s rex p = None) ->
  first_match U s es p = None.
Proof.
  induction es as [|e es IH]; intros H; [reflexivity|]. cbn [first_match].
  destruct e as [rex act new| |].
  - rewrite (H rex act new) by (left; reflexivity). apply IH.
    intros. eapply H. right. eassumption.
  - apply IH. intros. eapply H. right. eassumption.
  - apply IH. intros. eapply H. right. eassumption.
Qed.

(** At the end of the input no rule of any state matches: trying the rules
    there, as the host framework does before it stops, yields nothing. *)
Lemma nothing_matches_at_end st :
  first_match U s (tokendefs st) (List.length s) = None.
Proof.
  apply first_match_all_fail. intros rex act new Hin.
  assert (Hnone : nth_error s (List.length s) = None) by (apply nth_error_None; lia).
  destruct (rexmatch U s rex (List.length s)) as [m|] eqn:E; [exfalso|reflexivity].
  destruct (table_rules _ _ _ _ Hin) as [Hmin|[->| ->]].
  - apply rexmatch_bounds in E; lia.
  - apply line_start_inv in E. destruct E as [_ E]. unfold opens_slash in E.
    rewrite Hnone in E. cbn in E. rewrite Hnone in E. discriminate.
  - apply slash_ahead_inv in E. destruct E as [E _]. congruence.
Qed.


Lemma measure_consume p p' stack stack' :
  p < p' -> p' <= List.length s ->
  measure U s {| pos := p'; statestack := stack' |} < measure U s {| pos := p; statestack := stack |}.
Proof.
  intros Hlt Hle. unfold measure. cbn [pos statestack].
  assert (W : match stack' with
              | slashstartsregex :: _ => 1
              | st :: _ => if code_state st && opens_slash U s p' then 2 else 0
              | [] => 0
              end <= 2).
  { destruct stack' as [|[] ?]; try destruct (_ && _); lia. }
  lia.
Qed.

Lemma slice_empty p : slice s p p = [].
Proof. unfold slice. now rewrite Nat.sub_diag. Qed.

Lemma slice_length p q : q <= List.length s -> List.length (slice s p q) = q - p.
Proof. intros H. unfold slice. rewrite length_firstn, length_skipn. lia. Qed.

Lemma firstn_skipn_add (l : text) n m :
  firstn n l ++ firstn m (skipn n l) = firstn (n + m) l.
Proof.
  revert l. induction n as [|n IH]; intros l; [reflexivity|].
  destruct l as [|x l]; cbn; [now destruct m|]. now rewrite IH.
Qed.

Lemma slice_app a b c :
  a <= b -> b <= c -> slice s a b ++ slice s b c = slice s a c.
Proof.
  intros Hab Hbc. unfold slice.
  replace (skipn b s) with (skipn (b - a) (skipn a s))
    by (rewrite skipn_skipn; f_equal; lia).
  rewrite firstn_skipn_add. f_equal. lia.
Qed.

Lemma spans_le ts : forall p q, spans s p ts q -> p <= q.
Proof.
  induction ts as [|t ts IH]; cbn [spans]; intros p q H; [lia|].
  destruct H as (_ & _ & H). apply IH in H. lia.
Qed.

Lemma spans_app ts1 ts2 : forall p q r,
  spans s p ts1 q -> spans s q ts2 r -> spans s p (ts1 ++ ts2) r.
Proof.
  induction ts1 as [|t ts1 IH]; cbn [spans app]; intros p q r H1 H2.
  - now subst q.
  - destruct H1 as (Hp & Hv & H1). eauto.
Qed.

Lemma spans_joined ts : forall p q, spans s p ts q -> joined ts = slice s p q.
Proof.
  induction ts as [|t ts IH]; cbn [spans]; intros p q H.
  - subst q. now rewrite slice_empty.
  - destruct H as (_ & Hv & H). unfold joined. cbn [map List.concat].
    fold (joined ts). rewrite (IH _ _ H), Hv at 1.
    rewrite slice_app; [reflexivity|lia|now apply spans_le in H].
Qed.

Lemma spans_ascending ts : forall p q, spans s p ts q -> ascending (map t_pos ts) = true.
Proof.
  induction ts as [|t ts IH]; intros p q H; [reflexivity|].
  destruct H as (Hp & _ & H). pose proof (IH _ _ H) as Hasc.
  destruct ts as [|t' ts]; [reflexivity|].
  cbn [map ascending] in *. rewrite Hasc.
  destruct H as (Hp' & _). rewrite Hp, Hp'.
  replace (p <=? p + List.length (t_value t)) with true
    by (symmetry; apply Nat.leb_le; lia).
  reflexivity.
Qed.

Lemma spans_single p q l :
  p <= q -> q <= List.length s ->
  spans s p [{| t_pos := p; t_type := l; t_value := slice s p q |}] q.
Proof.
  intros Hpq Hq. cbn [spans t_pos t_value]. rewrite slice_length by exact Hq.
  replace (p + (q - p)) with q by lia. auto.
Qed.

Lemma consume_sound p p' l stack stack' :
  well_nested stack' = true -> p < p' -> p' <= List.length s ->
  sound_step U s {| pos := p; statestack := stack |}
    [{| t_pos := p; t_type := l; t_value := slice s p p' |}]
    {| pos := p'; statestack := stack' |}.
Proof.
  intros Hwn Hlt Hle. unfold sound_step. cbn [pos statestack].
  split; [exact Hwn|]. split; [exact Hle|]. split; [|now apply measure_consume].
  apply spans_single; lia.
Qed.

Lemma code_stack_nested stack : code_stack stack = true -> well_nested stack = true.
Proof. destruct stack as [|[] ?]; cbn; auto; discriminate. Qed.

Lemma code_stack_top stack :
  code_stack stack = true ->
  exists st rest, stack = st :: rest /\ code_state st = true.
Proof.
  destruct stack as [|[] rest]; try discriminate; intros _; eexists _, _; split; reflexivity.
Qed.

(** A plain rule that matched makes a sound step, whenever each of its
    allowed moves keeps the stack well nested. *)
Lemma plain_sound allowed e m p stack es :
  plain allowed e ->
  first_match U s es p = Some (e, m) ->
  p < List.length s ->
  (forall new, In new allowed -> well_nested (transition new stack) = true) ->
  exists out c',
    fire s {| pos := p; statestack := stack |} e m = Next out c' /\
    sound_step U s {| pos := p; statestack := stack |} out c'.
Proof.
  intros (rex & l & new & -> & Hlen & Hnew) F Hp Hall.
  apply first_match_some in F. destruct F as (rex' & act' & new' & Heq & _ & Hm).
  injection Heq as <- <- <-.
  apply rexmatch_bounds in Hm; [|lia]. destruct Hm as [Hlo Hhi].
  eexists _, _. split; [reflexivity|]. cbn [pos statestack yield].
  apply consume_sound; auto. lia.
Qed.

Lemma error_sound p stack :
  well_nested stack = true -> p < List.length s ->
  sound_step U s {| pos := p; statestack := stack |}
    [{| t_pos := p; t_type := Error; t_value := slice s p (S p) |}]
    {| pos := S p; statestack := stack |}.
Proof. intros. apply consume_sound; auto. Qed.

(** The steps taken with the rules of [root], on any code stack. *)
Lemma code_sound p stack :
  code_stack stack = true ->
  p < List.length s ->
  exists out c',
    match first_match U s (tokendefs root) p with
    | Some (e, m) => fire s {| pos := p; statestack := stack |} e m
    | None => no_match s {| pos := p; statestack := stack |} (tokendefs root)
    end = Next out c' /\
    sound_step U s {| pos := p; statestack := stack |} out c'.
Proof.
  intros Hcs Hp.
  destruct (@code_stack_top _ Hcs) as (st & rest & -> & Hst).
  destruct (first_match U s (tokendefs root) p) as [[e m]|] eqn:F.
  - pose proof (@root_never_super _ _ _ F) as Hsuper.
    destruct (@first_match_some _ _ _ _ F) as (rex & act & new & Heq & Hin & Hm).
    destruct (@root_entries _ Hin) as [Hplain|[He|He]]; [| |contradiction].
    + apply (@plain_sound _ _ _ _ _ (tokendefs root) Hplain F Hp).
      intros new' [<-|[<-|[<-|[]]]]; cbn [transition fold_left apply_move];
        [now apply code_stack_nested | exact Hcs | exact Hcs].
    + subst e. injection He as -> -> ->.
      apply line_start_inv in Hm. destruct Hm as [Hend Hopen].
      eexists _, _. split; [reflexivity|].
      unfold sound_step. cbn [pos statestack yield transition fold_left apply_move].
      rewrite Hend. split; [exact Hcs|]. split; [lia|]. split.
      * apply spans_single; lia.
      * unfold measure. cbn [pos statestack].
        destruct st; try discriminate Hst; cbn [code_state andb]; rewrite Hopen; lia.
  - eexists _, _. split; [reflexivity|]. cbn [pos statestack].
    apply error_sound; auto using code_stack_nested.
Qed.

(** Every step taken inside the text from a well-nested stack is sound. *)
Lemma step_sound c :
  well_nested (statestack c) = true ->
  pos c < List.length s ->
  exists out c', step U s c = Next out c' /\ sound_step U s c out c'.
Proof.
  destruct c as [p stack]. cbn [pos statestack]. intros Hwn Hp.
  unfold step. cbn [pos statestack].
  replace (List.length s <=? p) with false by (symmetry; apply Nat.leb_gt; lia).
  destruct stack as [|st rest]; [discriminate|].
  destruct st.
  - discriminate.
  - (* slashstartsregex *)
    cbn [well_nested] in Hwn.
    destruct (@code_stack_top _ Hwn) as (st & rest' & -> & Hst).
    destruct (first_match U s (tokendefs slashstartsregex) p) as [[e m]|] eqn:F.
    + destruct (@first_match_some _ _ _ _ F) as (rex & act & new & Heq & Hin & Hm).
      destruct (@slashstartsregex_entries _ Hin) as [Hplain|[He|He]].
      * apply (@plain_sound _ _ _ _ _ _ Hplain F Hp).
        intros new' [<-|[<-|[]]]; cbn [transition fold_left apply_move];
          [exact Hwn | now apply code_stack_nested].
      * subst e. injection He as -> -> ->.
        apply slash_ahead_inv in Hm. destruct Hm as [_ ->].
        eexists _, _. split; [reflexivity|].
        unfold sound_step. cbn [pos statestack yield transition fold_left apply_move m_end].
        split; [exact Hwn|]. split; [lia|]. split.
        -- apply spans_single; lia.
        -- unfold measure. cbn. lia.
      * subst e. discriminate He.
    + unfold no_match. change (fallback (tokendefs slashstartsregex)) with (Some [pop]).
      cbn [transition fold_left apply_move pos statestack].
      eexists _, _. split; [reflexivity|].
      unfold sound_step. cbn [pos statestack].
      split; [now apply code_stack_nested|]. split; [lia|]. split.
      * reflexivity.
      * destruct (opens_slash U s p) eqn:O;
          [exfalso; apply (@slashstartsregex_opens _ O F)|].
        unfold measure. cbn [pos statestack].
        destruct st; try discriminate Hst; cbn [code_state andb]; rewrite O; lia.
  - (* badregex *)
    cbn [well_nested] in Hwn.
    destruct (@code_stack_top _ Hwn) as (st & rest' & -> & Hst).
    destruct (first_match U s (tokendefs badregex) p) as [[e m]|] eqn:F.
    + destruct (@first_match_some _ _ _ _ F) as (rex & act & new & Heq & Hin & Hm).
      apply (@plain_sound _ _ _ _ _ _ (@badregex_entries _ Hin) F Hp).
      intros new' [<-|[]]; cbn [transition fold_left apply_move].
      now apply code_stack_nested.
    + eexists _, _. split; [reflexivity|]. cbn [pos statestack].
      apply error_sound; auto.
  - (* root *)
    apply code_sound; auto.
  - (* interp *)
    cbn [well_nested] in Hwn.
    destruct (@code_stack_top _ Hwn) as (st & rest' & -> & Hst).
    destruct (first_match U s (tokendefs interp) p) as [[e m]|] eqn:F.
    + destruct (@first_match_some _ _ _ _ F) as (rex & act & new & Heq & Hin & Hm).
      apply (@plain_sound _ _ _ _ _ _ (@interp_entries _ Hin) F Hp).
      intros new' [<-|[<-|[<-|[]]]]; cbn [transition fold_left apply_move];
        [exact Hwn | now apply code_stack_nested | exact Hwn].
    + eexists _, _. split; [reflexivity|]. cbn [pos statestack].
      apply error_sound; auto.
  - (* interp_inside *)
    assert (Hcs : code_stack (interp_inside :: rest) = true) by exact Hwn.
    destruct (first_match U s (tokendefs interp_inside) p) as [[e m]|] eqn:F.
    + rewrite interp_inside_entries in F. cbn [first_match] in F.
      destruct (rexmatch U s (chr "}") p) as [m0|] eqn:E.
      * injection F as <- <-.
        assert (F : first_match U s [rule (chr "}") (emit String_Interpol) [pop]] p
                    = Some (rule (chr "}") (emit String_Interpol) [pop], m0))
          by (cbn [first_match]; now rewrite E).
        apply (@plain_sound [[pop]] _ _ _ _ _) with (2 := F); auto.
        -- eexists _, _, _. split; [reflexivity|]. split; [cbn; lia|cbn; auto].
        -- intros new' [<-|[]]. cbn [transition fold_left apply_move].
           destruct rest as [|[] rest']; try discriminate Hcs. exact Hcs.
      * pose proof (@code_sound _ _ Hcs Hp) as H. rewrite F in H. exact H.
    + rewrite interp_inside_entries in F. cbn [first_match] in F.
      destruct (rexmatch U s (chr "}") p) as [m0|] eqn:E; [discriminate|].
      pose proof (@code_sound _ _ Hcs Hp) as H. rewrite F in H. exact H.
Qed.

(** With fuel above the bound, a scan from a well-nested configuration ends,
    and its tokens cover the rest of the text. *)
Lemma scan_sound fuel : forall c,
  well_nested (statestack c) = true ->
  pos c <= List.length s ->
  measure U s c < fuel ->
  exists ts, scan U s fuel c = Some ts /\ spans s (pos c) ts (List.length s).
Proof.
  induction fuel as [|fuel IH]; intros c Hwn Hpos Hm; [lia|].
  cbn [scan].
  destruct (Nat.eq_dec (pos c) (List.length s)) as [Hend|Hne].
  - unfold step. replace (List.length s <=? pos c) with true
      by (symmetry; apply Nat.leb_le; lia).
    exists []. split; [reflexivity|]. exact Hend.
  - destruct (@step_sound c Hwn) as (out & c' & Hstep & Hwn' & Hpos' & Hspans & Hdec); [lia|].
    rewrite Hstep. destruct (IH c' Hwn' Hpos') as (ts & Hscan & Hts); [lia|].
    rewrite Hscan. exists (out ++ ts). split; [reflexivity|].
    now apply spans_app with (q := pos c').
Qed.

Lemma step_inside c out c' : step U s c = Next out c' -> pos c < List.length s.
Proof.
  unfold step. destruct (Nat.leb_spec (List.length s) (pos c)); [discriminate|auto].
Qed.

(** The configurations of a scan are well nested and inside the text. *)
Lemma reachable_nested c :
  reachable U s c -> well_nested (statestack c) = true /\ pos c <= List.length s.
Proof.
  induction 1 as [|c out c' _ [Hwn Hpos] Hstep].
  - split; [reflexivity|cbn; lia].
  - pose proof (step_inside _ Hstep) as Hin.
    destruct (@step_sound c Hwn Hin) as (out' & c'' & Hstep' & Hwn' & Hpos' & _).
    rewrite Hstep in Hstep'. injection Hstep' as _ <-. auto.
Qed.

Lemma transition_nonempty new : forall stack, stack <> [] -> transition new stack <> [].
Proof.
  unfold transition. induction new as [|mv new IH]; intros stack H; [exact H|].
  cbn [fold_left]. apply IH. destruct mv as [|st]; cbn [apply_move]; [|discriminate].
  destruct stack as [|x [|y rest]]; [contradiction|discriminate|discriminate].
Qed.

End ScanFacts.

(** ** Facts about single steps *)

Section StepFacts.

Variable U : unicode.
Variable s : text.

Lemma slice_one p c : nth_error s p = Some c -> slice s p (S p) = [c].
Proof.
  unfold slice. replace (S p - p) with 1 by lia. revert p.
  induction s as [|x l IH]; intros [|p] H; try discriminate.
  - cbn in *. congruence.
  - cbn [skipn]. apply IH. exact H.
Qed.

Lemma step_at p stack st :
  p < List.length s ->
  step U s {| pos := p; statestack := st :: stack |} =
  match first_match U s (tokendefs st) p with
  | Some (e, m) => fire s {| pos := p; statestack := st :: stack |} e m
  | None => no_match s {| pos := p; statestack := st :: stack |} (tokendefs st)
  end.
Proof.
  intros Hp. unfold step. cbn [pos statestack].
  now replace (List.length s <=? p) with false by (symmetry; apply Nat.leb_gt; lia).
Qed.

Lemma rexmatch_chr a p :
  rexmatch U s (chr a) p =
  match nth_error s p with
  | Some c => if (c =? ch a)%N then Some {| m_end := S p; m_groups := [] |} else None
  | None => None
  end.
Proof. unfold rexmatch. now rewrite run_chr. Qed.

(** In [badregex], the characters before the next newline become [Error]
    tokens, one by one, and the state stays. *)
Lemma badregex_skips stack n : forall p,
  (forall i, p <= i < p + n -> exists c, nth_error s i = Some c /\ c <> newline) ->
  steps U s n {| pos := p; statestack := badregex :: stack |}
  = (errors s p (p + n), {| pos := p + n; statestack := badregex :: stack |}).
Proof.
  induction n as [|n IH]; intros p H.
  - unfold errors. rewrite Nat.add_0_r, Nat.sub_diag. reflexivity.
  - destruct (H p) as (c & Hc & Hnl); [lia|].
    cbn [steps]. rewrite step_at by (apply nth_error_lt in Hc; exact Hc).
    change (tokendefs badregex) with [rule (Chr newline) (emit Whitespace) [pop]].
    cbn [first_match]. unfold rexmatch. cbn [run]. unfold one_char. rewrite Hc.
    destruct (N.eqb_spec newline c) as [E|_]; [congruence|].
    unfold no_match. cbn [fallback pos statestack].
    rewrite IH by (intros i Hi; apply H; lia).
    unfold errors. replace (p + S n - p) with (S n) by lia.
    replace (S p + n - S p) with n by lia. cbn [seq map app].
    now replace (S p + n) with (p + S n) by lia.
Qed.

End StepFacts.

Lemma slashstartsregex_rules :
  tokendefs slashstartsregex
  = tokendefs commentsandwhitespace
    ++ [ rule regex_literal (emit String_Regex) [pop];
         rule slash_ahead (emit Text) [pop; push badregex];
         default [pop] ].
Proof. reflexivity. Qed.

Lemma interp_rules :
  tokendefs interp
  = [ rule (chr "`") (emit String_Backtick) [pop];
      rule (Cat (chr "\") Any) (emit String_Backtick) [];
      rule (lit "${") (emit String_Interpol) [push interp_inside];
      rule (chr "$") (emit String_Backtick) [];
      rule (plus (NotIn [c1 "`"; c1 "\"; c1 "$"])) (emit String_Backtick) [] ].
Proof. reflexivity. Qed.

Lemma start_measure U s : measure U s start < 3 * List.length s + 3.
Proof.
  unfold measure, start. cbn [pos statestack code_state andb].
  destruct (opens_slash U s 0); lia.
Qed.

Lemma scan_start U s :
  exists ts, get_tokens_unprocessed U s = Some ts /\ spans s 0 ts (List.length s).
Proof.
  apply (@scan_sound U s (3 * List.length s + 3) start);
    [reflexivity | cbn; lia | apply start_measure].
Qed.

Lemma scan_scans U s fuel : forall c ts, scan U s fuel c = Some ts -> scans U s c ts.
Proof.
  induction fuel as [|fuel IH]; intros c ts H; [discriminate|]. cbn [scan] in H.
  destruct (step U s c) as [| |out c'] eqn:E; [|discriminate|].
  - injection H as <-. now apply scans_halt.
  - destruct (scan U s fuel c') as [rest|] eqn:R; [|discriminate].
    injection H as <-. apply scans_next with (c' := c'); auto.
Qed.

(** No entry of the table pushes [root]. *)
Lemma root_never_pushed st e : In e (tokendefs st) -> ~ In (push root) (moves e).
Proof.
  intros H. destruct st; cbv [tokendefs process_state tokens flat_map app] in H;
    repeat (destruct H as [<-|H]; [cbn; intuition discriminate|]); destruct H.
Qed.

Lemma root_has_no_pop e : In e (tokendefs root) -> ~ In pop (moves e).
Proof.
  intros Hin Hpop. destruct (@root_entries e Hin) as [(rex & l & new & -> & _ & Hnew)|[->| ->]].
  - cbn [moves] in Hpop.
    destruct Hnew as [<-|[<-|[<-|[]]]]; cbn in Hpop; intuition discriminate.
  - cbn in Hpop. intuition discriminate.
  - cbn in Hpop. intuition discriminate.
Qed.

(** Settles one word of [listed_words]: runs the scan and reads the type of
    the single token off the result. *)
Ltac settle_word :=
  match goal with
  | |- exists l', ?scan = _ /\ _ =>
      let r := eval vm_compute in scan in
      match r with
      | Some [Build_token _ ?l _] =>
          exists l; split; [vm_compute; reflexivity|]; split; [discriminate|]; split;
          [ intros H; first [reflexivity | exfalso; apply H; reflexivity]
          | intros H; first [reflexivity | vm_compute in H; discriminate H] ]
      end
  end.

Lemma scans_split U s c ts out c' :
  scans U s c ts -> step U s c = Next out c' ->
  exists rest, ts = out ++ rest /\ scans U s c' rest.
Proof.
  intros Hscan Hstep. destruct Hscan as [c Hhalt|c out0 c0 ts Hstep0 Hrest]; [congruence|].
  rewrite Hstep in Hstep0. injection Hstep0 as <- <-. eauto.
Qed.

(** ** A regular expression literal at the start of the input *)

Section RegexAtStart.

Variable U : unicode.
Variables ws tail : text.
Hypothesis ws_spaces : forall c, In c ws -> is_space U c = true.
Hypothesis tail_start : match tail with [] => True | c :: _ => is_word U c = false end.

Let lit6 := codes "/abc/g".
Let s := ws ++ lit6 ++ tail.
Let n := List.length ws.

Lemma lead_length : List.length s = 6 + n + List.length tail.
Proof. unfold s, n. rewrite !length_app. cbn. lia. Qed.

Lemma lead_space j :
  j < n -> exists c, nth_error s j = Some c /\ is_space U c = true.
Proof.
  intros Hj. unfold s. rewrite nth_error_app1 by exact Hj.
  destruct (nth_error ws j) as [c|] eqn:E.
  - exists c. split; [reflexivity|]. apply ws_spaces. eapply nth_error_In. exact E.
  - apply nth_error_None in E. unfold n in Hj. lia.
Qed.

Lemma lead_literal k : k < 6 -> nth_error s (k + n) = nth_error lit6 k.
Proof.
  intros Hk. unfold s, n. rewrite nth_error_shift. now apply nth_error_app1.
Qed.

Lemma lead_tail : nth_error s (6 + n) = nth_error tail 0.
Proof.
  unfold s, n. rewrite nth_error_shift. now rewrite nth_error_app2.
Qed.

Lemma lead_first :
  exists c, nth_error s 0 = Some c /\ (is_space U c = true \/ c = ch "/").
Proof.
  destruct (Nat.eq_dec n 0) as [E|E].
  - exists (ch "/"). split; [|now right].
    replace 0 with (0 + n) at 1 by lia. now rewrite lead_literal by lia.
  - destruct (@lead_space 0) as (c & Hc & Hsp); [lia|]. exists c. auto.
Qed.

Lemma regex_part_char i c g (k : cont) :
  nth_error s i = Some c ->
  c = ch "a" \/ c = ch "b" \/ c = ch "c" ->
  run U s (Group 1 regex_part) i g k = k (S i) ((1, (i, S i)) :: g).
Proof.
  intros Hc Habc.
  assert (Hplain : in_set U [c1 "["; c1 "/"; c1 "\"; one newline] c = false
                   /\ (c =? ch "\")%N = false /\ (c =? ch "[")%N = false)
    by (destruct Habc as [->|[->| ->]]; repeat split; reflexivity).
  destruct Hplain as (Hset & Hesc & Hbr).
  unfold regex_part. cbn [alt]. cbn [run]. rewrite run_chr, Hc, Hesc.
  unfold one_char. rewrite Hc, Hset. cbn [negb].
  destruct (k (S i) ((1, (i, S i)) :: g)); [reflexivity|].
  now rewrite run_cats, run_chr, Hc, Hbr.
Qed.

Lemma regex_part_slash i g (k : cont) :
  nth_error s i = Some (ch "/") -> run U s (Group 1 regex_part) i g k = None.
Proof.
  intros Hc. unfold regex_part. cbn [alt]. cbn [run]. rewrite run_chr, Hc.
  unfold one_char. rewrite Hc. now rewrite run_cats, run_chr, Hc.
Qed.

Lemma flag_is_word c :
  in_set U [c1 "g"; c1 "i"; c1 "m"; c1 "u"; c1 "y"; c1 "s"; c1 "d"] c = true ->
  is_word U c = true.
Proof.
  unfold in_set. cbn [existsb member c1]. unfold is_word, ascii_letter, ascii_digit, between.
  eval_ch. intros H.
  repeat (apply orb_prop in H; destruct H as [H|H]); try discriminate H;
    apply N.eqb_eq in H; subst c; reflexivity.
Qed.

(** The literal is matched where the white space ends, up to its flag. *)
Lemma lead_regex :
  exists g, rexmatch U s regex_literal n = Some {| m_end := 6 + n; m_groups := g |}.
Proof.
  assert (Hg : nth_error s (5 + n) = Some (ch "g")) by (now rewrite lead_literal by lia).
  assert (Hw5 : word_at U s (5 + n) = true) by (unfold word_at; now rewrite Hg).
  assert (Hw6 : word_at U s (6 + n) = false).
  { unfold word_at. rewrite lead_tail. destruct tail as [|c tl]; [reflexivity|exact tail_start]. }
  unfold rexmatch, regex_literal. rewrite run_cats, run_chr.
  replace (nth_error s n) with (Some (ch "/")) by (symmetry; apply (@lead_literal 0); lia).
  rewrite N.eqb_refl. rewrite run_cats. unfold plus at 1. cbn [run].
  eexists. apply greedy_run with (m := 3) (upd := fun j g => (1, (j, S j)) :: g).
  - intros j g' k' Hj. apply regex_part_char with (c := match j - n with
                                                          | 1 => ch "a" | 2 => ch "b" | _ => ch "c"
                                                          end).
    + assert (Hcases : j = 1 + n \/ j = 2 + n \/ j = 3 + n) by lia.
      destruct Hcases as [->|[->| ->]]; rewrite lead_literal by lia;
        [replace (1 + n - n) with 1 by lia | replace (2 + n - n) with 2 by lia
        | replace (3 + n - n) with 3 by lia]; reflexivity.
    + destruct (j - n) as [|[|[|?]]]; auto.
  - intros g' k'. apply regex_part_slash.
    change (S n + 3) with (S (n + 3)). replace (S (n + 3)) with (4 + n) by lia.
    now rewrite lead_literal by lia.
  - rewrite lead_length. lia.
  - lia.
  - reflexivity.
  - change (S n + 3) with (S (n + 3)). replace (S (n + 3)) with (4 + n) by lia.
    rewrite run_cats, run_chr.
    replace (nth_error s (4 + n)) with (Some (ch "/"))
      by (symmetry; apply (@lead_literal 4); lia).
    rewrite N.eqb_refl. cbn [cats run]. unfold regex_flags, plus. cbn [run].
    erewrite greedy_run with (m := 1) (upd := fun _ g => g); [reflexivity| | | | | |].
    + intros j g' k' Hj. replace j with (5 + n) by lia.
      unfold one_char. now rewrite Hg.
    + intros g' k'. unfold one_char.
      replace (S (4 + n) + 1) with (6 + n) by lia. rewrite lead_tail.
      destruct tail as [|c tl]; [reflexivity|]. cbn [nth_error].
      destruct (in_set U _ c) eqn:E; [|reflexivity].
      apply flag_is_word in E. cbn in tail_start. congruence.
    + rewrite lead_length. lia.
    + lia.
    + reflexivity.
    + replace (S (4 + n) + 1) with (S (5 + n)) by lia.
      unfold boundary. rewrite Hw5. change (S (5 + n)) with (6 + n). rewrite Hw6.
      cbn [xorb fold_left seq]. unfold accept. reflexivity.
Qed.

Lemma lead_step1 :
  step U s (start)
  = Next [{| t_pos := 0; t_type := Text; t_value := [] |}]
         {| pos := 0; statestack := [slashstartsregex; root] |}.
Proof.
  destruct lead_first as (c0 & Hc0 & Hfirst).
  unfold start. rewrite step_at by (rewrite lead_length; lia).
  change (tokendefs root)
    with (rule (cats [Bos; lit "#!"; opt (chr " "); chr "/"; lazy_star Any; Eol])
               (emit Comment_Hashbang) []
          :: rule line_start (emit Text) [push slashstartsregex]
          :: skipn 2 (tokendefs root)).
  cbn [first_match].
  replace (rexmatch U s (cats [Bos; lit "#!"; opt (chr " "); chr "/"; lazy_star Any; Eol]) 0)
    with (@None match_).
  2:{ unfold rexmatch. rewrite run_cats. cbn [run]. rewrite run_cats, run_lit.
      change (codes "#!") with [ch "#"; ch "!"]. cbn [prefix_at]. rewrite Hc0.
      destruct (N.eqb_spec (ch "#") c0) as [<-|_]; [|reflexivity].
      destruct Hfirst as [Hsp|Hsl]; discriminate. }
  replace (rexmatch U s line_start 0) with (Some {| m_end := 0; m_groups := [] |}).
  2:{ unfold rexmatch, line_start. cbn [run alt at_bol]. rewrite run_chr. unfold one_char at 1.
      rewrite Hc0. unfold in_set. cbn [existsb member].
      destruct Hfirst as [Hsp| ->]; [now rewrite Hsp|].
      destruct (is_space U (ch "/") || false); reflexivity. }
  unfold fire. cbn [yield pos statestack m_end transition fold_left apply_move].
  now rewrite slice_empty.
Qed.

Lemma lead_step2 :
  ws <> [] ->
  step U s {| pos := 0; statestack := [slashstartsregex; root] |}
  = Next [{| t_pos := 0; t_type := Whitespace; t_value := ws |}]
         {| pos := n; statestack := [slashstartsregex; root] |}.
Proof.
  intros Hne.
  assert (Hn : 0 < n) by (unfold n; destruct ws; [contradiction|cbn; lia]).
  rewrite step_at by (rewrite lead_length; lia).
  change (tokendefs slashstartsregex)
    with (rule (plus (In_ [esc_s])) (emit Whitespace) [] :: skipn 1 (tokendefs slashstartsregex)).
  cbn [first_match].
  replace (rexmatch U s (plus (In_ [esc_s])) 0)
    with (Some {| m_end := n; m_groups := [] |}).
  2:{ unfold rexmatch, plus. cbn [run]. symmetry.
      apply greedy_run with (m := n) (upd := fun _ g => g).
      - intros j g' k' Hj. destruct (@lead_space j) as (c & Hc & Hsp); [lia|].
        unfold one_char. rewrite Hc. unfold in_set. cbn [existsb member]. now rewrite Hsp.
      - intros g' k'. unfold one_char. rewrite (@lead_literal 0) by lia. reflexivity.
      - rewrite lead_length. lia.
      - lia.
      - reflexivity.
      - assert (Hkeep : forall (l : list nat) (g : groups),
                  fold_left (fun g' _ => g') l g = g)
          by (induction l as [|x l IH]; intros g; [reflexivity|apply IH]).
        now rewrite Hkeep. }
  unfold fire. cbn [yield pos statestack m_end transition fold_left].
  do 3 f_equal. unfold slice, s, n. rewrite Nat.sub_0_r. cbn [skipn].
  rewrite firstn_app, Nat.sub_diag, firstn_all. cbn. apply app_nil_r.
Qed.

Lemma lead_step3 :
  step U s {| pos := n; statestack := [slashstartsregex; root] |}
  = Next [{| t_pos := n; t_type := String_Regex; t_value := lit6 |}]
         {| pos := 6 + n; statestack := [root] |}.
Proof.
  assert (H0 : nth_error s n = Some (ch "/")) by (apply (@lead_literal 0); lia).
  assert (H1 : nth_error s (S n) = Some (ch "a")) by (apply (@lead_literal 1); lia).
  rewrite step_at by (rewrite lead_length; lia).
  rewrite slashstartsregex_rules, first_match_app.
  replace (first_match U s (tokendefs commentsandwhitespace) n) with (@None (entry * match_)).
  2:{ symmetry. apply first_match_all_fail. intros rex act new Hin.
      cbv [tokendefs process_state tokens flat_map app] in Hin.
      destruct Hin as [E|[E|[E|[E|[]]]]]; injection E as <- _ _; unfold rexmatch.
      - unfold plus. cbn [run rounds below]. unfold one_char at 1. now rewrite H0.
      - rewrite run_lit. change (codes "<!--") with (ch "<" :: codes "!--").
        cbn [prefix_at]. now rewrite H0.
      - cbn [run]. rewrite run_lit. change (codes "//") with [ch "/"; ch "/"].
        cbn [prefix_at]. now rewrite H0, H1.
      - cbn [run]. rewrite run_lit. change (codes "/*") with [ch "/"; ch "*"].
        cbn [prefix_at]. now rewrite H0, H1. }
  cbn [first_match]. destruct lead_regex as (g & ->).
  unfold fire. cbn [yield pos statestack m_end transition fold_left apply_move].
  do 3 f_equal. unfold slice, s, n. replace (6 + List.length ws - List.length ws) with 6 by lia.
  rewrite skipn_app, skipn_all, Nat.sub_diag. reflexivity.
Qed.

(** A scan of the text starts with an empty [Text] token, the white space if
    there is any, and the literal as one token. *)
Lemma lead_scan :
  exists rest,
    get_tokens_unprocessed U s
    = Some ({| t_pos := 0; t_type := Text; t_value := [] |}
            :: match ws with
               | [] => []
               | _ => [{| t_pos := 0; t_type := Whitespace; t_value := ws |}]
               end
            ++ {| t_pos := n; t_type := String_Regex; t_value := lit6 |} :: rest).
Proof.
  destruct (scan_start U s) as (ts & Hscan & _). rewrite Hscan.
  apply scan_scans in Hscan.
  destruct (scans_split Hscan lead_step1) as (r1 & -> & H1).
  assert (Hcase :
    (n = 0 /\
     match ws with
     | [] => []
     | _ => [{| t_pos := 0; t_type := Whitespace; t_value := ws |}]
     end = []) \/
    (ws <> [] /\
     match ws with
     | [] => []
     | _ => [{| t_pos := 0; t_type := Whitespace; t_value := ws |}]
     end = [{| t_pos := 0; t_type := Whitespace; t_value := ws |}]))
    by (unfold n; clear; destruct ws; [left|right]; split; auto; discriminate).
  destruct Hcase as [[Hn ->]|[Hne ->]].
  - pose proof lead_step3 as H3. rewrite Hn in H3 at 1.
    destruct (scans_split H1 H3) as (r2 & -> & _). rewrite Hn. now exists r2.
  - destruct (scans_split H1 (lead_step2 Hne)) as (r2 & -> & H2).
    destruct (scans_split H2 lead_step3) as (r3 & -> & _). now exists r3.
Qed.

End RegexAtStart.

(** ** The properties of the lexer *)

(** C1, as amended. Every scan ends and yields tokens whose texts, joined in
    the order they are yielded, are the input text: each token starts where
    the one before it ended and carries the text it spans, the last one ends
    at the end of the input, so every character lies in exactly one token
    span, with no gap and no overlap. The offsets never go down; they do not
    always go up, since a token may be empty. *)
Theorem tokens_cover_input U s :
  exists ts,
    get_tokens_unprocessed U s = Some ts /\
    joined ts = s /\
    spans s 0 ts (List.length s) /\
    ascending (map t_pos ts) = true.
Proof.
  destruct (scan_start U s) as (ts & Hscan & Hspans).
  exists ts. split; [exact Hscan|]. split; [|split; [exact Hspans|]].
  - rewrite (@spans_joined s ts 0 (List.length s) Hspans).
    unfold slice. rewrite Nat.sub_0_r. apply firstn_all.
  - apply (@spans_ascending s ts 0 (List.length s) Hspans).
Qed.

(** C1, as stated, fails on a text made of one space: the rule for the start
    of a line yields an empty [Text] token at offset 0 and the white space
    token that follows starts at offset 0 too, so the offsets are not
    strictly increasing. *)
Lemma offsets_not_strictly_increasing :
  exists ts,
    (forall U, get_tokens_unprocessed U (codes " ") = Some ts) /\
    map t_pos ts = [0; 0] /\
    strictly_ascending (map t_pos ts) = false.
Proof.
  exists [ {| t_pos := 0; t_type := Text; t_value := [] |};
           {| t_pos := 0; t_type := Whitespace; t_value := codes " " |} ].
  split; [intros U; vm_compute; reflexivity|]. split; reflexivity.
Qed.

(** C2. In [root], a text that begins with [/abc/g], after any white space
    or none, and that goes on, if at all, with a character that is not a
    word character, is scanned as follows: the rule for the start of a line
    pushes [slashstartsregex], yielding an empty [Text] token; the white
    space, if any, is one token; then [/abc/g] is one [String.Regex] token,
    flag included. So it is for [/abc/g] alone and after two spaces. In
    [a/b/g] each slash is an [Operator] token and [a], [b] and [g] are
    [Name.Other] tokens, and no [String.Regex] token is yielded. *)
Theorem regex_or_division U :
  (forall ws tail,
     (forall c, In c ws -> is_space U c = true) ->
     match tail with [] => True | c :: _ => is_word U c = false end ->
     exists rest,
       get_tokens_unprocessed U (ws ++ codes "/abc/g" ++ tail)
       = Some ({| t_pos := 0; t_type := Text; t_value := [] |}
               :: match ws with
                  | [] => []
                  | _ => [{| t_pos := 0; t_type := Whitespace; t_value := ws |}]
                  end
               ++ {| t_pos := List.length ws; t_type := String_Regex;
                     t_value := codes "/abc/g" |} :: rest)) /\
  get_tokens_unprocessed U (codes "/abc/g")
  = Some [tok 0 Text ""; tok 0 String_Regex "/abc/g"] /\
  get_tokens_unprocessed U (codes "  /abc/g")
  = Some [tok 0 Text ""; tok 0 Whitespace "  "; tok 2 String_Regex "/abc/g"] /\
  get_tokens_unprocessed U (codes "a/b/g")
  = Some [tok 0 Name_Other "a"; tok 1 Operator "/"; tok 2 Name_Other "b";
          tok 3 Operator "/"; tok 4 Name_Other "g"].
Proof.
  split; [|repeat split; vm_compute; reflexivity].
  intros ws tail Hws Htail. now apply lead_scan.
Qed.

(** C3. The template with one interpolation yields the opening backtick,
    the text [a], the opening of the interpolation, the name [b], its
    closing, the text [c] and the closing backtick. In the template nested
    twice the stack grows by [interp] at each backtick that opens and by
    [interp_inside] at each opening of an interpolation, and shrinks in the
    reverse order: the inner template is closed before the outer
    interpolation, and the scan ends on [[root]]. *)
Theorem template_nesting U :
  get_tokens_unprocessed U (codes "`a${b}c`")
  = Some [tok 0 String_Backtick "`"; tok 1 String_Backtick "a"; tok 2 String_Interpol "${";
          tok 4 Name_Other "b"; tok 5 String_Interpol "}"; tok 6 String_Backtick "c";
          tok 7 String_Backtick "`"] /\
  trace U (codes "`x${`y${1}z`}w`") 48 start
  = [ ([tok 0 String_Backtick "`"], [interp; root]);
      ([tok 1 String_Backtick "x"], [interp; root]);
      ([tok 2 String_Interpol "${"], [interp_inside; interp; root]);
      ([tok 4 String_Backtick "`"], [interp; interp_inside; interp; root]);
      ([tok 5 String_Backtick "y"], [interp; interp_inside; interp; root]);
      ([tok 6 String_Interpol "${"], [interp_inside; interp; interp_inside; interp; root]);
      ([tok 8 Number_Float "1"], [interp_inside; interp; interp_inside; interp; root]);
      ([tok 9 String_Interpol "}"], [interp; interp_inside; interp; root]);
      ([tok 10 String_Backtick "z"], [interp; interp_inside; interp; root]);
      ([tok 11 String_Backtick "`"], [interp_inside; interp; root]);
      ([tok 12 String_Interpol "}"], [interp; root]);
      ([tok 13 String_Backtick "w"], [interp; root]);
      ([tok 14 String_Backtick "`"], [root]) ] /\
  get_tokens_unprocessed U (codes "`x${`y${1}z`}w`")
  = Some (flat_map fst (trace U (codes "`x${`y${1}z`}w`") 48 start)).
Proof. repeat split; vm_compute; reflexivity. Qed.

(** C4. In [root] the binary, octal, hexadecimal and [BigInt] rules stand,
    in this order, right before the rule for every other number, which
    appears nowhere earlier. So [0x1F] is one [Number.Hex] token, although
    the general rule matches [0] at offset 0 and the identifier rule matches
    [x1F] at offset 1. *)
Theorem numeric_precedence U :
  (exists before after,
     rule_types root
     = before ++ [Number_Bin; Number_Oct; Number_Hex; Number_Integer; Number_Float] ++ after /\
     ~ In Number_Float before) /\
  get_tokens_unprocessed U (codes "0x1F") = Some [tok 0 Number_Hex "0x1F"] /\
  option_map m_end (rexmatch U (codes "0x1F") float_literal 0) = Some 1 /\
  option_map m_end (rexmatch U (codes "0x1F") JS_IDENT 1) = Some 4.
Proof.
  split; [|repeat split; vm_compute; reflexivity].
  exists (firstn 6 (rule_types root)), (skipn 11 (rule_types root)).
  split; [reflexivity|]. cbn. intuition discriminate.
Qed.

(** C5, as amended. The keyword, reserved-word and builtin-name rules stand
    before the identifier rule: a text that is exactly one of their words
    is scanned as a single token spanning the word, never as an identifier.
    The token has the type of the rule that lists the word ([class] is a
    [Keyword.Declaration]), except for [in], which the rule for word
    operators, tried earlier, makes an [Operator.Word]. *)
Theorem keywords_before_identifiers U :
  Forall (fun lw =>
            exists l',
              get_tokens_unprocessed U (snd lw)
              = Some [{| t_pos := 0; t_type := l'; t_value := snd lw |}] /\
              l' <> Name_Other /\
              (snd lw <> codes "in" -> l' = fst lw) /\
              (snd lw = codes "in" -> l' = Operator_Word))
         listed_words /\
  In (Keyword_Declaration, codes "class") listed_words /\
  get_tokens_unprocessed U (codes "class") = Some [tok 0 Keyword_Declaration "class"].
Proof.
  split; [|split; [vm_compute; auto 50|vm_compute; reflexivity]].
  let l := eval vm_compute in listed_words in change listed_words with l.
  repeat (apply Forall_cons; [cbn [fst snd]; settle_word|]).
  apply Forall_nil.
Qed.

(** C5, as stated, fails on [in]: it is a word of the keyword rule, and the
    scan yields one token of type [Operator.Word], which is not a keyword
    type. *)
Lemma in_is_a_word_operator :
  In (Keyword, codes "in") listed_words /\
  keyword_type Operator_Word = false /\
  exists ts,
    (forall U, get_tokens_unprocessed U (codes "in") = Some ts) /\
    ts = [tok 0 Operator_Word "in"].
Proof.
  split; [vm_compute; auto 50|]. split; [reflexivity|].
  eexists. split; [intros U; vm_compute; reflexivity|reflexivity].
Qed.

(** C6, as amended. When a slash reached in [slashstartsregex] starts
    neither a comment nor a well-formed regular expression literal, the
    scanner enters [badregex] without consuming anything. There no rule
    classifies the rest of the line: each character up to the next newline
    is consumed as an [Error] token of its own. The newline is matched as
    white space and pops [badregex], so that the scan goes on at the start
    of the next line in the state below. *)
Theorem badregex_recovery U s p q st rest :
  nth_error s p = Some (ch "/") ->
  first_match U s (tokendefs commentsandwhitespace) p = None ->
  rexmatch U s regex_literal p = None ->
  p <= q ->
  (forall i, p <= i < q -> nth_error s i <> Some newline) ->
  nth_error s q = Some newline ->
  step U s {| pos := p; statestack := slashstartsregex :: st :: rest |}
  = Next [{| t_pos := p; t_type := Text; t_value := [] |}]
         {| pos := p; statestack := badregex :: st :: rest |} /\
  steps U s (q - p) {| pos := p; statestack := badregex :: st :: rest |}
  = (errors s p q, {| pos := q; statestack := badregex :: st :: rest |}) /\
  step U s {| pos := q; statestack := badregex :: st :: rest |}
  = Next [{| t_pos := q; t_type := Whitespace; t_value := [newline] |}]
         {| pos := S q; statestack := st :: rest |}.
Proof.
  intros Hslash Hcw Hre Hpq Hline Hnl.
  pose proof (nth_error_lt _ _ Hnl) as Hq.
  split; [|split].
  - rewrite step_at by lia. rewrite slashstartsregex_rules, first_match_app, Hcw.
    cbn [first_match]. rewrite Hre. rewrite (slash_ahead_match U _ _ Hslash).
    unfold fire. cbn [yield pos statestack m_end transition fold_left apply_move].
    now rewrite slice_empty.
  - replace q with (p + (q - p)) at 2 3 by lia. apply badregex_skips.
    intros i Hi. destruct (nth_error s i) as [c|] eqn:E.
    + exists c. split; [reflexivity|]. intros ->. apply (Hline i); [lia|exact E].
    + apply nth_error_None in E. lia.
  - rewrite step_at by lia.
    change (tokendefs badregex) with [rule (Chr newline) (emit Whitespace) [pop]].
    cbn [first_match]. unfold rexmatch. cbn [run]. unfold one_char. rewrite Hnl.
    rewrite N.eqb_refl. unfold accept, fire.
    cbn [yield pos statestack m_end transition fold_left apply_move].
    now rewrite (slice_one _ _ Hnl).
Qed.

(** The text [/a], a newline and [b], scanned from the slash in
    [slashstartsregex] over [root]. *)
Lemma badregex_recovery_witness :
  steps ascii_only (codes "/a" ++ [newline] ++ codes "b") 2
        {| pos := 0; statestack := [badregex; root] |}
  = ([tok 0 Error "/"; tok 1 Error "a"], {| pos := 2; statestack := [badregex; root] |}).
Proof.
  refine (proj1 (proj2 (@badregex_recovery ascii_only (codes "/a" ++ [newline] ++ codes "b")
                          0 2 root [] _ _ _ _ _ _))).
  - reflexivity.
  - reflexivity.
  - reflexivity.
  - lia.
  - intros [|[|i]] Hi; [discriminate|discriminate|lia].
  - reflexivity.
Defined.

(** C6, as stated, fails on [//x]: the slash is reached in
    [slashstartsregex], it does not start a regular expression literal, and
    the scanner does not enter [badregex]: the comment rule, tried first,
    takes the line and the state stays. *)
Lemma comment_slash_not_badregex :
  nth_error (codes "//x") 0 = Some (ch "/") /\
  forall U,
    reachable U (codes "//x") {| pos := 0; statestack := [slashstartsregex; root] |} /\
    rexmatch U (codes "//x") regex_literal 0 = None /\
    step U (codes "//x") {| pos := 0; statestack := [slashstartsregex; root] |}
    = Next [tok 0 Comment_Single "//x"]
           {| pos := 3; statestack := [slashstartsregex; root] |} /\
    get_tokens_unprocessed U (codes "//x")
    = Some [tok 0 Text ""; tok 0 Comment_Single "//x"].
Proof.
  split; [reflexivity|]. intros U. split; [|repeat split; vm_compute; reflexivity].
  apply reach_step with (c := start) (out := [tok 0 Text ""]); [apply reach_start|].
  vm_compute. reflexivity.
Qed.

(** C7. In [slashstartsregex], where none of the rules matches (the white
    space and comment rules, the rule for a regular expression literal and
    the rule that looks ahead for a slash are all the rules of the state),
    the default pops the state: the step yields no token, the position stays
    and the state below, which always exists, is the top of the stack. *)
Theorem default_pops_slashstartsregex U s c below :
  reachable U s c ->
  pos c < List.length s ->
  statestack c = slashstartsregex :: below ->
  (forall rex act new,
     In (rule rex act new) (tokendefs slashstartsregex) -> rexmatch U s rex (pos c) = None) ->
  below <> [] /\
  fallback (tokendefs slashstartsregex) = Some [pop] /\
  step U s c = Next [] {| pos := pos c; statestack := below |}.
Proof.
  intros Hreach Hpos Hstack Hnone.
  destruct (@reachable_nested U s c Hreach) as [Hwn _]. rewrite Hstack in Hwn.
  destruct (@code_stack_top below Hwn) as (st & rest & -> & _).
  split; [discriminate|]. split; [reflexivity|].
  destruct c as [p stack]. cbn [pos statestack] in *. subst stack.
  rewrite step_at by lia. now rewrite (first_match_all_fail U s _ _ Hnone).
Qed.

(** The text [a/b], scanned up to the [b]: the slash, an operator, has
    pushed [slashstartsregex]. *)
Lemma default_pops_slashstartsregex_witness :
  step ascii_only (codes "a/b") {| pos := 2; statestack := [slashstartsregex; root] |}
  = Next [] {| pos := 2; statestack := [root] |}.
Proof.
  refine (proj2 (proj2 (@default_pops_slashstartsregex ascii_only (codes "a/b")
                          {| pos := 2; statestack := [slashstartsregex; root] |} [root]
                          _ _ _ _))).
  - apply reach_step with (c := {| pos := 1; statestack := [root] |})
                          (out := [tok 1 Operator "/"]); [|reflexivity].
    apply reach_step with (c := start) (out := [tok 0 Name_Other "a"]); [|reflexivity].
    apply reach_start.
  - cbn. lia.
  - reflexivity.
  - intros rex act new Hin. cbv [tokendefs process_state tokens flat_map app] in Hin.
    repeat (destruct Hin as [Hin|Hin];
            [first [discriminate Hin | injection Hin as <- _ _; reflexivity]|]).
    destruct Hin.
Defined.

(** C9. At every step of every scan the state stack is non-empty. It starts
    as [[root]]; [root] has no rule that pops; every other state found on top
    of the stack has an entry below it; so wherever an entry that pops can be
    applied the pop removes the top and leaves a stack that is not empty, and
    no step ever finds the stack empty. No entry pushes [root]: the other
    states are entered by a push from another state. *)
Theorem stack_never_empty U s c :
  reachable U s c ->
  statestack (start) = [root] /\
  statestack c <> [] /\
  step U s c <> Crash /\
  (forall e, In e (tokendefs root) -> ~ In pop (moves e)) /\
  (forall st e, In e (tokendefs st) -> ~ In (push root) (moves e)) /\
  (forall st rest, statestack c = st :: rest -> st <> root -> rest <> []) /\
  (forall st rest e,
     statestack c = st :: rest -> In e (tokendefs st) -> In pop (moves e) ->
     rest <> [] /\ transition (moves e) (statestack c) <> []).
Proof.
  intros Hreach. destruct (reachable_nested Hreach) as [Hwn Hpos].
  assert (Hne : statestack c <> []) by (destruct (statestack c); [discriminate Hwn|discriminate]).
  assert (Hbelow : forall st rest, statestack c = st :: rest -> st <> root -> rest <> []).
  { intros st rest Hst Hroot. rewrite Hst in Hwn.
    destruct st; cbn in Hwn; try discriminate; try contradiction;
      destruct rest; discriminate. }
  split; [reflexivity|]. split; [exact Hne|].
  split; [|split; [exact root_has_no_pop|split; [exact root_never_pushed|split]]].
  - destruct (Nat.eq_dec (pos c) (List.length s)) as [Hend|Hin].
    + unfold step. replace (List.length s <=? pos c) with true
        by (symmetry; apply Nat.leb_le; lia). discriminate.
    + destruct (@step_sound U s c Hwn) as (out & c' & Hstep & _); [lia|].
      rewrite Hstep. discriminate.
  - exact Hbelow.
  - intros st rest e Hst Hin Hpop. split.
    + apply (Hbelow st rest Hst). intros ->. exact (@root_has_no_pop e Hin Hpop).
    + now apply transition_nonempty.
Qed.

(** The text made of one backtick, after the backtick. *)
Lemma stack_never_empty_witness :
  statestack {| pos := 1; statestack := [interp; root] |} <> [].
Proof.
  refine (proj1 (proj2 (@stack_never_empty ascii_only (codes "`")
                          {| pos := 1; statestack := [interp; root] |} _))).
  apply reach_step with (c := start) (out := [tok 0 String_Backtick "`"]); [|reflexivity].
  apply reach_start.
Defined.

(** C10. In [interp], at a dollar sign: if no brace follows, the step yields
    the dollar sign as a [String.Backtick] token and leaves the stack as it
    is; if a brace follows, the step yields the two characters as a
    [String.Interpol] token and pushes [interp_inside]. No rule of [interp]
    yields a [String.Interpol] token or pushes a state anywhere but at these
    two characters. So the template holding [a$b] is string content between
    its backticks, with no interpolation and no error token. *)
Theorem dollar_in_template U s p rest :
  nth_error s p = Some (ch "$") ->
  (nth_error s (S p) <> Some (ch "{") ->
   step U s {| pos := p; statestack := interp :: rest |}
   = Next [{| t_pos := p; t_type := String_Backtick; t_value := codes "$" |}]
          {| pos := S p; statestack := interp :: rest |}) /\
  (nth_error s (S p) = Some (ch "{") ->
   step U s {| pos := p; statestack := interp :: rest |}
   = Next [{| t_pos := p; t_type := String_Interpol; t_value := codes "${" |}]
          {| pos := p + 2; statestack := interp_inside :: interp :: rest |}) /\
  (forall q e m,
     first_match U s (tokendefs interp) q = Some (e, m) ->
     (exists rex new, e = rule rex (emit String_Interpol) new) \/
     (exists st, In (push st) (moves e)) ->
     prefix_at s q (codes "${") = true /\ m_end m = q + 2) /\
  get_tokens_unprocessed U (codes "`a$b`")
  = Some [tok 0 String_Backtick "`"; tok 1 String_Backtick "a"; tok 2 String_Backtick "$";
          tok 3 String_Backtick "b"; tok 4 String_Backtick "`"].
Proof.
  intros Hd. pose proof (nth_error_lt _ _ Hd) as Hp.
  assert (Hhead :
            first_match U s (tokendefs interp) p
            = match rexmatch U s (lit "${") p with
              | Some m => Some (rule (lit "${") (emit String_Interpol) [push interp_inside], m)
              | None => Some (rule (chr "$") (emit String_Backtick) [],
                              {| m_end := S p; m_groups := [] |})
              end).
  { rewrite interp_rules. cbn [first_match].
    rewrite !rexmatch_chr, Hd.
    replace (rexmatch U s (Cat (chr "\") Any) p) with (@None match_)
      by (unfold rexmatch; cbn [run]; now rewrite run_chr, Hd).
    reflexivity. }
  split; [|split; [|split]].
  - intros Hnext. rewrite step_at by exact Hp. rewrite Hhead.
    assert (Hpre : prefix_at s p (codes "${") = false).
    { change (codes "${") with [ch "$"; ch "{"]. cbn [prefix_at].
      rewrite Hd, N.eqb_refl. destruct (nth_error s (S p)) as [c|]; [|reflexivity].
      destruct (N.eqb_spec (ch "{") c) as [<-|_]; [now contradiction Hnext|reflexivity]. }
    unfold rexmatch. rewrite run_lit, Hpre.
    unfold fire. cbn [yield pos statestack m_end transition fold_left].
    now rewrite (slice_one _ _ Hd).
  - intros Hnext. rewrite step_at by exact Hp. rewrite Hhead.
    assert (Hpre : prefix_at s p (codes "${") = true).
    { change (codes "${") with [ch "$"; ch "{"]. cbn [prefix_at].
      now rewrite Hd, Hnext, !N.eqb_refl. }
    unfold rexmatch. rewrite run_lit, Hpre. change (List.length (codes "${")) with 2.
    unfold accept, fire. cbn [yield pos statestack m_end transition fold_left apply_move].
    rewrite <- (@slice_app s p (S p) (p + 2)) by lia.
    rewrite (slice_one _ _ Hd). replace (p + 2) with (S (S p)) by lia.
    now rewrite (slice_one _ _ Hnext).
  - intros q e m F Hor. rewrite interp_rules in F.
    destruct (@first_match_some U s _ _ _ _ F) as (rex & act & new & -> & Hin & Hm).
    assert (Hrule : rule rex act new = rule (lit "${") (emit String_Interpol) [push interp_inside]).
    { cbn [In] in Hin.
      destruct Hin as [E|[E|[E|[E|[E|[]]]]]]; rewrite <- E in Hor |- *; try reflexivity;
        destruct Hor as [(r & n & Hr)|(st & Hst)]; try discriminate Hr;
        cbn in Hst; intuition discriminate. }
    injection Hrule as -> _ _. unfold rexmatch in Hm. rewrite run_lit in Hm.
    destruct (prefix_at s q (codes "${")); [|discriminate].
    injection Hm as <-. auto.
  - vm_compute. reflexivity.
Qed.

(** The template holding [a$b], at its dollar sign. *)
Lemma dollar_in_template_witness :
  step ascii_only (codes "`a$b`") {| pos := 2; statestack := [interp; root] |}
  = Next [tok 2 String_Backtick "$"] {| pos := 3; statestack := [interp; root] |}.
Proof.
  refine (proj1 (@dollar_in_template ascii_only (codes "`a$b`") 2 [root] _) _).
  - reflexivity.
  - discriminate.
Defined.

(** ** The first character of a match *)

Section FirstCharacter.

Variable U : unicode.
Variable s : text.

(** A repetition that matches at a character either stops at once, or its
    first round starts with that character. *)
Lemma rounds_first body greedy lo hi a c :
  (forall i g k m, nth_error s i = Some c -> body i g k = Some m ->
     exists j g', k j g' = Some m /\ j <= List.length s /\
       ((i < j /\ eats U a c = true) \/ (j = i /\ skips U a c = true))) ->
  (forall i g k m, i <= List.length s -> body i g k = Some m ->
     exists j g', i + min_len a <= j /\ j <= List.length s /\ k j g' = Some m) ->
  forall fuel n i g k m,
    nth_error s i = Some c ->
    rounds body greedy lo hi fuel n i g k = Some m ->
    exists j g', k j g' = Some m /\ j <= List.length s /\
      ((i < j /\ eats U a c = true) \/ (j = i /\ lo <= n)).
Proof.
  intros Hfirst Hinv fuel n i g k m Hc H.
  pose proof (nth_error_lt _ _ Hc) as Hi.
  destruct fuel as [|fuel]; [discriminate|]. cbn [rounds] in H.
  assert (Hstop : (if lo <=? n then k i g else None) = Some m ->
                  exists j g', k j g' = Some m /\ j <= List.length s /\
                    ((i < j /\ eats U a c = true) \/ (j = i /\ lo <= n))).
  { destruct (Nat.leb_spec lo n) as [Hle|]; [|discriminate]. intros Hk.
    exists i, g. repeat split; auto; lia. }
  assert (Hagain : (if below hi n
                    then body i g (fun j g' =>
                           if i <? j then rounds body greedy lo hi fuel (S n) j g' k else None)
                    else None) = Some m ->
                   exists j g', k j g' = Some m /\ j <= List.length s /\
                     ((i < j /\ eats U a c = true) \/ (j = i /\ lo <= n))).
  { destruct (below hi n); [|discriminate]. intros Hb.
    apply Hfirst in Hb; [|exact Hc]. destruct Hb as (j & g' & Hk & Hlen & Hcase).
    destruct (Nat.ltb_spec i j) as [Hlt|]; [|discriminate].
    destruct Hcase as [[_ He]|[-> _]]; [|lia].
    apply rounds_inv with (s := s) (a := a) in Hk; [|exact Hinv|exact Hlen].
    destruct Hk as (j2 & g2 & Hj2 & Hlen2 & Hk2). exists j2, g2.
    assert (j <= j2) by (eapply Nat.le_trans; [apply Nat.le_add_r|exact Hj2]).
    split; [exact Hk2|]. split; [exact Hlen2|]. left. split; [lia|exact He]. }
  destruct greedy.
  - destruct (if below hi n then _ else None) eqn:E.
    + apply Hagain. exact H.
    + apply Hstop. exact H.
  - destruct (if lo <=? n then k i g else None) eqn:E.
    + apply Hstop. exact H.
    + apply Hagain. exact H.
Qed.

(** Where a pattern matches at a character, the match either spans
    characters and the pattern can eat that one, or it spans none and the
    pattern can skip before it. *)
Lemma run_first r c :
  forall i g k m,
    nth_error s i = Some c ->
    run U s r i g k = Some m ->
    exists j g', k j g' = Some m /\ j <= List.length s /\
      ((i < j /\ eats U r c = true) \/ (j = i /\ skips U r c = true)).
Proof.
  assert (Hone : forall (p : N -> bool) i g (k : cont) m,
            nth_error s i = Some c -> one_char s p i g k = Some m ->
            exists j g', k j g' = Some m /\ j <= List.length s /\
              ((i < j /\ p c = true) \/ (j = i /\ false = true))).
  { intros p i g k m Hc H. apply one_char_inv in H. destruct H as (d & Hd & Hp & Hk).
    pose proof (nth_error_lt _ _ Hc) as Hi.
    assert (d = c) by congruence. subst d.
    exists (S i), g. repeat split; auto. }
  induction r as [ |d| |items|items|a IHa b IHb|a IHa b IHb|greedy lo hi a IHa|n a IHa|a IHa
                 | | | | | ]; intros i g k m Hc H;
    pose proof (nth_error_lt _ _ Hc) as Hi; cbn [run eats skips] in *.
  - exists i, g. repeat split; auto; lia.
  - apply Hone in H; auto.
  - apply Hone in H; auto.
  - apply Hone in H; auto.
  - apply Hone in H; auto.
  - apply IHa in H; auto. destruct H as (j & g' & Hk & Hlen & [[Hlt He]|[-> Hs]]).
    + apply run_inv in Hk; auto. destruct Hk as (j2 & g2 & Hj2 & Hlen2 & Hk2).
      exists j2, g2. repeat split; auto. left. split; [lia|]. now rewrite He.
    + apply IHb in Hk; auto. destruct Hk as (j2 & g2 & Hk2 & Hlen2 & [[Hlt He]|[-> Hs2]]).
      * exists j2, g2. repeat split; auto. left. split; [lia|].
        rewrite Hs, He. cbn. apply orb_true_r.
      * exists i, g2. repeat split; auto. right. split; [reflexivity|]. now rewrite Hs, Hs2.
  - destruct (run U s a i g k) eqn:E.
    + injection H as <-. apply IHa in E; auto.
      destruct E as (j & g' & Hk & Hlen & [[Hlt He]|[-> Hs]]).
      * exists j, g'. repeat split; auto. left. split; [lia|]. now rewrite He.
      * exists i, g'. repeat split; auto. right. split; [reflexivity|]. now rewrite Hs.
    + apply IHb in H; auto.
      destruct H as (j & g' & Hk & Hlen & [[Hlt He]|[-> Hs]]).
      * exists j, g'. repeat split; auto. left. split; [lia|]. rewrite He. apply orb_true_r.
      * exists i, g'. repeat split; auto. right. split; [reflexivity|].
        rewrite Hs. apply orb_true_r.
  - apply rounds_first with (a := a) (c := c) in H; auto.
    + destruct H as (j & g' & Hk & Hlen & [[Hlt He]|[-> Hs]]).
      * exists j, g'. repeat split; auto.
      * exists i, g'. repeat split; auto. right. split; [reflexivity|].
        apply Nat.eqb_eq. lia.
    + intros i0 g0 k0 m0 Hi0 H0. eapply run_inv; eassumption.
  - apply IHa in H; auto. destruct H as (j & g' & Hk & Hlen & Hcase).
    exists j, ((n, (i, j)) :: g'). repeat split; auto.
  - destruct (run U s a i g (accept)) as [m'|] eqn:E; [|discriminate].
    apply IHa in E; auto. destruct E as (j & g' & _ & _ & Hcase).
    exists i, (m_groups m'). repeat split; auto; [lia|]. right. split; [reflexivity|].
    destruct Hcase as [[_ ->]|[_ ->]]; [reflexivity|apply orb_true_r].
  - destruct i; [|discriminate]. exists 0, g. repeat split; auto; lia.
  - destruct (at_bol s i); [|discriminate]. exists i, g. repeat split; auto; lia.
  - unfold at_eol in H. rewrite Hc in H.
    destruct (c =? newline)%N eqn:E; [|discriminate]. exists i, g. repeat split; auto; lia.
  - destruct (boundary U s i); [|discriminate]. exists i, g. repeat split; auto; lia.
  - destruct (boundary U s i); [discriminate|]. exists i, g. repeat split; auto; lia.
Qed.

(** A rule that cannot begin at the character at a position does not match
    there. *)
Lemma cannot_begin rex c p :
  nth_error s p = Some c ->
  eats U rex c || skips U rex c = false ->
  rexmatch U s rex p = None.
Proof.
  intros Hc Hno. destruct (rexmatch U s rex p) as [m|] eqn:E; [|reflexivity].
  apply run_first with (c := c) in E; [|exact Hc].
  destruct E as (j & g' & _ & _ & [[_ He]|[_ Hs]]).
  - rewrite He in Hno. discriminate.
  - rewrite Hs, orb_true_r in Hno. discriminate.
Qed.

(** The first rule of a list to match at a position is the first one among
    those that can begin at the character there. *)
Lemma first_match_filter c p : forall es,
  nth_error s p = Some c ->
  first_match U s es p = first_match U s (filter (can_begin U c) es) p.
Proof.
  intros es Hc. induction es as [|e es IH]; [reflexivity|].
  cbn [filter]. destruct e as [rex act new|st|new]; cbn [can_begin first_match].
  - destruct (eats U rex c || skips U rex c) eqn:E.
    + cbn [first_match]. now rewrite IH.
    + now rewrite (cannot_begin _ _ Hc E).
  - exact IH.
  - exact IH.
Qed.

Lemma first_match_candidates st c p :
  nth_error s p = Some c ->
  first_match U s (tokendefs st) p = first_match U s (candidates U st c) p.
Proof. apply first_match_filter. Qed.

End FirstCharacter.

(** ** Repetitions *)

Section Repetitions.

Variable U : unicode.
Variable s : text.

(** A lazy repetition of [.] stops at the first position where what
    follows matches. *)
Lemma lazy_any_run (k : cont) r d : forall fuel n i g,
  d < fuel -> i + d <= List.length s ->
  (forall j, i <= j < i + d -> k j g = None) ->
  k (i + d) g = Some r ->
  rounds (one_char s (fun _ => true)) false 0 None fuel n i g k = Some r.
Proof.
  induction d as [|d IH]; intros fuel n i g Hfuel Hlen Hnone Hk;
    (destruct fuel as [|fuel]; [lia|]); cbn [rounds below Nat.leb].
  - rewrite Nat.add_0_r in Hk. now rewrite Hk.
  - rewrite Hnone by lia. unfold one_char.
    destruct (nth_error s i) as [c|] eqn:E; [|apply nth_error_None in E; lia].
    replace (i <? S i) with true by (symmetry; apply Nat.ltb_lt; lia).
    apply IH; try lia.
    + intros j Hj. apply Hnone. lia.
    + now replace (S i + d) with (i + S d) by lia.
Qed.

(** It fails where what follows matches nowhere up to the end of the text. *)
Lemma lazy_any_none (k : cont) : forall fuel n i g,
  (forall j, i <= j -> k j g = None) ->
  rounds (one_char s (fun _ => true)) false 0 None fuel n i g k = None.
Proof.
  induction fuel as [|fuel IH]; intros n i g Hnone; [reflexivity|].
  cbn [rounds below Nat.leb]. rewrite Hnone by lia. unfold one_char.
  destruct (nth_error s i) as [c|]; [|reflexivity].
  replace (i <? S i) with true by (symmetry; apply Nat.ltb_lt; lia).
  apply IH. intros j Hj. apply Hnone. lia.
Qed.

(** A greedy repetition along a chain of rounds, after which no further
    round is possible, ends where the chain ends if what follows matches
    there. *)
Lemma greedy_chain body lo (k : cont) e ws : forall fuel cnt i g,
  chain body i ws ->
  (forall g' k', body (i + list_sum ws) g' k' = None) ->
  List.length ws < fuel -> lo <= cnt + List.length ws ->
  (forall g', exists r, k (i + list_sum ws) g' = Some r /\ m_end r = e) ->
  exists r, rounds body true lo None fuel cnt i g k = Some r /\ m_end r = e.
Proof.
  induction ws as [|w ws IH]; intros fuel cnt i g Hch Hend Hfuel Hcnt Hk;
    (destruct fuel as [|fuel]; [cbn in Hfuel; lia|]); cbn [rounds below].
  - change (list_sum []) with 0 in *. cbn [List.length] in *.
    rewrite Nat.add_0_r in *. rewrite Hend.
    replace (lo <=? cnt) with true by (symmetry; apply Nat.leb_le; lia). apply Hk.
  - change (list_sum (w :: ws)) with (w + list_sum ws) in *.
    cbn [chain List.length] in *. destruct Hch as (Hw & Hbody & Hch).
    destruct (Hbody g (fun j g' =>
                if i <? j then rounds body true lo None fuel (S cnt) j g' k else None))
      as (g1 & ->).
    replace (i <? i + w) with true by (symmetry; apply Nat.ltb_lt; lia).
    destruct (IH fuel (S cnt) (i + w) g1) as (r & -> & Hr); try lia; auto.
    + intros g' k'. rewrite <- Nat.add_assoc. apply Hend.
    + intros g'. rewrite <- Nat.add_assoc. apply Hk.
    + exists r. auto.
Qed.

(** It fails if what follows matches at no position of the chain. *)
Lemma greedy_chain_none body lo (k : cont) ws : forall fuel cnt i g,
  chain body i ws ->
  (forall g' k', body (i + list_sum ws) g' k' = None) ->
  (forall j g', i <= j <= i + list_sum ws -> k j g' = None) ->
  rounds body true lo None fuel cnt i g k = None.
Proof.
  induction ws as [|w ws IH]; intros fuel cnt i g Hch Hend Hk;
    (destruct fuel as [|fuel]; [reflexivity|]); cbn [rounds below].
  - change (list_sum []) with 0 in *. rewrite Nat.add_0_r in *. rewrite Hend.
    rewrite Hk by lia. now destruct (lo <=? cnt).
  - change (list_sum (w :: ws)) with (w + list_sum ws) in *.
    cbn [chain] in *. destruct Hch as (Hw & Hbody & Hch).
    destruct (Hbody g (fun j g' =>
                if i <? j then rounds body true lo None fuel (S cnt) j g' k else None))
      as (g1 & ->).
    replace (i <? i + w) with true by (symmetry; apply Nat.ltb_lt; lia).
    rewrite IH; auto.
    + rewrite Hk by lia. now destruct (lo <=? cnt).
    + intros g' k'. rewrite <- Nat.add_assoc. apply Hend.
    + intros j g' Hj. apply Hk. lia.
Qed.

(** A chain of rounds of one character each. *)
Lemma chain_single body n : forall i,
  (forall j g k', i <= j < i + n -> exists g', body j g k' = k' (j + 1) g') ->
  chain body i (repeat 1 n).
Proof.
  induction n as [|n IH]; intros i H; cbn [repeat chain]; [auto|].
  repeat split; auto.
  - intros g k'. apply H. lia.
  - apply IH. intros j g k' Hj. apply H. lia.
Qed.

Lemma list_sum_ones n : list_sum (repeat 1 n) = n.
Proof.
  induction n as [|n IH]; [reflexivity|].
  change (list_sum (repeat 1 (S n))) with (1 + list_sum (repeat 1 n)). now rewrite IH.
Qed.

End Repetitions.

(** ** Single steps of a scan *)

Section StepShapes.

Variable U : unicode.
Variable s : text.

(** The first rule to match is a given rule of the list if it matches and
    none of the rules before it that can begin at the character does. *)
Lemma first_match_pick es p c n rex act new m pre :
  nth_error s p = Some c ->
  nth_error es n = Some (rule rex act new) ->
  filter (can_begin U c) (firstn n es) = pre ->
  first_match U s pre p = None ->
  rexmatch U s rex p = Some m ->
  first_match U s es p = Some (rule rex act new, m).
Proof.
  intros Hc Hn Hpre Hnone Hm.
  rewrite <- (firstn_skipn n es), first_match_app.
  rewrite (@first_match_filter U s c p _ Hc), Hpre, Hnone.
  assert (Hs : skipn n es = rule rex act new :: skipn (S n) es).
  { clear - Hn. revert es Hn. induction n as [|n IH]; intros [|e es] H; try discriminate.
    - cbn in H. injection H as ->. reflexivity.
    - cbn [skipn]. apply IH. exact H. }
  rewrite Hs. cbn [first_match]. now rewrite Hm.
Qed.

(** No rule matches where none of those that can begin at the character
    does. *)
Lemma first_match_fails st p c :
  nth_error s p = Some c ->
  first_match U s (candidates U st c) p = None ->
  first_match U s (tokendefs st) p = None.
Proof. intros Hc H. now rewrite (@first_match_candidates U s st c p Hc). Qed.

(** The step at a position where the first rule to match yields one token. *)
Lemma step_emits p st stack rex l new m :
  p < List.length s ->
  first_match U s (tokendefs st) p = Some (rule rex (emit l) new, m) ->
  step U s {| pos := p; statestack := st :: stack |}
  = Next [{| t_pos := p; t_type := l; t_value := slice s p (m_end m) |}]
         {| pos := m_end m; statestack := transition new (st :: stack) |}.
Proof. intros Hp H. rewrite step_at by exact Hp. now rewrite H. Qed.

(** The step at a character that no rule matches, in a state without a
    default. *)
Lemma step_error p st stack c :
  nth_error s p = Some c ->
  first_match U s (tokendefs st) p = None ->
  fallback (tokendefs st) = None ->
  step U s {| pos := p; statestack := st :: stack |}
  = Next [{| t_pos := p; t_type := Error; t_value := [c] |}]
         {| pos := S p; statestack := st :: stack |}.
Proof.
  intros Hc H Hf. rewrite step_at by (apply nth_error_lt in Hc; exact Hc).
  rewrite H. unfold no_match. rewrite Hf. cbn [pos statestack].
  now rewrite (slice_one _ _ Hc).
Qed.

Lemma at_eol_false j c :
  nth_error s j = Some c -> c <> newline -> at_eol s j = false.
Proof.
  intros Hc Hne. unfold at_eol. rewrite Hc. now apply N.eqb_neq.
Qed.

Lemma inside_char j q :
  j < q -> q <= List.length s -> exists c, nth_error s j = Some c.
Proof.
  intros Hj Hq. destruct (nth_error s j) as [c|] eqn:E; [now exists c|].
  apply nth_error_None in E. lia.
Qed.

(** The hashbang pattern only matches at the start of the text. *)
Lemma hashbang_not_inside p :
  rexmatch U s (cats [Bos; lit "#!"; opt (chr " "); chr "/"; lazy_star Any; Eol]) (S p) = None.
Proof. reflexivity. Qed.

(** The rest of a line, for the patterns that end in [.*?$]. *)
Lemma rest_of_line i q g :
  i <= q -> q <= List.length s ->
  (forall j, i <= j < q -> nth_error s j <> Some newline) ->
  at_eol s q = true ->
  run U s (Cat (lazy_star Any) Eol) i g (accept)
  = Some {| m_end := q; m_groups := g |}.
Proof.
  intros Hi Hq Hline Heol. unfold lazy_star. cbn [run].
  apply lazy_any_run with (d := q - i); try lia.
  - intros j Hj. destruct (@inside_char j q) as (c & Hc); try lia.
    rewrite (at_eol_false _ Hc); [reflexivity|].
    intros ->. apply (Hline j); [lia|exact Hc].
  - replace (i + (q - i)) with q by lia. now rewrite Heol.
Qed.

Lemma line_comment_match p q :
  prefix_at s p (codes "//") = true ->
  p + 2 <= q -> q <= List.length s ->
  (forall j, p + 2 <= j < q -> nth_error s j <> Some newline) ->
  at_eol s q = true ->
  rexmatch U s (cats [lit "//"; lazy_star Any; Eol]) p
  = Some {| m_end := q; m_groups := [] |}.
Proof.
  intros Hpre Hpq Hq Hline Heol. unfold rexmatch. rewrite run_cats, run_lit, Hpre.
  change (List.length (codes "//")) with 2. now apply rest_of_line.
Qed.

Lemma block_comment_match p q :
  prefix_at s p (codes "/*") = true ->
  p + 2 <= q ->
  (forall j, p + 2 <= j < q -> prefix_at s j (codes "*/") = false) ->
  prefix_at s q (codes "*/") = true ->
  rexmatch U s (cats [lit "/*"; lazy_star Any; lit "*/"]) p
  = Some {| m_end := q + 2; m_groups := [] |}.
Proof.
  intros Hpre Hpq Hfirst Hclose. unfold rexmatch. rewrite run_cats, run_lit, Hpre.
  change (List.length (codes "/*")) with 2. rewrite run_cats. unfold lazy_star. cbn [run cats].
  assert (Hq : q < List.length s).
  { change (codes "*/") with [ch "*"; ch "/"] in Hclose. cbn [prefix_at] in Hclose.
    destruct (nth_error s q) as [c|] eqn:E; [|discriminate]. now apply nth_error_lt in E. }
  apply lazy_any_run with (d := q - (p + 2)); try lia.
  - intros j Hj. rewrite run_lit, Hfirst by lia. reflexivity.
  - replace (p + 2 + (q - (p + 2))) with q by lia. now rewrite run_lit, Hclose.
Qed.

(** A greedy repetition of a character class takes the whole run of such
    characters, if what follows matches after it. *)
Lemma greedy_chars (P : N -> bool) lo (k : cont) r g m : forall fuel cnt p,
  (forall j, p <= j < p + m -> exists c, nth_error s j = Some c /\ P c = true) ->
  match nth_error s (p + m) with Some c => P c = false | None => True end ->
  m < fuel -> lo <= cnt + m ->
  k (p + m) g = Some r ->
  rounds (one_char s P) true lo None fuel cnt p g k = Some r.
Proof.
  induction m as [|m IH]; intros fuel cnt p Hrun Hend Hfuel Hcnt Hk;
    (destruct fuel as [|fuel]; [lia|]); cbn [rounds below].
  - rewrite Nat.add_0_r in *. unfold one_char at 1.
    replace (lo <=? cnt) with true by (symmetry; apply Nat.leb_le; lia).
    destruct (nth_error s p) as [c|]; [rewrite Hend|]; exact Hk.
  - destruct (Hrun p) as (c & Hc & HP); [lia|]. unfold one_char at 1. rewrite Hc, HP.
    replace (p <? S p) with true by (symmetry; apply Nat.ltb_lt; lia).
    rewrite (IH fuel (S cnt) (S p)); try lia; try reflexivity.
    + intros j Hj. apply Hrun. lia.
    + now replace (S p + m) with (p + S m) by lia.
    + now replace (S p + m) with (p + S m) by lia.
Qed.

(** It fails if what follows matches nowhere along the run, after the
    rounds it needs. *)
Lemma greedy_chars_none (P : N -> bool) lo (k : cont) g m : forall fuel cnt p,
  (forall j, p <= j < p + m -> exists c, nth_error s j = Some c /\ P c = true) ->
  match nth_error s (p + m) with Some c => P c = false | None => True end ->
  (forall j, p <= j <= p + m -> lo <= cnt + (j - p) -> k j g = None) ->
  rounds (one_char s P) true lo None fuel cnt p g k = None.
Proof.
  induction m as [|m IH]; intros fuel cnt p Hrun Hend Hk;
    (destruct fuel as [|fuel]; [reflexivity|]); cbn [rounds below].
  - rewrite Nat.add_0_r in *. unfold one_char at 1.
    assert (Hstop : (if lo <=? cnt then k p g else None) = None).
    { destruct (Nat.leb_spec lo cnt); [|reflexivity]. apply Hk; lia. }
    destruct (nth_error s p) as [c|]; [rewrite Hend|]; exact Hstop.
  - destruct (Hrun p) as (c & Hc & HP); [lia|]. unfold one_char at 1. rewrite Hc, HP.
    replace (p <? S p) with true by (symmetry; apply Nat.ltb_lt; lia).
    rewrite (IH fuel (S cnt) (S p)).
    + destruct (Nat.leb_spec lo cnt); [|reflexivity]. apply Hk; lia.
    + intros j Hj. apply Hrun. lia.
    + now replace (S p + m) with (p + S m) by lia.
    + intros j Hj Hlo. apply Hk; lia.
Qed.

Lemma whitespace_match p q :
  p < q -> q <= List.length s ->
  (forall j, p <= j < q -> exists c, nth_error s j = Some c /\ is_space U c = true) ->
  match nth_error s q with Some c => is_space U c = false | None => True end ->
  rexmatch U s (plus (In_ [esc_s])) p = Some {| m_end := q; m_groups := [] |}.
Proof.
  intros Hpq Hq Hrun Hend. unfold rexmatch, plus. cbn [run].
  apply greedy_chars with (m := q - p); try lia; replace (p + (q - p)) with q by lia.
  - intros j Hj. destruct (Hrun j Hj) as (c & Hc & Hs). exists c. split; [exact Hc|].
    unfold in_set. cbn [existsb member]. now rewrite Hs.
  - destruct (nth_error s q) as [c|]; [|exact I].
    unfold in_set. cbn [existsb member]. now rewrite Hend.
  - reflexivity.
Qed.

(** Where the rules of [commentsandwhitespace] come first, what they match
    is what the state matches. *)
Lemma comments_first_match st p c x :
  comments_first s st p = true ->
  nth_error s p = Some c -> c <> ch "}" ->
  first_match U s (tokendefs commentsandwhitespace) p = Some x ->
  first_match U s (tokendefs st) p = Some x.
Proof.
  intros Hst Hc Hne Hx.
  assert (Hroot : at_bol s p = false ->
                  first_match U s (tokendefs root) p = Some x).
  { intros Hbol.
    change (tokendefs root)
      with (rule (cats [Bos; lit "#!"; opt (chr " "); chr "/"; lazy_star Any; Eol])
                 (emit Comment_Hashbang) []
            :: rule line_start (emit Text) [push slashstartsregex]
            :: tokendefs commentsandwhitespace ++ skipn 6 (tokendefs root)).
    cbn [first_match].
    destruct p as [|p]; [discriminate Hbol|]. rewrite hashbang_not_inside.
    destruct (rexmatch U s line_start (S p)) as [m|] eqn:E.
    - unfold rexmatch, line_start in E. cbn [run] in E. rewrite Hbol in E. discriminate.
    - now rewrite first_match_app, Hx. }
  destruct st; try discriminate Hst.
  - rewrite slashstartsregex_rules, first_match_app. now rewrite Hx.
  - apply Hroot. cbn in Hst. now destruct (at_bol s p).
  - rewrite interp_inside_entries. cbn [first_match]. rewrite rexmatch_chr, Hc.
    destruct (N.eqb_spec c (ch "}")); [contradiction|].
    apply Hroot. cbn in Hst. now destruct (at_bol s p).
Qed.

Lemma prefix_at_first p w c w' :
  prefix_at s p w = true -> w = c :: w' -> nth_error s p = Some c.
Proof.
  intros H ->. cbn [prefix_at] in H. destruct (nth_error s p) as [d|]; [|discriminate].
  apply andb_prop in H. destruct H as [H _]. apply N.eqb_eq in H. now subst.
Qed.

End StepShapes.

(** ** Further properties of the table *)

(** X1. In the two code states, [root] and [interp-inside], no rule can
    begin with [@], with a control character that is not white space or
    with the delete character: such a character becomes an [Error] token of
    its own, and the scan goes on after it in the same state. *)
Theorem stray_character_is_error U s p c st stack :
  code_state st = true ->
  nth_error s p = Some c ->
  (c = ch "@" \/ c <= 8 \/ 14 <= c <= 27 \/ c = 127)%N ->
  step U s {| pos := p; statestack := st :: stack |}
  = Next [{| t_pos := p; t_type := Error; t_value := [c] |}]
         {| pos := S p; statestack := st :: stack |}.
Proof.
  intros Hst Hc Hcls.
  assert (Hall : forallb (fun n => match candidates U root (N.of_nat n),
                                         candidates U interp_inside (N.of_nat n) with
                                   | [], [] => true
                                   | _, _ => false
                                   end)
                         (64 :: 127 :: seq 0 9 ++ seq 14 14) = true)
    by (vm_compute; reflexivity).
  rewrite forallb_forall in Hall. specialize (Hall (N.to_nat c)).
  rewrite N2Nat.id in Hall.
  assert (Hin : In (N.to_nat c) (64 :: 127 :: seq 0 9 ++ seq 14 14)).
  { cbn [In]. rewrite in_app_iff, !in_seq. eval_ch. lia. }
  specialize (Hall Hin).
  destruct (candidates U root c) eqn:E1; [|discriminate].
  destruct (candidates U interp_inside c) eqn:E2; [|discriminate].
  apply step_error; [exact Hc| |now destruct st].
  apply first_match_fails with (c := c); [exact Hc|].
  destruct st; try discriminate Hst; [now rewrite E1|now rewrite E2].
Qed.

(** In [a@b] the character [@] is an error and the stack stays. *)
Lemma stray_character_is_error_witness :
  step ascii_only (codes "a@b") {| pos := 1; statestack := [root] |}
  = Next [tok 1 Error "@"] {| pos := 2; statestack := [root] |}.
Proof.
  apply (@stray_character_is_error ascii_only (codes "a@b") 1 (ch "@") root []).
  - reflexivity.
  - reflexivity.
  - left. reflexivity.
Defined.

(** X2. A text that starts with [#!/] or [#! /] starts with a hashbang
    comment: one token up to the end of the first line, the newline not
    included, and the scan goes on in [root]. *)
Theorem hashbang_line U s q :
  (prefix_at s 0 (codes "#!/") = true /\ 3 <= q) \/
  (prefix_at s 0 (codes "#! /") = true /\ 4 <= q) ->
  q <= List.length s ->
  (forall j, 3 <= j < q -> nth_error s j <> Some newline) ->
  at_eol s q = true ->
  step U s start
  = Next [{| t_pos := 0; t_type := Comment_Hashbang; t_value := slice s 0 q |}]
         {| pos := q; statestack := [root] |}.
Proof.
  intros Hpre Hq Hline Heol.
  assert (Hm : rexmatch U s (cats [Bos; lit "#!"; opt (chr " "); chr "/"; lazy_star Any; Eol]) 0
               = Some {| m_end := q; m_groups := [] |}).
  { unfold rexmatch. rewrite run_cats. cbn [run]. rewrite run_cats, run_lit.
    change (List.length (codes "#!")) with 2. cbn [Nat.add].
    destruct Hpre as [[Hpre H3]|[Hpre H4]].
    - assert (H0 : prefix_at s 0 (codes "#!") = true /\ nth_error s 2 = Some (ch "/")).
      { change (codes "#!/") with [ch "#"; ch "!"; ch "/"] in Hpre.
        change (codes "#!") with [ch "#"; ch "!"]. cbn [prefix_at] in *.
        destruct (nth_error s 0) as [c0|]; [|discriminate].
        destruct (N.eqb_spec (ch "#") c0); [|discriminate].
        destruct (nth_error s 1) as [c1|]; [|discriminate].
        destruct (N.eqb_spec (ch "!") c1); [|discriminate].
        destruct (nth_error s 2) as [c2|]; [|discriminate].
        destruct (N.eqb_spec (ch "/") c2); [|discriminate]. subst. auto. }
      destruct H0 as [-> H2]. rewrite run_cats. unfold opt. cbn [run rounds below].
      rewrite run_chr, H2. change (ch "/" =? ch " ")%N with false. cbn [Nat.leb].
      rewrite run_cats, run_chr, H2, N.eqb_refl.
      change (cats [lazy_star Any; Eol]) with (Cat (lazy_star Any) Eol).
      apply rest_of_line; auto.
    - assert (H0 : prefix_at s 0 (codes "#!") = true /\ nth_error s 2 = Some (ch " ")
                   /\ nth_error s 3 = Some (ch "/")).
      { change (codes "#! /") with [ch "#"; ch "!"; ch " "; ch "/"] in Hpre.
        change (codes "#!") with [ch "#"; ch "!"]. cbn [prefix_at] in *.
        destruct (nth_error s 0) as [c0|]; [|discriminate].
        destruct (N.eqb_spec (ch "#") c0); [|discriminate].
        destruct (nth_error s 1) as [c1|]; [|discriminate].
        destruct (N.eqb_spec (ch "!") c1); [|discriminate].
        destruct (nth_error s 2) as [c2|]; [|discriminate].
        destruct (N.eqb_spec (ch " ") c2); [|discriminate].
        destruct (nth_error s 3) as [c3|]; [|discriminate].
        destruct (N.eqb_spec (ch "/") c3); [|discriminate]. subst. auto. }
      destruct H0 as (-> & H2 & H3). rewrite run_cats. unfold opt. cbn [run].
      assert (Hlen : List.length s - 2 = S (List.length s - 3)) by lia.
      rewrite Hlen. cbn [rounds below Nat.ltb Nat.leb].
      rewrite run_chr, H2, N.eqb_refl. cbn [Nat.leb].
      rewrite run_cats, run_chr, H3, N.eqb_refl.
      change (cats [lazy_star Any; Eol]) with (Cat (lazy_star Any) Eol).
      rewrite (@rest_of_line U s 4 q []); auto.
      intros j Hj. apply Hline. lia. }
  unfold start.
  assert (H0 : 0 < List.length s).
  { destruct Hpre as [[Hpre _]|[Hpre _]]; destruct s; try discriminate; cbn; lia. }
  rewrite step_emits with (rex := cats [Bos; lit "#!"; opt (chr " "); chr "/"; lazy_star Any; Eol])
                          (l := Comment_Hashbang) (new := [])
                          (m := {| m_end := q; m_groups := [] |}); [reflexivity|exact H0|].
  change (tokendefs root)
    with (rule (cats [Bos; lit "#!"; opt (chr " "); chr "/"; lazy_star Any; Eol])
               (emit Comment_Hashbang) [] :: skipn 1 (tokendefs root)).
  cbn [first_match]. now rewrite Hm.
Qed.

(** The first line [#!/bin/sh] of a text of two lines. *)
Lemma hashbang_line_witness :
  step ascii_only (codes "#!/bin/sh" ++ [newline] ++ codes "x") start
  = Next [tok 0 Comment_Hashbang "#!/bin/sh"] {| pos := 9; statestack := [root] |}.
Proof.
  apply (@hashbang_line ascii_only (codes "#!/bin/sh" ++ [newline] ++ codes "x") 9).
  - left. split; [reflexivity|lia].
  - cbn. lia.
  - intros j Hj.
    do 9 (destruct j as [|j]; [first [lia | discriminate]|]). lia.
  - reflexivity.
Defined.

(** X3. The hashbang rule is tied to the start of the text: anywhere else
    a [#] is matched by no rule of the code states and becomes an [Error]
    token of its own, whatever follows it. *)
Theorem hash_inside_is_error U s p st stack :
  code_state st = true ->
  nth_error s (S p) = Some (ch "#") ->
  step U s {| pos := S p; statestack := st :: stack |}
  = Next [{| t_pos := S p; t_type := Error; t_value := [ch "#"] |}]
         {| pos := S (S p); statestack := st :: stack |}.
Proof.
  intros Hst Hc. apply step_error; [exact Hc| |now destruct st].
  apply first_match_fails with (c := ch "#"); [exact Hc|].
  destruct st; try discriminate Hst; reflexivity.
Qed.

(** A second line [#!/x] is no hashbang comment. *)
Lemma hash_inside_is_error_witness :
  step ascii_only (codes "a" ++ [newline] ++ codes "#!/x") {| pos := 2; statestack := [root] |}
  = Next [tok 2 Error "#"] {| pos := 3; statestack := [root] |}.
Proof.
  apply (@hash_inside_is_error ascii_only (codes "a" ++ [newline] ++ codes "#!/x") 1 root []).
  - reflexivity.
  - reflexivity.
Defined.

(** X4. Where the comment rules come first, two slashes start a comment
    that runs to the end of the line: one [Comment.Single] token up to the
    next newline or the end of the text, the newline not included; the
    state stays. *)
Theorem line_comment_token U s p q st stack :
  comments_first s st p = true ->
  prefix_at s p (codes "//") = true ->
  p + 2 <= q -> q <= List.length s ->
  (forall j, p + 2 <= j < q -> nth_error s j <> Some newline) ->
  at_eol s q = true ->
  step U s {| pos := p; statestack := st :: stack |}
  = Next [{| t_pos := p; t_type := Comment_Single; t_value := slice s p q |}]
         {| pos := q; statestack := st :: stack |}.
Proof.
  intros Hst Hpre Hpq Hq Hline Heol.
  pose proof (@prefix_at_first s p _ _ _ Hpre eq_refl) as Hc.
  rewrite step_emits with (rex := cats [lit "//"; lazy_star Any; Eol])
                          (l := Comment_Single) (new := [])
                          (m := {| m_end := q; m_groups := [] |}); [reflexivity|lia|].
  apply comments_first_match with (c := ch "/"); auto; [discriminate|].
  apply first_match_pick with (c := ch "/") (n := 2) (pre := []); auto.
  now apply line_comment_match.
Qed.

(** The comment of [x //c], where a second line follows. *)
Lemma line_comment_token_witness :
  step ascii_only (codes "x //c" ++ [newline] ++ codes "y") {| pos := 2; statestack := [root] |}
  = Next [tok 2 Comment_Single "//c"] {| pos := 5; statestack := [root] |}.
Proof.
  apply (@line_comment_token ascii_only (codes "x //c" ++ [newline] ++ codes "y") 2 5 root []).
  - reflexivity.
  - reflexivity.
  - lia.
  - cbn. lia.
  - intros j Hj. assert (j = 4) as -> by lia. discriminate.
  - reflexivity.
Defined.

(** X5. Where the comment rules come first, [/*] starts a comment that
    ends with the first [*/] after it, across lines: one
    [Comment.Multiline] token; the state stays. *)
Theorem block_comment_token U s p q st stack :
  comments_first s st p = true ->
  prefix_at s p (codes "/*") = true ->
  p + 2 <= q ->
  (forall j, p + 2 <= j < q -> prefix_at s j (codes "*/") = false) ->
  prefix_at s q (codes "*/") = true ->
  step U s {| pos := p; statestack := st :: stack |}
  = Next [{| t_pos := p; t_type := Comment_Multiline; t_value := slice s p (q + 2) |}]
         {| pos := q + 2; statestack := st :: stack |}.
Proof.
  intros Hst Hpre Hpq Hfirst Hclose.
  pose proof (@prefix_at_first s p _ _ _ Hpre eq_refl) as Hc.
  pose proof (@prefix_at_first s q _ _ _ Hclose eq_refl) as Hc'.
  apply nth_error_lt in Hc'.
  rewrite step_emits with (rex := cats [lit "/*"; lazy_star Any; lit "*/"])
                          (l := Comment_Multiline) (new := [])
                          (m := {| m_end := q + 2; m_groups := [] |}); [reflexivity|lia|].
  apply comments_first_match with (c := ch "/"); auto; [discriminate|].
  apply first_match_pick
    with (c := ch "/") (n := 3)
         (pre := [rule (cats [lit "//"; lazy_star Any; Eol]) (emit Comment_Single) []]); auto.
  - cbn [first_match]. unfold rexmatch. rewrite run_cats, run_lit.
    assert (H1 : nth_error s (S p) = Some (ch "*")).
    { replace (S p) with (p + 1) by lia.
      now apply prefix_at_nth with (w := codes "/*"). }
    change (codes "//") with [ch "/"; ch "/"]. cbn [prefix_at]. now rewrite Hc, H1.
  - now apply block_comment_match.
Qed.

(** A comment of two lines between [x] and [y]. *)
Lemma block_comment_token_witness :
  step ascii_only (codes "x /*a" ++ [newline] ++ codes "*b*/ y")
       {| pos := 2; statestack := [root] |}
  = Next [{| t_pos := 2; t_type := Comment_Multiline;
             t_value := codes "/*a" ++ [newline] ++ codes "*b*/" |}]
         {| pos := 10; statestack := [root] |}.
Proof.
  apply (@block_comment_token ascii_only (codes "x /*a" ++ [newline] ++ codes "*b*/ y")
           2 8 root []).
  - reflexivity.
  - reflexivity.
  - lia.
  - intros j Hj. assert (j = 4 \/ j = 5 \/ j = 6 \/ j = 7) as [->|[->|[->| ->]]] by lia;
      reflexivity.
  - reflexivity.
Defined.

(** X6. Where the comment rules come first, a run of white space, newlines
    included, is one [Whitespace] token up to the first character that is
    not white space; the state stays, [slashstartsregex] too. *)
Theorem whitespace_token U s p q st stack :
  comments_first s st p = true ->
  p < q -> q <= List.length s ->
  (forall j, p <= j < q -> exists c, nth_error s j = Some c /\ is_space U c = true) ->
  match nth_error s q with Some c => is_space U c = false | None => True end ->
  step U s {| pos := p; statestack := st :: stack |}
  = Next [{| t_pos := p; t_type := Whitespace; t_value := slice s p q |}]
         {| pos := q; statestack := st :: stack |}.
Proof.
  intros Hst Hpq Hq Hrun Hend.
  destruct (Hrun p) as (c & Hc & Hs); [lia|].
  rewrite step_emits with (rex := plus (In_ [esc_s]))
                          (l := Whitespace) (new := [])
                          (m := {| m_end := q; m_groups := [] |}); [reflexivity|lia|].
  apply comments_first_match with (c := c); auto.
  - intros ->. discriminate Hs.
  - change (tokendefs commentsandwhitespace)
      with (rule (plus (In_ [esc_s])) (emit Whitespace) []
            :: skipn 1 (tokendefs commentsandwhitespace)).
    cbn [first_match]. now rewrite (whitespace_match U s Hpq Hq Hrun Hend).
Qed.

(** After the operator of [a =], a space, a newline and a tab are one token
    and the state that waits for a regular expression stays. *)
Lemma whitespace_token_witness :
  step ascii_only (codes "a= " ++ [newline; 9%N] ++ codes "/b/")
       {| pos := 2; statestack := [slashstartsregex; root] |}
  = Next [{| t_pos := 2; t_type := Whitespace; t_value := [32; 10; 9]%N |}]
         {| pos := 5; statestack := [slashstartsregex; root] |}.
Proof.
  apply (@whitespace_token ascii_only (codes "a= " ++ [newline; 9%N] ++ codes "/b/")
           2 5 slashstartsregex [root]).
  - reflexivity.
  - lia.
  - cbn. lia.
  - intros j Hj. assert (j = 2 \/ j = 3 \/ j = 4) as [->|[->| ->]] by lia;
      eexists; split; reflexivity.
  - reflexivity.
Defined.

(** ** Quoted strings *)

Section Strings.

Variable U : unicode.
Variable s : text.

Lemma slice_cons i q c t :
  slice s i q = c :: t -> nth_error s i = Some c /\ slice s (S i) q = t /\ i < q.
Proof.
  unfold slice. revert i q. induction s as [|x l IH]; intros i q H.
  - rewrite skipn_nil, firstn_nil in H. discriminate.
  - destruct i as [|i].
    + cbn [skipn] in H. destruct q as [|q]; [discriminate|].
      cbn in H. injection H as -> <-. cbn. rewrite Nat.sub_0_r.
      split; [reflexivity|]. split; [reflexivity|lia].
    + cbn [skipn] in H. destruct q as [|q]; [discriminate|].
      cbn [Nat.sub] in H. apply IH in H. destruct H as (H1 & H2 & H3).
      cbn [nth_error skipn]. replace (S q - S (S i)) with (q - S i) by lia.
      split; [exact H1|]. split; [exact H2|lia].
Qed.

Lemma slice_nil i q : i <= q -> q <= List.length s -> slice s i q = [] -> i = q.
Proof.
  intros Hi Hq H. apply (f_equal (@List.length N)) in H.
  rewrite slice_length in H by exact Hq. cbn in H. lia.
Qed.

(** The rounds of the repetition between the quotes. *)
Lemma string_chain d n : forall t i q,
  List.length t <= n ->
  d <> ch "\" ->
  slice s i q = t -> q <= List.length s -> i <= q ->
  string_body d t = true ->
  exists ws,
    chain (run U s (Group 1 (alt [lit "\\"; Cat (chr "\") (NotIn [c1 "\"]);
                                  NotIn [one d; c1 "\"]]))) i ws /\
    i + list_sum ws = q /\ List.length ws <= q - i.
Proof.
  induction n as [|n IH]; intros t i q Hn Hd Ht Hq Hi Hb.
  - destruct t; [|cbn in Hn; lia]. apply slice_nil in Ht; auto. subst q.
    exists []. cbn. split; [exact I|lia].
  - destruct t as [|c t].
    + apply slice_nil in Ht; auto. subst q. exists []. cbn. split; [exact I|lia].
    + apply slice_cons in Ht. destruct Ht as (Hc & Ht & Hlt).
      cbn [string_body] in Hb. destruct (N.eqb_spec c (ch "\")) as [->|Hne].
      * destruct t as [|c2 t]; [discriminate|].
        apply slice_cons in Ht. destruct Ht as (Hc2 & Ht & Hlt2).
        destruct (IH t (S (S i)) q) as (ws & Hch & Hsum & Hlen); auto;
          [cbn [List.length] in Hn; lia|].
        exists (2 :: ws). change (list_sum (2 :: ws)) with (2 + list_sum ws).
        cbn [chain List.length]. replace (i + 2) with (S (S i)) by lia.
        split; [|lia]. split; [lia|]. split; [|exact Hch].
        intros g k'. exists ((1, (i, S (S i))) :: g). cbn [alt]. cbn [run].
        rewrite run_lit. change (codes "\\") with [ch "\"; ch "\"]. cbn [prefix_at].
        rewrite Hc, Hc2, N.eqb_refl. cbn [andb List.length].
        rewrite run_chr, Hc, N.eqb_refl. unfold one_char. rewrite Hc, Hc2.
        unfold in_set. cbn [existsb member c1]. rewrite N.eqb_refl, !orb_true_r. cbn [negb].
        replace (i + 2) with (S (S i)) by lia.
        destruct (N.eqb_spec (ch "\") c2) as [<-|Hne2].
        -- destruct (k' (S (S i)) ((1, (i, S (S i))) :: g)); [reflexivity|].
           rewrite N.eqb_refl. reflexivity.
        -- replace (c2 =? ch "\")%N with false by (symmetry; apply N.eqb_neq; congruence).
           cbn [orb negb]. destruct (k' (S (S i)) ((1, (i, S (S i))) :: g)); reflexivity.
      * apply andb_prop in Hb. destruct Hb as [Hq' Hb].
        destruct (IH t (S i) q) as (ws & Hch & Hsum & Hlen); auto;
          [cbn [List.length] in Hn; lia|].
        exists (1 :: ws). change (list_sum (1 :: ws)) with (1 + list_sum ws).
        cbn [chain List.length]. replace (i + 1) with (S i) by lia.
        split; [|lia]. split; [lia|]. split; [|exact Hch].
        intros g k'. exists ((1, (i, S i)) :: g). cbn [alt]. cbn [run].
        rewrite run_lit. change (codes "\\") with [ch "\"; ch "\"]. cbn [prefix_at].
        rewrite Hc.
        replace (ch "\" =? c)%N with false by (symmetry; apply N.eqb_neq; congruence).
        cbn [andb]. rewrite run_chr, Hc.
        replace (c =? ch "\")%N with false by (symmetry; apply N.eqb_neq; congruence).
        unfold one_char. rewrite Hc. unfold in_set. cbn [existsb member c1].
        replace (c =? ch "\")%N with false by (symmetry; apply N.eqb_neq; congruence).
        destruct (c =? d)%N; [discriminate Hq'|]. reflexivity.
Qed.

(** From one quote to the next one that is not escaped. *)
Lemma quoted_match d p q :
  d <> ch "\" ->
  nth_error s p = Some d -> p < q -> nth_error s q = Some d ->
  string_body d (slice s (S p) q) = true ->
  exists m, rexmatch U s (quoted d) p = Some m /\ m_end m = S q.
Proof.
  intros Hd Hp Hpq Hq Hb. pose proof (nth_error_lt _ _ Hq) as Hlen.
  destruct (@string_chain d _ _ (S p) q (Nat.le_refl _) Hd eq_refl) as (ws & Hch & Hsum & Hws);
    auto; try lia.
  unfold rexmatch, quoted. rewrite run_cats. cbn [run]. unfold one_char at 1.
  rewrite Hp, N.eqb_refl. rewrite run_cats. unfold star. cbn [run].
  apply greedy_chain with (ws := ws).
  - exact Hch.
  - intros g' k'. rewrite Hsum. cbn [alt]. cbn [run]. rewrite run_lit.
    change (codes "\\") with [ch "\"; ch "\"]. cbn [prefix_at]. rewrite Hq.
    replace (ch "\" =? d)%N with false by (symmetry; apply N.eqb_neq; congruence).
    cbn [andb]. rewrite run_chr, Hq.
    replace (d =? ch "\")%N with false by (symmetry; apply N.eqb_neq; congruence).
    unfold one_char. rewrite Hq. unfold in_set. cbn [existsb member].
    now rewrite N.eqb_refl.
  - lia.
  - lia.
  - intros g'. rewrite Hsum. cbn [cats run]. unfold one_char. rewrite Hq, N.eqb_refl.
    eexists. split; reflexivity.
Qed.

(** The pattern needs a second quote. *)
Lemma quoted_needs_close d p m :
  rexmatch U s (quoted d) p = Some m ->
  exists j, p < j /\ nth_error s j = Some d.
Proof.
  unfold rexmatch, quoted. rewrite run_cats. cbn [run]. intros H.
  apply one_char_inv in H. destruct H as (c & Hc & _ & H).
  rewrite run_cats in H. apply run_inv in H; [|apply nth_error_lt in Hc; lia].
  destruct H as (j & g' & Hj & _ & H). cbn [cats run] in H.
  apply one_char_inv in H. destruct H as (c' & Hc' & He & _).
  apply N.eqb_eq in He. subst c'. exists j. split; [lia|exact Hc'].
Qed.

End Strings.

(** X7. In the code states a quote starts a string that runs to the next
    quote of the same kind that is not escaped: between the two stand
    backslashes, each with the character after it, and characters other than
    the quote, newlines too. The string is one token, [String.Double] or
    [String.Single] by the quote, and the state stays. *)
Theorem quoted_string_token U s p q d l st stack :
  code_state st = true ->
  (d = 34%N /\ l = String_Double) \/ (d = 39%N /\ l = String_Single) ->
  nth_error s p = Some d -> p < q -> nth_error s q = Some d ->
  string_body d (slice s (S p) q) = true ->
  step U s {| pos := p; statestack := st :: stack |}
  = Next [{| t_pos := p; t_type := l; t_value := slice s p (S q) |}]
         {| pos := S q; statestack := st :: stack |}.
Proof.
  intros Hst Hd Hp Hpq Hq Hb. pose proof (nth_error_lt _ _ Hp) as Hlen.
  assert (Hne : d <> ch "\") by (destruct Hd as [[-> _]|[-> _]]; discriminate).
  destruct (@quoted_match U s d p q Hne Hp Hpq Hq Hb) as (m & Hm & Hend).
  rewrite step_emits with (rex := quoted d) (l := l) (new := []) (m := m);
    [now rewrite Hend|exact Hlen|].
  destruct Hd as [[-> ->]|[-> ->]]; destruct st; try discriminate Hst.
  - apply first_match_pick with (c := 34%N) (n := 26) (pre := []); auto.
  - apply first_match_pick with (c := 34%N) (n := 27) (pre := []); auto.
  - apply first_match_pick with (c := 39%N) (n := 27) (pre := []); auto.
  - apply first_match_pick with (c := 39%N) (n := 28) (pre := []); auto.
Qed.

(** The string ['a\'b'], with an escaped quote inside. *)
Lemma quoted_string_token_witness :
  step ascii_only (codes "x='a\'b';") {| pos := 2; statestack := [root] |}
  = Next [tok 2 String_Single "'a\'b'"] {| pos := 8; statestack := [root] |}.
Proof.
  apply (@quoted_string_token ascii_only (codes "x='a\'b';") 2 7 39%N String_Single root []).
  - reflexivity.
  - right. split; reflexivity.
  - reflexivity.
  - lia.
  - reflexivity.
  - reflexivity.
Defined.

(** X8. A quote after which the text holds no quote of the same kind starts
    no string: in the code states it becomes an [Error] token of its own,
    and the scan goes on after it in the same state. *)
Theorem unclosed_quote_is_error U s p d st stack :
  code_state st = true ->
  d = 34%N \/ d = 39%N ->
  nth_error s p = Some d ->
  (forall j, p < j -> nth_error s j <> Some d) ->
  step U s {| pos := p; statestack := st :: stack |}
  = Next [{| t_pos := p; t_type := Error; t_value := [d] |}]
         {| pos := S p; statestack := st :: stack |}.
Proof.
  intros Hst Hd Hp Hnone. apply step_error; [exact Hp| |now destruct st].
  apply first_match_fails with (c := d); [exact Hp|].
  assert (Hq : rexmatch U s (quoted d) p = None).
  { destruct (rexmatch U s (quoted d) p) as [m|] eqn:E; [|reflexivity].
    apply quoted_needs_close in E. destruct E as (j & Hj & Hc).
    exfalso. exact (Hnone j Hj Hc). }
  destruct Hd as [-> | ->]; destruct st; try discriminate Hst;
    match goal with
    | |- first_match _ _ (candidates _ ?st ?c) _ = None =>
        change (candidates U st c) with [rule (quoted c) (emit String_Double) []]
        || change (candidates U st c) with [rule (quoted c) (emit String_Single) []]
    end; cbn [first_match]; now rewrite Hq.
Qed.

(** A double quote before [ab], which nothing closes. *)
Lemma unclosed_quote_is_error_witness :
  step ascii_only (codes "x = " ++ [34%N] ++ codes "ab") {| pos := 4; statestack := [root] |}
  = Next [{| t_pos := 4; t_type := Error; t_value := [34%N] |}]
         {| pos := 5; statestack := [root] |}.
Proof.
  apply (@unclosed_quote_is_error ascii_only (codes "x = " ++ [34%N] ++ codes "ab")
           4 34%N root []).
  - reflexivity.
  - left. reflexivity.
  - reflexivity.
  - intros j Hj. do 5 (destruct j as [|j]; [lia|]).
    destruct j as [|[|j]]; try discriminate. now destruct j.
Defined.

(** ** Templates *)

(** X9. In a template a backslash takes the character after it with it,
    a backtick, a dollar sign or a newline as well: the two are one
    [String.Backtick] token and the template stays open. A backslash at the
    very end of the text is matched by no rule and becomes an [Error]
    token. *)
Theorem template_escape U s p stack :
  nth_error s p = Some (ch "\") ->
  step U s {| pos := p; statestack := interp :: stack |}
  = match nth_error s (S p) with
    | Some _ =>
        Next [{| t_pos := p; t_type := String_Backtick; t_value := slice s p (S (S p)) |}]
             {| pos := S (S p); statestack := interp :: stack |}
    | None =>
        Next [{| t_pos := p; t_type := Error; t_value := [ch "\"] |}]
             {| pos := S p; statestack := interp :: stack |}
    end.
Proof.
  intros Hp. pose proof (nth_error_lt _ _ Hp) as Hlen.
  destruct (nth_error s (S p)) as [c|] eqn:E.
  - rewrite step_emits with (rex := Cat (chr "\") Any) (l := String_Backtick) (new := [])
                            (m := {| m_end := S (S p); m_groups := [] |});
      [reflexivity|exact Hlen|].
    rewrite interp_rules. cbn [first_match]. rewrite rexmatch_chr, Hp.
    change (ch "\" =? ch "`")%N with false. cbv beta iota.
    unfold rexmatch. cbn [run]. rewrite run_chr, Hp, N.eqb_refl.
    unfold one_char. now rewrite E.
  - apply step_error; [exact Hp| |reflexivity].
    rewrite interp_rules. cbn [first_match]. rewrite !rexmatch_chr, Hp.
    change (ch "\" =? ch "`")%N with false. change (ch "\" =? ch "$")%N with false.
    cbv beta iota. unfold rexmatch. cbn [run]. rewrite run_chr, Hp, N.eqb_refl.
    unfold one_char at 1. rewrite E. rewrite run_lit.
    change (codes "${") with [ch "$"; ch "{"]. cbn [prefix_at]. rewrite Hp.
    change (ch "$" =? ch "\")%N with false. cbn [andb]. unfold plus. cbn [run rounds below].
    unfold one_char. rewrite Hp. reflexivity.
Qed.

(** An escaped backtick inside a template. *)
Lemma template_escape_witness :
  step ascii_only (codes "`a\`b`") {| pos := 2; statestack := [interp; root] |}
  = Next [tok 2 String_Backtick "\`"] {| pos := 4; statestack := [interp; root] |}.
Proof.
  exact (@template_escape ascii_only (codes "`a\`b`") 2 [root] eq_refl).
Defined.

(** X10. In a template the text up to the next backtick, backslash or
    dollar sign, newlines included, is one [String.Backtick] token, and the
    template stays open. *)
Theorem template_text U s p q stack :
  p < q -> q <= List.length s ->
  (forall j, p <= j < q ->
     exists c, nth_error s j = Some c /\ c <> ch "`" /\ c <> ch "\" /\ c <> ch "$") ->
  match nth_error s q with
  | Some c => c = ch "`" \/ c = ch "\" \/ c = ch "$"
  | None => True
  end ->
  step U s {| pos := p; statestack := interp :: stack |}
  = Next [{| t_pos := p; t_type := String_Backtick; t_value := slice s p q |}]
         {| pos := q; statestack := interp :: stack |}.
Proof.
  intros Hpq Hq Hrun Hend.
  destruct (Hrun p) as (c & Hc & H1 & H2 & H3); [lia|].
  assert (Hset : forall d, d <> ch "`" -> d <> ch "\" -> d <> ch "$" ->
                 negb (in_set U [c1 "`"; c1 "\"; c1 "$"] d) = true).
  { intros d D1 D2 D3. unfold in_set. cbn [existsb member c1].
    apply N.eqb_neq in D1, D2, D3. now rewrite D1, D2, D3. }
  rewrite step_emits with (rex := plus (NotIn [c1 "`"; c1 "\"; c1 "$"]))
                          (l := String_Backtick) (new := [])
                          (m := {| m_end := q; m_groups := [] |}); [reflexivity|lia|].
  rewrite interp_rules. cbn [first_match]. rewrite !rexmatch_chr, Hc.
  apply N.eqb_neq in H1, H2, H3. rewrite H1, H3.
  replace (rexmatch U s (Cat (chr "\") Any) p) with (@None match_)
    by (unfold rexmatch; cbn [run]; now rewrite run_chr, Hc, H2).
  replace (rexmatch U s (lit "${") p) with (@None match_).
  2:{ unfold rexmatch. rewrite run_lit. change (codes "${") with [ch "$"; ch "{"].
      cbn [prefix_at]. rewrite Hc, N.eqb_sym, H3. reflexivity. }
  replace (rexmatch U s (plus (NotIn [c1 "`"; c1 "\"; c1 "$"])) p)
    with (Some {| m_end := q; m_groups := [] |}); [reflexivity|].
  symmetry. unfold rexmatch, plus. cbn [run].
  apply greedy_chars with (m := q - p); try lia; replace (p + (q - p)) with q by lia.
  - intros j Hj. destruct (Hrun j Hj) as (d & Hd & D1 & D2 & D3). exists d. auto.
  - destruct (nth_error s q) as [d|]; [|exact I].
    destruct Hend as [->|[->| ->]]; reflexivity.
  - reflexivity.
Qed.

(** The text of two lines before an interpolation. *)
Lemma template_text_witness :
  step ascii_only (codes "`a" ++ [newline] ++ codes "b${c}`")
       {| pos := 1; statestack := [interp; root] |}
  = Next [{| t_pos := 1; t_type := String_Backtick; t_value := codes "a" ++ [newline] ++ codes "b" |}]
         {| pos := 4; statestack := [interp; root] |}.
Proof.
  apply (@template_text ascii_only (codes "`a" ++ [newline] ++ codes "b${c}`") 1 4 [root]).
  - lia.
  - cbn. lia.
  - intros j Hj. assert (j = 1 \/ j = 2 \/ j = 3) as [->|[->| ->]] by lia;
      eexists; (split; [reflexivity|]); repeat split; discriminate.
  - right. right. reflexivity.
Defined.

(** ** Numeric literals *)

Section Numbers.

Variable U : unicode.
Variable s : text.

Lemma digit_in_set d : in_set U [rg "0" "9"] d = ascii_digit d.
Proof. unfold in_set. cbn [existsb member rg]. apply orb_false_r. Qed.

Lemma nonzero_digit c :
  between (ch "1") (ch "9") c = true ->
  ascii_digit c = true /\
  (c = ch "1" \/ c = ch "2" \/ c = ch "3" \/ c = ch "4" \/ c = ch "5" \/
   c = ch "6" \/ c = ch "7" \/ c = ch "8" \/ c = ch "9").
Proof.
  unfold ascii_digit, between. eval_ch. intros H. apply andb_prop in H.
  destruct H as [H1 H2]. apply N.leb_le in H1, H2. split.
  - apply andb_true_intro. split; apply N.leb_le; lia.
  - lia.
Qed.

(** A run of characters of a class from [p] up to [q], which ends at [q]. *)
Lemma class_then (P : N -> bool) (k : cont) r p q g :
  p < q -> q <= List.length s ->
  (forall j, p <= j < q -> exists d, nth_error s j = Some d /\ P d = true) ->
  match nth_error s q with Some d => P d = false | None => True end ->
  k q g = Some r ->
  rounds (one_char s P) true 1 None (S (List.length s - p)) 0 p g k = Some r.
Proof.
  intros Hpq Hq Hrun Hend Hk.
  apply greedy_chars with (m := q - p); try lia; replace (p + (q - p)) with q by lia; auto.
Qed.

Lemma class_then_none (P : N -> bool) (k : cont) p q g :
  p <= q ->
  (forall j, p <= j < q -> exists d, nth_error s j = Some d /\ P d = true) ->
  match nth_error s q with Some d => P d = false | None => True end ->
  (forall j, p < j <= q -> k j g = None) ->
  rounds (one_char s P) true 1 None (S (List.length s - p)) 0 p g k = None.
Proof.
  intros Hpq Hrun Hend Hk.
  apply greedy_chars_none with (m := q - p); replace (p + (q - p)) with q by lia; auto.
  intros j Hj Hlo. apply Hk. lia.
Qed.

(** An optional part that cannot start at a position is passed over. *)
Lemma opt_skipped a i g (k : cont) :
  (forall k', run U s a i g k' = None) ->
  run U s (opt a) i g k = k i g.
Proof. intros H. unfold opt. cbn [run rounds below Nat.leb]. now rewrite H. Qed.

(** An optional character that stands at a position is taken. *)
Lemma opt_taken a i g :
  nth_error s i = Some (ch a) ->
  run U s (opt (chr a)) i g (accept) = Some {| m_end := S i; m_groups := g |}.
Proof.
  intros H. pose proof (nth_error_lt _ _ H) as Hlen. unfold opt. cbn [run].
  destruct (List.length s - i) as [|fuel] eqn:E; [lia|].
  cbn [rounds below Nat.ltb Nat.leb]. rewrite run_chr, H, N.eqb_refl.
  now rewrite Nat.leb_refl.
Qed.

Lemma decimal_candidates c st :
  between (ch "1") (ch "9") c = true ->
  code_state st = true ->
  filter (can_begin U c) (tokendefs st)
  = [rule (Cat digits (chr "n")) (emit Number_Integer) [];
     rule float_literal (emit Number_Float) []].
Proof.
  intros Hnz Hst. destruct (nonzero_digit _ Hnz) as (_ & Hc).
  destruct st; try discriminate Hst;
    decompose [or] Hc; subst c; reflexivity.
Qed.

Section Decimal.

Variables p q : nat.
Variable c : N.
Hypothesis first : nth_error s p = Some c.
Hypothesis nonzero : between (ch "1") (ch "9") c = true.
Hypothesis inside : p < q /\ q <= List.length s.
Hypothesis all_digits :
  forall j, p < j < q -> exists d, nth_error s j = Some d /\ ascii_digit d = true.

Lemma decimal_run :
  forall j, p <= j < q ->
  exists d, nth_error s j = Some d /\ in_set U [rg "0" "9"] d = true.
Proof.
  intros j Hj. destruct (Nat.eq_dec j p) as [->|Hne].
  - exists c. split; [exact first|]. rewrite digit_in_set. now apply nonzero_digit.
  - destruct (all_digits (j := j)) as (d & Hd & Hdig); [lia|].
    exists d. split; [exact Hd|]. now rewrite digit_in_set.
Qed.

(** The digits and the [n] after them. *)
Lemma bigint_match :
  nth_error s q = Some (ch "n") ->
  rexmatch U s (Cat digits (chr "n")) p = Some {| m_end := S q; m_groups := [] |}.
Proof.
  intros Hn. unfold rexmatch, digits, plus. cbn [run].
  apply class_then with (q := q); try tauto.
  - apply decimal_run.
  - now rewrite Hn.
  - now rewrite run_chr, Hn, N.eqb_refl.
Qed.

Hypothesis after :
  match nth_error s q with
  | Some d => ascii_digit d = false /\ d <> ch "." /\ d <> ch "e" /\ d <> ch "E" /\ d <> ch "n"
  | None => True
  end.

Lemma decimal_end : 
  match nth_error s q with
  | Some d => in_set U [rg "0" "9"] d = false
  | None => True
  end.
Proof.
  destruct (nth_error s q) as [d|]; [|exact I]. rewrite digit_in_set. tauto.
Qed.

(** No character from [p] to [q] is [a], where [a] is no digit and does
    not stand at [q]. *)
Lemma decimal_lacks a j :
  ascii_digit (ch a) = false ->
  match nth_error s q with Some d => d <> ch a | None => True end ->
  p <= j <= q ->
  match nth_error s j with Some d => (d =? ch a)%N = false | None => True end.
Proof.
  intros Ha Hq Hj. destruct (Nat.eq_dec j q) as [->|Hne].
  - destruct (nth_error s q) as [d|]; [|exact I]. now apply N.eqb_neq.
  - destruct (@decimal_run j) as (d & Hd & Hdig); [lia|]. rewrite Hd.
    rewrite digit_in_set in Hdig. apply N.eqb_neq. intros ->. congruence.
Qed.

Lemma not_bigint : rexmatch U s (Cat digits (chr "n")) p = None.
Proof.
  unfold rexmatch, digits, plus. cbn [run].
  apply class_then_none with (q := q); try lia.
  - apply decimal_run.
  - apply decimal_end.
  - intros j Hj. rewrite run_chr.
    pose proof (@decimal_lacks "n" j eq_refl) as H.
    destruct (nth_error s j) as [d|]; [|reflexivity].
    rewrite H; try lia; auto.
    destruct (nth_error s q); tauto.
Qed.

Lemma decimal_match :
  rexmatch U s float_literal p = Some {| m_end := q; m_groups := [(1, (p, q))] |}.
Proof.
  unfold rexmatch, float_literal. cbn [run alt].
  (* a fraction that starts with a point *)
  rewrite run_chr, first.
  replace (c =? ch ".")%N with false
    by (symmetry; apply N.eqb_neq; intros ->; discriminate nonzero).
  (* digits and a point *)
  rewrite run_cats. unfold digits at 1, plus at 1. cbn [run].
  rewrite class_then_none with (q := q); try lia.
  2:{ apply decimal_run. }
  2:{ apply decimal_end. }
  2:{ intros j Hj. rewrite run_cats, run_chr.
      pose proof (@decimal_lacks "." j eq_refl) as H.
      destruct (nth_error s j) as [d|]; [|reflexivity].
      rewrite H; try lia; auto. destruct (nth_error s q); tauto. }
  (* digits alone, and no exponent *)
  unfold digits at 1, plus at 1. cbn [run].
  apply class_then with (q := q); try tauto.
  - apply decimal_run.
  - apply decimal_end.
  - rewrite opt_skipped; [reflexivity|].
    intros k'. cbn [run]. rewrite run_cats. cbn [run]. unfold one_char.
    destruct (nth_error s q) as [d|]; [|reflexivity].
    unfold in_set. cbn [existsb member c1].
    destruct after as (_ & _ & He & HE & _). apply N.eqb_neq in He, HE.
    now rewrite He, HE.
Qed.

End Decimal.

End Numbers.

(** X11. In the code states, digits that start with a digit from 1 to 9
    and are followed by the end of the text or by a character that is no
    digit, point, [e], [E] or [n] are one token of type [Number.Float]: the
    table has no rule for plain integers, the rule for floating-point
    numbers takes them. *)
Theorem integer_is_float_token U s p q c st stack :
  code_state st = true ->
  nth_error s p = Some c ->
  between (ch "1") (ch "9") c = true ->
  p < q /\ q <= List.length s ->
  (forall j, p < j < q -> exists d, nth_error s j = Some d /\ ascii_digit d = true) ->
  match nth_error s q with
  | Some d => ascii_digit d = false /\ d <> ch "." /\ d <> ch "e" /\ d <> ch "E" /\ d <> ch "n"
  | None => True
  end ->
  step U s {| pos := p; statestack := st :: stack |}
  = Next [{| t_pos := p; t_type := Number_Float; t_value := slice s p q |}]
         {| pos := q; statestack := st :: stack |}.
Proof.
  intros Hst Hc Hnz Hpq Hdig Hafter.
  rewrite step_emits with (rex := float_literal) (l := Number_Float) (new := [])
                          (m := {| m_end := q; m_groups := [(1, (p, q))] |});
    [reflexivity|lia|].
  rewrite (@first_match_filter U s c p _ Hc), (@decimal_candidates U c st Hnz Hst).
  cbn [first_match].
  rewrite (@not_bigint U s p q c Hc Hnz Hpq Hdig Hafter).
  now rewrite (@decimal_match U s p q c Hc Hnz Hpq Hdig Hafter).
Qed.

(** The number of [x = 42;]. *)
Lemma integer_is_float_token_witness :
  step ascii_only (codes "x = 42;") {| pos := 4; statestack := [root] |}
  = Next [tok 4 Number_Float "42"] {| pos := 6; statestack := [root] |}.
Proof.
  apply (@integer_is_float_token ascii_only (codes "x = 42;") 4 6 (ch "4") root []).
  - reflexivity.
  - reflexivity.
  - reflexivity.
  - cbn. lia.
  - intros j Hj. assert (j = 5) as -> by lia. eexists. split; reflexivity.
  - repeat split; discriminate.
Defined.

(** X12. In the code states, digits that start with a digit from 1 to 9
    and are followed by [n] are, with the [n], one token of type
    [Number.Integer], whatever comes after the [n]. *)
Theorem bigint_token U s p q c st stack :
  code_state st = true ->
  nth_error s p = Some c ->
  between (ch "1") (ch "9") c = true ->
  p < q /\ q <= List.length s ->
  (forall j, p < j < q -> exists d, nth_error s j = Some d /\ ascii_digit d = true) ->
  nth_error s q = Some (ch "n") ->
  step U s {| pos := p; statestack := st :: stack |}
  = Next [{| t_pos := p; t_type := Number_Integer; t_value := slice s p (S q) |}]
         {| pos := S q; statestack := st :: stack |}.
Proof.
  intros Hst Hc Hnz Hpq Hdig Hn.
  rewrite step_emits with (rex := Cat digits (chr "n")) (l := Number_Integer) (new := [])
                          (m := {| m_end := S q; m_groups := [] |});
    [reflexivity|lia|].
  rewrite (@first_match_filter U s c p _ Hc), (@decimal_candidates U c st Hnz Hst).
  cbn [first_match].
  now rewrite (@bigint_match U s p q c Hc Hnz Hpq Hdig Hn).
Qed.

(** The number of [x = 42n;]. *)
Lemma bigint_token_witness :
  step ascii_only (codes "x = 42n;") {| pos := 4; statestack := [root] |}
  = Next [tok 4 Number_Integer "42n"] {| pos := 7; statestack := [root] |}.
Proof.
  apply (@bigint_token ascii_only (codes "x = 42n;") 4 6 (ch "4") root []).
  - reflexivity.
  - reflexivity.
  - reflexivity.
  - cbn. lia.
  - intros j Hj. assert (j = 5) as -> by lia. eexists. split; reflexivity.
  - reflexivity.
Defined.

Section Radix.

Variable U : unicode.
Variable s : text.

Lemma suffix_match q g :
  run U s (opt (chr "n")) q g (accept)
  = Some {| m_end := after_suffix s q; m_groups := g |}.
Proof.
  unfold after_suffix. destruct (nth_error s q) as [d|] eqn:E.
  - destruct (N.eqb_spec d (ch "n")) as [->|Hne].
    + now apply opt_taken.
    + rewrite opt_skipped; [reflexivity|]. intros k'. rewrite run_chr, E.
      now replace (d =? ch "n")%N with false by (symmetry; now apply N.eqb_neq).
  - rewrite opt_skipped; [reflexivity|]. intros k'. now rewrite run_chr, E.
Qed.

Lemma zero_candidates st :
  code_state st = true ->
  filter (can_begin U (ch "0")) (tokendefs st)
  = [ rule (cats [chr "0"; In_ [c1 "b"; c1 "B"]; plus (In_ [c1 "0"; c1 "1"]); opt (chr "n")])
           (emit Number_Bin) [];
      rule (cats [chr "0"; opt (In_ [c1 "o"; c1 "O"]); plus (In_ [rg "0" "7"]); opt (chr "n")])
           (emit Number_Oct) [];
      rule (cats [chr "0"; In_ [c1 "x"; c1 "X"];
                 plus (In_ [rg "0" "9"; rg "a" "f"; rg "A" "F"]); opt (chr "n")])
           (emit Number_Hex) [];
      rule (Cat digits (chr "n")) (emit Number_Integer) [];
      rule float_literal (emit Number_Float) [] ].
Proof. intros Hst. destruct st; try discriminate Hst; reflexivity. Qed.

Variable p : nat.
Hypothesis zero : nth_error s p = Some (ch "0").

(** After the zero, the binary rule wants [b] or [B]. *)
Lemma not_binary x :
  nth_error s (S p) = Some x -> x <> ch "b" -> x <> ch "B" ->
  rexmatch U s (cats [chr "0"; In_ [c1 "b"; c1 "B"]; plus (In_ [c1 "0"; c1 "1"]);
                      opt (chr "n")]) p = None.
Proof.
  intros Hx Hb HB. unfold rexmatch. rewrite run_cats, run_chr, zero, N.eqb_refl.
  rewrite run_cats. cbn [run]. unfold one_char. rewrite Hx.
  unfold in_set. cbn [existsb member c1]. apply N.eqb_neq in Hb, HB. now rewrite Hb, HB.
Qed.

(** After the zero, the octal rule wants [o], [O] or an octal digit. *)
Lemma not_octal x :
  nth_error s (S p) = Some x -> x <> ch "o" -> x <> ch "O" -> octal_digit x = false ->
  rexmatch U s (cats [chr "0"; opt (In_ [c1 "o"; c1 "O"]); plus (In_ [rg "0" "7"]);
                      opt (chr "n")]) p = None.
Proof.
  intros Hx Ho HO Hoct. unfold rexmatch. rewrite run_cats, run_chr, zero, N.eqb_refl.
  rewrite run_cats. rewrite opt_skipped.
  - rewrite run_cats. unfold plus. cbn [run rounds below Nat.leb]. unfold one_char.
    rewrite Hx. unfold in_set. cbn [existsb member rg]. fold (octal_digit x).
    now rewrite Hoct.
  - intros k'. cbn [run]. unfold one_char. rewrite Hx.
    unfold in_set. cbn [existsb member c1]. apply N.eqb_neq in Ho, HO. now rewrite Ho, HO.
Qed.

Lemma hex_match x q :
  nth_error s (S p) = Some x -> x = ch "x" \/ x = ch "X" ->
  S (S p) < q -> q <= List.length s ->
  (forall j, S (S p) <= j < q -> exists d, nth_error s j = Some d /\ hex_digit d = true) ->
  match nth_error s q with Some d => hex_digit d = false | None => True end ->
  rexmatch U s (cats [chr "0"; In_ [c1 "x"; c1 "X"];
                      plus (In_ [rg "0" "9"; rg "a" "f"; rg "A" "F"]); opt (chr "n")]) p
  = Some {| m_end := after_suffix s q; m_groups := [] |}.
Proof.
  intros Hx Hcase Hpq Hq Hrun Hend.
  assert (Hset : forall d, in_set U [rg "0" "9"; rg "a" "f"; rg "A" "F"] d = hex_digit d).
  { intros d. unfold in_set, hex_digit, ascii_digit. cbn [existsb member rg].
    now rewrite orb_false_r, orb_assoc. }
  unfold rexmatch. rewrite run_cats, run_chr, zero, N.eqb_refl.
  rewrite run_cats. cbn [run]. unfold one_char at 1. rewrite Hx.
  replace (in_set U [c1 "x"; c1 "X"] x) with true
    by (destruct Hcase as [->| ->]; reflexivity).
  rewrite run_cats. unfold plus. cbn [run].
  apply class_then with (q := q); auto.
  - intros j Hj. destruct (Hrun j Hj) as (d & Hd & Hh). exists d. now rewrite Hset.
  - destruct (nth_error s q) as [d|]; [|exact I]. now rewrite Hset.
  - cbn [cats]. apply suffix_match.
Qed.

Lemma octal_match q :
  S p < q -> q <= List.length s ->
  (forall j, S p <= j < q -> exists d, nth_error s j = Some d /\ octal_digit d = true) ->
  match nth_error s q with Some d => octal_digit d = false | None => True end ->
  rexmatch U s (cats [chr "0"; opt (In_ [c1 "o"; c1 "O"]); plus (In_ [rg "0" "7"]);
                      opt (chr "n")]) p
  = Some {| m_end := after_suffix s q; m_groups := [] |}.
Proof.
  intros Hpq Hq Hrun Hend.
  assert (Hset : forall d, in_set U [rg "0" "7"] d = octal_digit d).
  { intros d. unfold in_set, octal_digit. cbn [existsb member rg]. apply orb_false_r. }
  destruct (Hrun (S p)) as (x & Hx & Hoct); [lia|].
  unfold rexmatch. rewrite run_cats, run_chr, zero, N.eqb_refl.
  rewrite run_cats. rewrite opt_skipped.
  - rewrite run_cats. unfold plus. cbn [run].
    apply class_then with (q := q); auto.
    + intros j Hj. destruct (Hrun j Hj) as (d & Hd & Hh). exists d. now rewrite Hset.
    + destruct (nth_error s q) as [d|]; [|exact I]. now rewrite Hset.
    + cbn [cats]. apply suffix_match.
  - intros k'. cbn [run]. unfold one_char. rewrite Hx.
    unfold in_set. cbn [existsb member c1].
    destruct (N.eqb_spec x (ch "o")) as [->|_]; [discriminate Hoct|].
    destruct (N.eqb_spec x (ch "O")) as [->|_]; [discriminate Hoct|]. reflexivity.
Qed.

End Radix.

(** X13. In the code states, [0x] or [0X] and the hexadecimal digits after
    it are one [Number.Hex] token, which an [n] that follows the digits
    belongs to; the token ends before any other character, a letter that
    is no hexadecimal digit too. *)
Theorem hex_token U s p q x st stack :
  code_state st = true ->
  nth_error s p = Some (ch "0") ->
  nth_error s (S p) = Some x -> x = ch "x" \/ x = ch "X" ->
  S (S p) < q /\ q <= List.length s ->
  (forall j, S (S p) <= j < q -> exists d, nth_error s j = Some d /\ hex_digit d = true) ->
  match nth_error s q with Some d => hex_digit d = false | None => True end ->
  step U s {| pos := p; statestack := st :: stack |}
  = Next [{| t_pos := p; t_type := Number_Hex; t_value := slice s p (after_suffix s q) |}]
         {| pos := after_suffix s q; statestack := st :: stack |}.
Proof.
  intros Hst H0 Hx Hcase [Hpq Hq] Hrun Hend.
  rewrite step_emits
    with (rex := cats [chr "0"; In_ [c1 "x"; c1 "X"];
                       plus (In_ [rg "0" "9"; rg "a" "f"; rg "A" "F"]); opt (chr "n")])
         (l := Number_Hex) (new := [])
         (m := {| m_end := after_suffix s q; m_groups := [] |}); [reflexivity|lia|].
  rewrite (@first_match_filter U s _ p _ H0), (@zero_candidates U st Hst).
  cbn [first_match].
  rewrite (@not_binary U s p H0 x Hx) by (destruct Hcase as [->| ->]; discriminate).
  rewrite (@not_octal U s p H0 x Hx) by (destruct Hcase as [->| ->]; first [discriminate|reflexivity]).
  now rewrite (@hex_match U s p H0 x q Hx Hcase Hpq Hq Hrun Hend).
Qed.

(** The number of [0xFFn+1]. *)
Lemma hex_token_witness :
  step ascii_only (codes "0xFFn+1") start
  = Next [tok 0 Number_Hex "0xFFn"] {| pos := 5; statestack := [root] |}.
Proof.
  apply (@hex_token ascii_only (codes "0xFFn+1") 0 4 (ch "x") root []).
  - reflexivity.
  - reflexivity.
  - reflexivity.
  - left. reflexivity.
  - cbn. lia.
  - intros j Hj. assert (j = 2 \/ j = 3) as [->| ->] by lia; eexists; split; reflexivity.
  - reflexivity.
Defined.

(** X14. In the code states, a zero and the octal digits after it are one
    [Number.Oct] token, which an [n] that follows the digits belongs to.
    The token ends before the first character that is no octal digit, an
    [8] or a [9] too: the digits [019] are the octal number [01] and then
    a [9]. *)
Theorem legacy_octal_token U s p q st stack :
  code_state st = true ->
  nth_error s p = Some (ch "0") ->
  S p < q /\ q <= List.length s ->
  (forall j, S p <= j < q -> exists d, nth_error s j = Some d /\ octal_digit d = true) ->
  match nth_error s q with Some d => octal_digit d = false | None => True end ->
  step U s {| pos := p; statestack := st :: stack |}
  = Next [{| t_pos := p; t_type := Number_Oct; t_value := slice s p (after_suffix s q) |}]
         {| pos := after_suffix s q; statestack := st :: stack |}.
Proof.
  intros Hst H0 [Hpq Hq] Hrun Hend.
  destruct (Hrun (S p)) as (x & Hx & Hoct); [lia|].
  rewrite step_emits
    with (rex := cats [chr "0"; opt (In_ [c1 "o"; c1 "O"]); plus (In_ [rg "0" "7"]);
                       opt (chr "n")])
         (l := Number_Oct) (new := [])
         (m := {| m_end := after_suffix s q; m_groups := [] |}); [reflexivity|lia|].
  rewrite (@first_match_filter U s _ p _ H0), (@zero_candidates U st Hst).
  cbn [first_match].
  rewrite (@not_binary U s p H0 x Hx) by (intros ->; discriminate Hoct).
  now rewrite (@octal_match U s p H0 q Hpq Hq Hrun Hend).
Qed.

(** The digits [019]. *)
Lemma legacy_octal_token_witness :
  step ascii_only (codes "019") start
  = Next [tok 0 Number_Oct "01"] {| pos := 2; statestack := [root] |}.
Proof.
  apply (@legacy_octal_token ascii_only (codes "019") 0 2 root []).
  - reflexivity.
  - reflexivity.
  - cbn. lia.
  - intros j Hj. assert (j = 1) as -> by lia. eexists; split; reflexivity.
  - reflexivity.
Defined.

(** ** Names *)

Section Names.

Variable U : unicode.
Variable s : text.

(** A repetition of a character class hands over after a run of characters
    of the class. *)
Lemma class_rounds_inv (P : N -> bool) greedy lo hi (k : cont) m : forall fuel n i g,
  rounds (one_char s P) greedy lo hi fuel n i g k = Some m ->
  exists j, i <= j /\ k j g = Some m /\
    forall l, i <= l < j -> exists d, nth_error s l = Some d /\ P d = true.
Proof.
  induction fuel as [|fuel IH]; intros n i g H; [discriminate|]. cbn [rounds] in H.
  assert (Hstop : (if lo <=? n then k i g else None) = Some m ->
                  exists j, i <= j /\ k j g = Some m /\
                    forall l, i <= l < j -> exists d, nth_error s l = Some d /\ P d = true).
  { destruct (lo <=? n); [|discriminate]. intros Hk. exists i.
    split; [lia|]. split; [exact Hk|]. intros l Hl. lia. }
  assert (Hagain : (if below hi n
                    then one_char s P i g (fun j g' =>
                           if i <? j then rounds (one_char s P) greedy lo hi fuel (S n) j g' k
                           else None)
                    else None) = Some m ->
                   exists j, i <= j /\ k j g = Some m /\
                     forall l, i <= l < j -> exists d, nth_error s l = Some d /\ P d = true).
  { destruct (below hi n); [|discriminate]. intros Hb.
    apply one_char_inv in Hb. destruct Hb as (c & Hc & HP & Hb).
    destruct (i <? S i); [|discriminate].
    apply IH in Hb. destruct Hb as (j & Hj & Hk & Hall).
    exists j. split; [lia|]. split; [exact Hk|].
    intros l Hl. destruct (Nat.eq_dec l i) as [->|Hne]; [now exists c|].
    apply Hall. lia. }
  destruct greedy.
  - destruct (if below hi n then _ else None) eqn:E.
    + apply Hagain. exact H.
    + apply Hstop. exact H.
  - destruct (if lo <=? n then k i g else None) eqn:E.
    + apply Hstop. exact H.
    + apply Hagain. exact H.
Qed.

Variables p q : nat.
Hypothesis inside : p < q /\ q <= List.length s.
Hypothesis parts :
  forall j, p < j < q -> exists d, nth_error s j = Some d /\ name_part U d = true.
Hypothesis ending :
  match nth_error s q with Some d => name_end U d = true | None => True end.

Lemma part_plain d : name_part U d = true -> d <> ch "\" /\ d <> ch "(".
Proof. split; intros ->; discriminate. Qed.

Lemma ending_inv d :
  nth_error s q = Some d ->
  name_part U d = false /\ in_set U [esc_w; c1 "?"; c1 "."; c1 "$"] d = false /\
  d <> ch "\" /\ d <> ch "(".
Proof.
  intros Hd. pose proof ending as H. rewrite Hd in H. unfold name_end in H.
  apply negb_true_iff in H. apply orb_false_elim in H. destruct H as [H1 H2].
  split; [exact H1|]. unfold in_set in *. cbn [existsb member c1] in *.
  repeat (apply orb_false_elim in H2; destruct H2 as [? H2]).
  split.
  - repeat (apply orb_false_intro; auto).
  - split; intros ->; discriminate.
Qed.

(** The pattern for a name before [() {] does not match. *)
Lemma not_a_call :
  rexmatch U s (Cat (Group 1 (Cat (In_ [rg "a" "z"; rg "A" "Z"; c1 "_"; c1 "?"; c1 "."; c1 "$"])
                                  (star (In_ [esc_w; c1 "?"; c1 "."; c1 "$"]))))
                    (Look (lit "() {"))) p = None.
Proof.
  destruct (rexmatch U s _ p) as [m|] eqn:E; [exfalso|reflexivity].
  unfold rexmatch, star in E. cbn [run] in E.
  apply one_char_inv in E. destruct E as (c & Hc & _ & E).
  apply class_rounds_inv in E. destruct E as (j & Hj & E & Hall).
  rewrite run_lit in E.
  destruct (prefix_at s j (codes "() {")) eqn:Hpre; [|discriminate].
  apply prefix_at_first with (c := ch "(") (w' := codes ") {") in Hpre; [|reflexivity].
  destruct (Nat.lt_trichotomy j q) as [Hlt|[->|Hgt]].
  - destruct (parts (j := j)) as (d & Hd & Hpart); [lia|].
    apply part_plain in Hpart. destruct Hpart as [_ Hpart]. congruence.
  - destruct (ending_inv Hpre) as (_ & _ & _ & Hne). congruence.
  - destruct (Hall q) as (d & Hd & Hset); [lia|].
    destruct (ending_inv Hd) as (_ & Hno & _). congruence.
Qed.

(** The pattern for a name takes the start and the characters after it. *)
Lemma name_match c :
  nth_error s p = Some c ->
  in_set U [c1 "$"; c1 "_"; cat_start] c = true ->
  exists m, rexmatch U s JS_IDENT p = Some m /\ m_end m = q.
Proof.
  intros Hc Hstart. unfold rexmatch, JS_IDENT, JS_IDENT_START. cbn [run].
  unfold one_char at 1. rewrite Hc, Hstart. unfold star.
  assert (Hm : exists m, run U s (Rep true 0 None JS_IDENT_PART) (S p) [] (accept) = Some m
                         /\ m_end m = q).
  { cbn [run]. apply greedy_chain with (ws := repeat 1 (q - S p)).
    - apply chain_single. intros j g k' Hj. destruct (parts (j := j)) as (d & Hd & Hpart); [lia|].
      exists g. unfold JS_IDENT_PART. cbn [run]. unfold one_char at 1.
      rewrite Hd. fold (name_part U d). rewrite Hpart. replace (j + 1) with (S j) by lia.
      destruct (k' (S j) g); [reflexivity|].
      rewrite run_cats, run_chr, Hd.
      apply part_plain in Hpart. destruct Hpart as [Hb _].
      now replace (d =? ch "\")%N with false by (symmetry; now apply N.eqb_neq).
    - intros g' k'. rewrite list_sum_ones. replace (S p + (q - S p)) with q by lia.
      unfold JS_IDENT_PART. cbn [run]. unfold one_char at 1.
      rewrite run_cats, run_chr. pose proof ending_inv as Hinv.
      destruct (nth_error s q) as [d|] eqn:Hd; [|reflexivity].
      destruct (Hinv d eq_refl) as (Hno & _ & Hb & _). fold (name_part U d). rewrite Hno.
      now replace (d =? ch "\")%N with false by (symmetry; now apply N.eqb_neq).
    - rewrite repeat_length. lia.
    - lia.
    - intros g'. rewrite list_sum_ones. replace (S p + (q - S p)) with q by lia.
      eexists. split; reflexivity. }
  destruct Hm as (m & Hm & Hend). rewrite Hm. now exists m.
Qed.

End Names.

Lemma name_candidates U c st :
  c = ch "$" \/ c = ch "_" ->
  code_state st = true ->
  filter (can_begin U c) (tokendefs st)
  = [ rule (Cat (Group 1 (Cat (In_ [rg "a" "z"; rg "A" "Z"; c1 "_"; c1 "?"; c1 "."; c1 "$"])
                              (star (In_ [esc_w; c1 "?"; c1 "."; c1 "$"]))))
                (Look (lit "() {")))
           (emit Name_Other) [push slashstartsregex];
      rule JS_IDENT (emit Name_Other) [] ].
Proof. intros [->| ->] Hst; destruct st; try discriminate Hst; reflexivity. Qed.

(** X15. In the code states, a dollar sign or an underscore and the name
    characters after it (letters, digits, marks, connectors, dollar signs,
    the two joiners) are one [Name.Other] token, where the end of the text
    or a character follows that ends a name. No word of the keyword, builtin
    or exception rules begins with them, and the state stays. *)
Theorem dollar_name_token U s p q c st stack :
  code_state st = true ->
  nth_error s p = Some c ->
  c = ch "$" \/ c = ch "_" ->
  p < q /\ q <= List.length s ->
  (forall j, p < j < q -> exists d, nth_error s j = Some d /\ name_part U d = true) ->
  match nth_error s q with Some d => name_end U d = true | None => True end ->
  step U s {| pos := p; statestack := st :: stack |}
  = Next [{| t_pos := p; t_type := Name_Other; t_value := slice s p q |}]
         {| pos := q; statestack := st :: stack |}.
Proof.
  intros Hst Hc Hcase Hpq Hparts Hend.
  destruct (@name_match U s p q Hpq Hparts Hend c Hc) as (m & Hm & Hq);
    [destruct Hcase as [->| ->]; reflexivity|].
  rewrite step_emits with (rex := JS_IDENT) (l := Name_Other) (new := []) (m := m);
    [now rewrite Hq|lia|].
  rewrite (@first_match_filter U s c p _ Hc), (@name_candidates U c st Hcase Hst).
  cbn [first_match]. rewrite (@not_a_call U s p q Hpq Hparts Hend). now rewrite Hm.
Qed.

(** The name of [$el_1 = x]. *)
Lemma dollar_name_token_witness :
  step ascii_only (codes "$el_1 = x") start
  = Next [tok 0 Name_Other "$el_1"] {| pos := 5; statestack := [root] |}.
Proof.
  apply (@dollar_name_token ascii_only (codes "$el_1 = x") 0 5 (ch "$") root []).
  - reflexivity.
  - reflexivity.
  - left. reflexivity.
  - cbn. lia.
  - intros j Hj. assert (j = 1 \/ j = 2 \/ j = 3 \/ j = 4) as [->|[->|[->| ->]]] by lia;
      eexists; split; reflexivity.
  - reflexivity.
Defined.

(** ** The shape of the stack and of the tokens *)

Lemma code_stack_nest n : forall stack,
  List.length stack <= n -> code_stack stack = true -> exists k, stack = nest k.
Proof.
  induction n as [|n IH]; intros stack Hn H.
  - destruct stack; [discriminate|cbn in Hn; lia].
  - destruct stack as [|[] [|[] rest]]; cbn in H; try discriminate H.
    + exists 0. reflexivity.
    + destruct (IH rest) as (k & ->); [cbn in Hn; lia|exact H|].
      exists (S k). reflexivity.
Qed.

(** X16. At every moment of a scan the stack is [root] under the templates
    that are open, each one opened in an interpolation of the one before;
    on top of that there stands at most one more state: [interp], where the
    innermost template is being read, or [slashstartsregex] or [badregex].
    So [root] is the bottom and occurs nowhere else, [interp-inside] always
    stands right on an [interp], and the states [slashstartsregex] and
    [badregex] only ever stand on top. *)
Theorem stack_shape U s c :
  reachable U s c ->
  exists n,
    statestack c = nest n \/
    statestack c = interp :: nest n \/
    statestack c = slashstartsregex :: nest n \/
    statestack c = badregex :: nest n.
Proof.
  intros Hreach. destruct (@reachable_nested U s c Hreach) as [Hwn _].
  destruct (statestack c) as [|st rest]; [discriminate|].
  destruct st; cbn [well_nested] in Hwn.
  - discriminate.
  - destruct (@code_stack_nest _ rest (Nat.le_refl _) Hwn) as (k & ->). exists k. auto.
  - destruct (@code_stack_nest _ rest (Nat.le_refl _) Hwn) as (k & ->). exists k. auto.
  - destruct (@code_stack_nest _ (root :: rest) (Nat.le_refl _) Hwn) as (k & ->). exists k. auto.
  - destruct (@code_stack_nest _ rest (Nat.le_refl _) Hwn) as (k & ->). exists k. auto.
  - destruct (@code_stack_nest _ (interp_inside :: rest) (Nat.le_refl _) Hwn) as (k & ->).
    exists k. auto.
Qed.

(** After the three steps that read the start of a template up to its
    interpolation, one template is open. *)
Lemma stack_shape_witness :
  exists n,
    [interp_inside; interp; root] = nest n \/
    [interp_inside; interp; root] = interp :: nest n \/
    [interp_inside; interp; root] = slashstartsregex :: nest n \/
    [interp_inside; interp; root] = badregex :: nest n.
Proof.
  apply (@stack_shape ascii_only (codes "`a${b}`")
           {| pos := 4; statestack := [interp_inside; interp; root] |}).
  apply reach_step with (c := {| pos := 2; statestack := [interp; root] |})
                        (out := [tok 2 String_Interpol "${"]); [|reflexivity].
  apply reach_step with (c := {| pos := 1; statestack := [interp; root] |})
                        (out := [tok 1 String_Backtick "a"]); [|reflexivity].
  apply reach_step with (c := start) (out := [tok 0 String_Backtick "`"]); [|reflexivity].
  apply reach_start.
Defined.

(** Every rule of the table yields one token of a type other than [Error],
    which is not empty unless it is a [Text] token; but for the call
    pattern of the code states. *)
Lemma table_actions st rex act new :
  In (rule rex act new) (tokendefs st) ->
  (exists l, act = emit l /\ l <> Error /\ (1 <= min_len rex \/ l = Text)) \/
  (rule rex act new = rule super_call (bygroups [Keyword; Whitespace]) [push slashstartsregex]
   /\ code_state st = true).
Proof.
  intros H. destruct st; cbv [tokendefs process_state tokens flat_map app] in H;
    repeat (destruct H as [H|H];
            [first [ discriminate H
                   | injection H as <- <- <-;
                     first [ left; eexists; split; [reflexivity|]; split; [discriminate|];
                             first [left; cbn; lia | right; reflexivity]
                           | right; split; reflexivity ] ] |]);
    destruct H.
Qed.

Section Sizes.

Variable U : unicode.
Variable s : text.

Lemma step_sized c out c' : step U s c = Next out c' -> Forall sized out.
Proof.
  destruct c as [p stack]. unfold step. cbn [pos statestack].
  destruct (Nat.leb_spec (List.length s) p) as [|Hp]; [discriminate|].
  destruct stack as [|st rest]; [discriminate|].
  destruct (first_match U s (tokendefs st) p) as [[e m]|] eqn:F.
  - destruct (@first_match_some U s _ _ _ _ F) as (rex & act & new & -> & Hin & Hm).
    destruct (@table_actions _ _ _ _ Hin) as [(l & -> & Herr & Hlen)|[He Hst]].
    + unfold fire. cbn [yield]. intros H. injection H as <- _.
      constructor; [|constructor]. split; cbn [t_value t_type]; [|congruence].
      intros Hnil. destruct Hlen as [Hlen|Hl]; [|exact Hl]. exfalso.
      apply rexmatch_bounds in Hm; [|lia]. destruct Hm as [Hlo Hhi].
      apply (f_equal (@List.length N)) in Hnil. rewrite slice_length in Hnil by exact Hhi.
      cbn in Hnil. lia.
    + exfalso. rewrite He in F. destruct st; try discriminate Hst.
      * exact (@root_never_super U s _ _ _ F eq_refl).
      * rewrite interp_inside_entries in F. cbn [first_match] in F.
        destruct (rexmatch U s (chr "}") p); [discriminate|].
        exact (@root_never_super U s _ _ _ F eq_refl).
  - unfold no_match. destruct (fallback (tokendefs st)).
    + intros H. injection H as <- _. constructor.
    + cbn [pos]. intros H. injection H as <- _. constructor; [|constructor].
      assert (Hlen : List.length (slice s p (S p)) = 1)
        by (rewrite slice_length by lia; lia).
      split; cbn [t_value t_type]; [|auto].
      intros Hnil. rewrite Hnil in Hlen. discriminate.
Qed.

Lemma scan_sized fuel : forall c ts, scan U s fuel c = Some ts -> Forall sized ts.
Proof.
  induction fuel as [|fuel IH]; intros c ts H; [discriminate|]. cbn [scan] in H.
  destruct (step U s c) as [| |out c'] eqn:E; [|discriminate|].
  - injection H as <-. constructor.
  - destruct (scan U s fuel c') as [rest|] eqn:R; [|discriminate].
    injection H as <-. apply Forall_app. split; [now apply step_sized in E|].
    now apply IH in R.
Qed.

End Sizes.

(** X17. In the tokens of a scan, only tokens of type [Text] are empty (the
    two rules that only look ahead yield them), and the tokens of type
    [Error] are each one character: no rule of the table yields an [Error]
    token, and the rule with fewer types than groups, which could yield no
    token at all, never fires. *)
Theorem token_sizes U s :
  exists ts,
    get_tokens_unprocessed U s = Some ts /\ Forall sized ts.
Proof.
  destruct (scan_start U s) as (ts & Hscan & _). exists ts. split; [exact Hscan|].
  unfold get_tokens_unprocessed in Hscan. now apply scan_sized in Hscan.
Qed.

(** ** Regular expression literals *)

Section RegexLiterals.

Variable U : unicode.
Variable s : text.

Lemma flag_in_set d :
  in_set U [c1 "g"; c1 "i"; c1 "m"; c1 "u"; c1 "y"; c1 "s"; c1 "d"] d = regex_flag d.
Proof. reflexivity. Qed.

Lemma plain_in_set d :
  negb (in_set U [c1 "["; c1 "/"; c1 "\"; one newline] d) = regex_plain d.
Proof.
  unfold in_set, regex_plain. cbn [existsb member c1]. now rewrite orb_false_r, !orb_assoc.
Qed.

Lemma regex_plain_inv d :
  regex_plain d = true -> d <> ch "[" /\ d <> ch "/" /\ d <> ch "\" /\ d <> newline.
Proof. intros H. repeat split; intros ->; discriminate H. Qed.

(** One plain character of a literal. *)
Lemma regex_part_plain i d g (k : cont) :
  nth_error s i = Some d -> regex_plain d = true ->
  run U s (Group 1 regex_part) i g k = k (S i) ((1, (i, S i)) :: g).
Proof.
  intros Hd Hplain. destruct (regex_plain_inv _ Hplain) as (Hbr & _ & Hesc & _).
  unfold regex_part. cbn [alt]. cbn [run]. rewrite run_chr, Hd.
  replace (d =? ch "\")%N with false by (symmetry; now apply N.eqb_neq).
  unfold one_char. rewrite Hd, plain_in_set, Hplain.
  destruct (k (S i) ((1, (i, S i)) :: g)); [reflexivity|].
  rewrite run_cats, run_chr, Hd.
  now replace (d =? ch "[")%N with false by (symmetry; now apply N.eqb_neq).
Qed.

(** A backslash and the character after it. *)
Lemma regex_part_escape i d g (k : cont) :
  nth_error s i = Some (ch "\") -> nth_error s (S i) = Some d ->
  run U s (Group 1 regex_part) i g k = k (S (S i)) ((1, (i, S (S i))) :: g).
Proof.
  intros Hb Hd. unfold regex_part. cbn [alt]. cbn [run]. rewrite run_chr, Hb, N.eqb_refl.
  unfold one_char. rewrite Hd, Hb.
  destruct (k (S (S i)) ((1, (i, S (S i))) :: g)); [reflexivity|].
  replace (negb (in_set U [c1 "["; c1 "/"; c1 "\"; one newline] (ch "\"))) with false
    by reflexivity.
  rewrite run_cats, run_chr, Hb. reflexivity.
Qed.

(** No part of a literal starts with a slash. *)
Lemma regex_part_at_slash i g (k : cont) :
  nth_error s i = Some (ch "/") -> run U s (Group 1 regex_part) i g k = None.
Proof.
  intros Hc. unfold regex_part. cbn [alt]. cbn [run]. rewrite run_chr, Hc.
  unfold one_char. rewrite Hc. now rewrite run_cats, run_chr, Hc.
Qed.

(** The rounds of the repetition between the slashes. *)
Lemma regex_chain n : forall t i q,
  List.length t <= n ->
  slice s i q = t -> q <= List.length s -> i <= q ->
  regex_body t = true ->
  exists ws,
    chain (run U s (Group 1 regex_part)) i ws /\
    i + list_sum ws = q /\ List.length ws <= q - i /\ (i < q -> ws <> []).
Proof.
  induction n as [|n IH]; intros t i q Hn Ht Hq Hi Hb.
  - destruct t; [|cbn in Hn; lia]. apply slice_nil in Ht; auto. subst q.
    exists []. cbn. split; [exact I|]. split; [lia|]. split; lia.
  - destruct t as [|c t].
    + apply slice_nil in Ht; auto. subst q. exists []. cbn.
      split; [exact I|]. split; [lia|]. split; lia.
    + apply slice_cons in Ht. destruct Ht as (Hc & Ht & Hlt).
      cbn [regex_body] in Hb. destruct (N.eqb_spec c (ch "\")) as [->|Hne].
      * destruct t as [|c2 t]; [discriminate|].
        apply slice_cons in Ht. destruct Ht as (Hc2 & Ht & Hlt2).
        destruct (IH t (S (S i)) q) as (ws & Hch & Hsum & Hlen & _); auto;
          [cbn [List.length] in Hn; lia|].
        exists (2 :: ws). change (list_sum (2 :: ws)) with (2 + list_sum ws).
        cbn [chain List.length]. replace (i + 2) with (S (S i)) by lia.
        split; [|split; [lia|split; [lia|discriminate]]].
        split; [lia|]. split; [|exact Hch].
        intros g k'. eexists. now apply regex_part_escape with (d := c2).
      * apply andb_prop in Hb. destruct Hb as [Hplain Hb].
        destruct (IH t (S i) q) as (ws & Hch & Hsum & Hlen & _); auto;
          [cbn [List.length] in Hn; lia|].
        exists (1 :: ws). change (list_sum (1 :: ws)) with (1 + list_sum ws).
        cbn [chain List.length]. replace (i + 1) with (S i) by lia.
        split; [|split; [lia|split; [lia|discriminate]]].
        split; [lia|]. split; [|exact Hch].
        intros g k'. eexists. now apply regex_part_plain with (d := c).
Qed.

Section Flags.

Variables q e : nat.
Hypothesis closing : nth_error s q = Some (ch "/").
Hypothesis inside : q < e /\ e <= List.length s.
Hypothesis flags :
  forall j, q < j < e -> exists d, nth_error s j = Some d /\ regex_flag d = true.

Lemma flag_word d : regex_flag d = true -> is_word U d = true.
Proof. intros H. apply flag_is_word. now rewrite flag_in_set. Qed.

Lemma flags_run j :
  S q <= j < e ->
  exists d, nth_error s j = Some d /\
            in_set U [c1 "g"; c1 "i"; c1 "m"; c1 "u"; c1 "y"; c1 "s"; c1 "d"] d = true.
Proof. intros Hj. destruct (flags (j := j)) as (d & Hd & Hf); [lia|]. now exists d. Qed.

(** The flags up to a character that is no word character, or the end of
    the text. *)
Lemma flags_match g :
  match nth_error s e with Some d => is_word U d = false | None => True end ->
  run U s (Group 3 regex_flags) (S q) g (accept)
  = Some {| m_end := e; m_groups := (3, (S q, e)) :: g |}.
Proof.
  intros Hend.
  assert (Hwe : word_at U s e = false).
  { unfold word_at. destruct (nth_error s e); [exact Hend|reflexivity]. }
  assert (Hnf : match nth_error s e with
                | Some d => in_set U [c1 "g"; c1 "i"; c1 "m"; c1 "u"; c1 "y"; c1 "s"; c1 "d"] d
                            = false
                | None => True
                end).
  { destruct (nth_error s e) as [d|]; [|exact I]. rewrite flag_in_set.
    destruct (regex_flag d) eqn:Hf; [|reflexivity]. apply flag_word in Hf. congruence. }
  unfold regex_flags. cbn [run]. unfold plus. cbn [run].
  destruct (Nat.eq_dec e (S q)) as [->|Hne].
  - (* no flag *)
    cbn [rounds below Nat.leb]. unfold one_char at 1.
    replace (match nth_error s (S q) with
             | Some c => if in_set U _ c then _ else None
             | None => None
             end) with (@None match_)
      by (destruct (nth_error s (S q)) as [d|]; [now rewrite Hnf|reflexivity]).
    unfold boundary. rewrite Hwe. unfold word_at. rewrite closing.
    reflexivity.
  - rewrite class_then
      with (q := e) (r := {| m_end := e; m_groups := (3, (S q, e)) :: g |});
      [reflexivity| | | | |].
    + lia.
    + tauto.
    + apply flags_run.
    + exact Hnf.
    + destruct e as [|e']; [lia|]. unfold boundary. rewrite Hwe.
      destruct (flags (j := e')) as (d & Hd & Hf); [lia|].
      unfold word_at. rewrite Hd, (flag_word _ Hf). reflexivity.
Qed.

(** No flags where a word character that is no flag follows. *)
Lemma flags_fail g d :
  nth_error s e = Some d -> is_word U d = true -> regex_flag d = false ->
  run U s (Group 3 regex_flags) (S q) g (accept) = None.
Proof.
  intros Hd Hw Hnf.
  assert (Hword : forall j, S q <= j <= e -> word_at U s j = true).
  { intros j Hj. unfold word_at. destruct (Nat.eq_dec j e) as [->|Hne].
    - now rewrite Hd.
    - destruct (flags (j := j)) as (d' & Hd' & Hf); [lia|]. now rewrite Hd', (flag_word _ Hf). }
  unfold regex_flags. cbn [run]. unfold plus. cbn [run].
  rewrite class_then_none with (q := e).
  - unfold boundary. rewrite (Hword (S q)) by lia. unfold word_at. rewrite closing. reflexivity.
  - lia.
  - apply flags_run.
  - now rewrite Hd, flag_in_set.
  - intros j Hj. destruct j as [|j']; [lia|]. unfold boundary.
    rewrite (Hword (S j')) by lia. now rewrite (Hword j') by lia.
Qed.

End Flags.

(** Before a slash that neither a slash nor a star follows, the comment
    rules do not match. *)
Lemma no_comment_here p x :
  nth_error s p = Some (ch "/") ->
  nth_error s (S p) = Some x -> x <> ch "/" -> x <> ch "*" ->
  first_match U s
    [ rule (cats [lit "//"; lazy_star Any; Eol]) (emit Comment_Single) [];
      rule (cats [lit "/*"; lazy_star Any; lit "*/"]) (emit Comment_Multiline) [] ] p = None.
Proof.
  intros Hp Hx H1 H2. cbn [first_match]. unfold rexmatch. rewrite !run_cats, !run_lit.
  change (codes "//") with [ch "/"; ch "/"]. change (codes "/*") with [ch "/"; ch "*"].
  cbn [prefix_at]. rewrite Hp, Hx, N.eqb_refl.
  replace (ch "/" =? x)%N with false by (symmetry; apply N.eqb_neq; congruence).
  now replace (ch "*" =? x)%N with false by (symmetry; apply N.eqb_neq; congruence).
Qed.

Lemma slash_candidates :
  filter (can_begin U (ch "/")) (tokendefs slashstartsregex)
  = [ rule (cats [lit "//"; lazy_star Any; Eol]) (emit Comment_Single) [];
      rule (cats [lit "/*"; lazy_star Any; lit "*/"]) (emit Comment_Multiline) [] ]
    ++ [ rule regex_literal (emit String_Regex) [pop];
         rule slash_ahead (emit Text) [pop; push badregex] ].
Proof. reflexivity. Qed.

End RegexLiterals.

(** X18. In [slashstartsregex], a slash, a body of plain characters and of
    backslashes with the character after them, a second slash and flags
    are one [String.Regex] token, where the end of the text or a character
    that is no word character follows; the state is popped. The body does
    not start with a star, which would start a comment. *)
Theorem regex_literal_token U s p q e st rest :
  nth_error s p = Some (ch "/") ->
  S p < q ->
  nth_error s (S p) <> Some (ch "*") ->
  regex_body (slice s (S p) q) = true ->
  nth_error s q = Some (ch "/") ->
  q < e /\ e <= List.length s ->
  (forall j, q < j < e -> exists d, nth_error s j = Some d /\ regex_flag d = true) ->
  match nth_error s e with Some d => is_word U d = false | None => True end ->
  step U s {| pos := p; statestack := slashstartsregex :: st :: rest |}
  = Next [{| t_pos := p; t_type := String_Regex; t_value := slice s p e |}]
         {| pos := e; statestack := st :: rest |}.
Proof.
  intros Hp Hpq Hstar Hbody Hq He Hflags Hend.
  pose proof (nth_error_lt _ _ Hq) as Hlen.
  destruct (@regex_chain U s _ _ (S p) q (Nat.le_refl _) eq_refl) as (ws & Hch & Hsum & Hws & Hne);
    auto; try lia.
  assert (Hm : exists m, rexmatch U s regex_literal p = Some m /\ m_end m = e).
  { unfold rexmatch, regex_literal. rewrite run_cats, run_chr, Hp, N.eqb_refl.
    rewrite run_cats. unfold plus. cbn [run].
    apply greedy_chain with (ws := ws).
    - exact Hch.
    - intros g' k'. rewrite Hsum. now apply regex_part_at_slash.
    - lia.
    - destruct ws; [exfalso; apply Hne; [lia|reflexivity]|cbn; lia].
    - intros g'. rewrite Hsum, run_cats, run_chr, Hq, N.eqb_refl. cbn [cats].
      rewrite (@flags_match U s q e Hq He Hflags g' Hend). eexists. split; reflexivity. }
  destruct Hm as (m & Hm & Hme).
  destruct (nth_error s (S p)) as [x|] eqn:Hx; [|apply nth_error_None in Hx; lia].
  assert (Hx1 : x <> ch "/").
  { destruct (slice s (S p) q) as [|c t] eqn:Hs.
    - apply slice_nil in Hs; lia.
    - apply slice_cons in Hs. destruct Hs as (Hc & _ & _).
      assert (c = x) by congruence. subst c. intros ->. discriminate Hbody. }
  rewrite step_emits with (rex := regex_literal) (l := String_Regex) (new := [pop]) (m := m);
    [now rewrite Hme|lia|].
  rewrite (@first_match_filter U s _ p _ Hp), slash_candidates.
  rewrite first_match_app.
  rewrite (@no_comment_here U s p x Hp Hx Hx1) by congruence.
  cbn [first_match]. now rewrite Hm.
Qed.

(** The literal of [x = /a\/b/gi;], with an escaped slash, after the
    operator. *)
Lemma regex_literal_token_witness :
  step ascii_only (codes "x = /a\/b/gi;") {| pos := 4; statestack := [slashstartsregex; root] |}
  = Next [tok 4 String_Regex "/a\/b/gi"] {| pos := 12; statestack := [root] |}.
Proof.
  apply (@regex_literal_token ascii_only (codes "x = /a\/b/gi;") 4 9 12 root []).
  - reflexivity.
  - lia.
  - discriminate.
  - reflexivity.
  - reflexivity.
  - cbn. lia.
  - intros j Hj. assert (j = 10 \/ j = 11) as [->| ->] by lia; eexists; split; reflexivity.
  - reflexivity.
Defined.

(** X19. In [slashstartsregex], a slash, plain characters, a second slash
    and flags are no regular expression literal where a word character
    follows that is no flag: the scanner yields an empty [Text] token and
    replaces the state by [badregex], at the first slash. *)
Theorem regex_before_word_is_bad U s p q e d st rest :
  nth_error s p = Some (ch "/") ->
  S p < q ->
  nth_error s (S p) <> Some (ch "*") ->
  (forall j, p < j < q -> exists c, nth_error s j = Some c /\ regex_plain c = true) ->
  nth_error s q = Some (ch "/") ->
  q < e ->
  (forall j, q < j < e -> exists c, nth_error s j = Some c /\ regex_flag c = true) ->
  nth_error s e = Some d -> is_word U d = true -> regex_flag d = false ->
  step U s {| pos := p; statestack := slashstartsregex :: st :: rest |}
  = Next [{| t_pos := p; t_type := Text; t_value := [] |}]
         {| pos := p; statestack := badregex :: st :: rest |}.
Proof.
  intros Hp Hpq Hstar Hbody Hq Hqe Hflags Hd Hw Hnf.
  pose proof (nth_error_lt _ _ Hd) as Hlen.
  assert (Hm : rexmatch U s regex_literal p = None).
  { unfold rexmatch, regex_literal. rewrite run_cats, run_chr, Hp, N.eqb_refl.
    rewrite run_cats. unfold plus. cbn [run].
    apply greedy_chain_none with (ws := repeat 1 (q - S p)).
    - apply chain_single. intros j g k' Hj. destruct (Hbody j) as (c & Hc & Hplain); [lia|].
      eexists. replace (j + 1) with (S j) by lia. now apply regex_part_plain with (d := c).
    - intros g' k'. rewrite list_sum_ones. replace (S p + (q - S p)) with q by lia.
      now apply regex_part_at_slash.
    - intros j g' Hj. rewrite list_sum_ones in Hj. rewrite run_cats, run_chr.
      destruct (Nat.eq_dec j q) as [->|Hne].
      + rewrite Hq, N.eqb_refl. cbn [cats].
        apply flags_fail with (e := e) (d := d); auto. lia.
      + destruct (Hbody j) as (c & Hc & Hplain); [lia|]. rewrite Hc.
        apply regex_plain_inv in Hplain. destruct Hplain as (_ & Hs & _).
        now replace (c =? ch "/")%N with false by (symmetry; now apply N.eqb_neq). }
  destruct (Hbody (S p)) as (x & Hx & Hplain); [lia|].
  apply regex_plain_inv in Hplain. destruct Hplain as (_ & Hx1 & _).
  rewrite step_at by lia.
  rewrite (@first_match_filter U s _ p _ Hp), slash_candidates.
  rewrite first_match_app.
  rewrite (@no_comment_here U s p x Hp Hx Hx1) by congruence.
  cbn [first_match]. rewrite Hm, (slash_ahead_match U _ _ Hp).
  unfold fire. cbn [yield pos statestack m_end transition fold_left apply_move].
  now rewrite slice_empty.
Qed.

(** The slashes of [(/ab/gx)]: [x] is no flag. *)
Lemma regex_before_word_is_bad_witness :
  step ascii_only (codes "(/ab/gx)") {| pos := 1; statestack := [slashstartsregex; root] |}
  = Next [tok 1 Text ""] {| pos := 1; statestack := [badregex; root] |}.
Proof.
  apply (@regex_before_word_is_bad ascii_only (codes "(/ab/gx)") 1 4 6 (ch "x") root []).
  - reflexivity.
  - lia.
  - discriminate.
  - intros j Hj. assert (j = 2 \/ j = 3) as [->| ->] by lia; eexists; split; reflexivity.
  - reflexivity.
  - lia.
  - intros j Hj. assert (j = 5) as -> by lia. eexists; split; reflexivity.
  - reflexivity.
  - reflexivity.
  - reflexivity.
Defined.

(** ** Operators, braces and names before a call *)

Section Division.

Variable U : unicode.
Variable s : text.

(** An alternative that cannot begin at the character is passed over. *)
Lemma run_or_skip a b i g k c :
  nth_error s i = Some c ->
  eats U a c || skips U a c = false ->
  run U s (Or a b) i g k = run U s b i g k.
Proof.
  intros Hc Hno. cbn [run]. destruct (run U s a i g k) as [m|] eqn:E; [|reflexivity].
  apply run_first with (c := c) in E; [|exact Hc].
  destruct E as (j & g' & _ & _ & [[_ He]|[_ Hs]]).
  - rewrite He in Hno. discriminate.
  - rewrite Hs, orb_true_r in Hno. discriminate.
Qed.

Lemma run_cat a b i g k :
  run U s (Cat a b) i g k = run U s a i g (fun j g' => run U s b j g' k).
Proof. reflexivity. Qed.

Lemma run_group n a i g k :
  run U s (Group n a) i g k = run U s a i g (fun j g' => k j ((n, (i, j)) :: g')).
Proof. reflexivity. Qed.

(** The operator rule at a slash that no [=] follows. *)
Lemma slash_operator p rex act new :
  nth_error (tokendefs root) 12 = Some (rule rex act new) ->
  nth_error s p = Some (ch "/") ->
  nth_error s (S p) <> Some (ch "=") ->
  act = emit Operator /\ new = [push slashstartsregex] /\
  rexmatch U s rex p = Some {| m_end := S p; m_groups := [(1, (p, S p))] |}.
Proof.
  intros Hrule Hp Hnext. cbn in Hrule. injection Hrule as <- <- <-.
  split; [reflexivity|]. split; [reflexivity|].
  unfold rexmatch. cbn [alt].
  do 7 (rewrite run_or_skip with (c := ch "/"); [|exact Hp|reflexivity]).
  rewrite run_cat, run_group.
  do 7 (rewrite run_or_skip with (c := ch "/"); [|exact Hp|reflexivity]).
  cbn [run]. unfold one_char at 1. rewrite Hp.
  replace (in_set U _ (ch "/")) with true by reflexivity.
  apply opt_skipped. intros k'. rewrite run_chr.
  destruct (nth_error s (S p)) as [x|]; [|reflexivity].
  destruct (N.eqb_spec x (ch "=")) as [->|_]; [now elim Hnext|reflexivity].
Qed.

(** The block comment rule fails where no [*/] follows. *)
Lemma block_comment_open p :
  (forall j, p + 2 <= j -> prefix_at s j (codes "*/") = false) ->
  rexmatch U s (cats [lit "/*"; lazy_star Any; lit "*/"]) p = None.
Proof.
  intros Hnone. unfold rexmatch. rewrite run_cats, run_lit.
  destruct (prefix_at s p (codes "/*")); [|reflexivity].
  change (List.length (codes "/*")) with 2. rewrite run_cats. unfold lazy_star. cbn [run cats].
  apply lazy_any_none. intros j Hj. now rewrite run_lit, Hnone.
Qed.

End Division.

Lemma code_slash_candidates U :
  filter (can_begin U (ch "/")) (firstn 12 (tokendefs root))
  = [ rule line_start (emit Text) [push slashstartsregex];
      rule (cats [lit "//"; lazy_star Any; Eol]) (emit Comment_Single) [];
      rule (cats [lit "/*"; lazy_star Any; lit "*/"]) (emit Comment_Multiline) [] ] /\
  filter (can_begin U (ch "/")) (firstn 13 (tokendefs interp_inside))
  = [ rule line_start (emit Text) [push slashstartsregex];
      rule (cats [lit "//"; lazy_star Any; Eol]) (emit Comment_Single) [];
      rule (cats [lit "/*"; lazy_star Any; lit "*/"]) (emit Comment_Multiline) [] ].
Proof. split; reflexivity. Qed.

(** X20. In the code states, a slash that does not stand at the start of a
    line and starts no comment (no slash follows it, and no star, or a star
    with no [*/] after it) is an [Operator] token of one character, where
    no [=] follows it; the state [slashstartsregex] is pushed. An
    unterminated block comment is thus no comment: it starts with a
    division. *)
Theorem division_operator U s p st stack :
  code_state st = true ->
  at_bol s p = false ->
  nth_error s p = Some (ch "/") ->
  nth_error s (S p) <> Some (ch "/") ->
  nth_error s (S p) <> Some (ch "=") ->
  (nth_error s (S p) <> Some (ch "*") \/
   forall j, p + 2 <= j -> prefix_at s j (codes "*/") = false) ->
  step U s {| pos := p; statestack := st :: stack |}
  = Next [{| t_pos := p; t_type := Operator; t_value := [ch "/"] |}]
         {| pos := S p; statestack := slashstartsregex :: st :: stack |}.
Proof.
  intros Hst Hbol Hp Hslash Heq Hstar.
  pose proof (nth_error_lt _ _ Hp) as Hlen.
  destruct (nth_error (tokendefs root) 12) as [[rex act new| |]|] eqn:Hrule;
    try discriminate Hrule.
  destruct (@slash_operator U s p rex act new Hrule Hp Heq) as (-> & -> & Hm).
  assert (Hpre : first_match U s
            [ rule line_start (emit Text) [push slashstartsregex];
              rule (cats [lit "//"; lazy_star Any; Eol]) (emit Comment_Single) [];
              rule (cats [lit "/*"; lazy_star Any; lit "*/"]) (emit Comment_Multiline) [] ] p
            = None).
  { cbn [first_match].
    replace (rexmatch U s line_start p) with (@None match_)
      by (unfold rexmatch, line_start; cbn [run]; now rewrite Hbol).
    replace (rexmatch U s (cats [lit "//"; lazy_star Any; Eol]) p) with (@None match_).
    2:{ unfold rexmatch. rewrite run_cats, run_lit.
        change (codes "//") with [ch "/"; ch "/"]. cbn [prefix_at]. rewrite Hp, N.eqb_refl.
        destruct (nth_error s (S p)) as [x|]; [|reflexivity].
        destruct (N.eqb_spec (ch "/") x) as [<-|_]; [now elim Hslash|reflexivity]. }
    replace (rexmatch U s (cats [lit "/*"; lazy_star Any; lit "*/"]) p) with (@None match_);
      [reflexivity|].
    destruct Hstar as [Hstar|Hstar]; [|symmetry; now apply block_comment_open].
    unfold rexmatch. rewrite run_cats, run_lit.
    change (codes "/*") with [ch "/"; ch "*"]. cbn [prefix_at]. rewrite Hp, N.eqb_refl.
    destruct (nth_error s (S p)) as [x|]; [|reflexivity].
    destruct (N.eqb_spec (ch "*") x) as [<-|_]; [now elim Hstar|reflexivity]. }
  rewrite step_emits with (rex := rex) (l := Operator) (new := [push slashstartsregex])
                          (m := {| m_end := S p; m_groups := [(1, (p, S p))] |});
    [cbn [m_end transition fold_left apply_move]; now rewrite (slice_one _ _ Hp)|exact Hlen|].
  destruct (code_slash_candidates U) as [H1 H2].
  destruct st; try discriminate Hst.
  - now apply first_match_pick with (c := ch "/") (n := 12) (pre := _) (1 := Hp) (3 := H1).
  - now apply first_match_pick with (c := ch "/") (n := 13) (pre := _) (1 := Hp) (3 := H2).
Qed.

(** The division of [a /b], and the slash of the comment [/* b], which
    nothing closes. *)
Lemma division_operator_witness :
  step ascii_only (codes "a /* b") {| pos := 2; statestack := [root] |}
  = Next [tok 2 Operator "/"] {| pos := 3; statestack := [slashstartsregex; root] |}.
Proof.
  apply (@division_operator ascii_only (codes "a /* b") 2 root []).
  - reflexivity.
  - reflexivity.
  - reflexivity.
  - discriminate.
  - discriminate.
  - right. intros j Hj. do 4 (destruct j as [|j]; [lia|]).
    destruct j as [|[|j]]; try reflexivity. now destruct j.
Defined.

(** X21. Braces are not counted inside an interpolation: a closing brace
    met in [interp-inside] ends the interpolation, whatever was opened
    before it, a block or an object as well; it is a [String.Interpol]
    token and the template is read on. The same holds where
    [slashstartsregex] stands on top, which the brace pops first without a
    token. *)
Theorem brace_closes_interpolation U s p st rest :
  nth_error s p = Some (ch "}") ->
  step U s {| pos := p; statestack := interp_inside :: st :: rest |}
  = Next [{| t_pos := p; t_type := String_Interpol; t_value := [ch "}"] |}]
         {| pos := S p; statestack := st :: rest |} /\
  steps U s 2 {| pos := p; statestack := slashstartsregex :: interp_inside :: st :: rest |}
  = ([{| t_pos := p; t_type := String_Interpol; t_value := [ch "}"] |}],
     {| pos := S p; statestack := st :: rest |}).
Proof.
  intros Hp. pose proof (nth_error_lt _ _ Hp) as Hlen.
  assert (H1 : step U s {| pos := p; statestack := interp_inside :: st :: rest |}
               = Next [{| t_pos := p; t_type := String_Interpol; t_value := [ch "}"] |}]
                      {| pos := S p; statestack := st :: rest |}).
  { rewrite step_emits with (rex := chr "}") (l := String_Interpol) (new := [pop])
                            (m := {| m_end := S p; m_groups := [] |});
      [cbn [m_end transition fold_left apply_move]; now rewrite (slice_one _ _ Hp)|exact Hlen|].
    rewrite interp_inside_entries. cbn [first_match].
    now rewrite rexmatch_chr, Hp, N.eqb_refl. }
  split; [exact H1|].
  cbn [steps]. rewrite step_at by exact Hlen.
  rewrite (@first_match_candidates U s slashstartsregex _ p Hp).
  change (candidates U slashstartsregex (ch "}")) with (@nil entry).
  cbn [first_match]. unfold no_match.
  change (fallback (tokendefs slashstartsregex)) with (Some [pop]).
  cbn [pos statestack transition fold_left apply_move]. rewrite H1.
  now rewrite app_nil_r.
Qed.

(** The brace that closes the object in an interpolation ends the
    interpolation. *)
Lemma brace_closes_interpolation_witness :
  step ascii_only (codes "`${ {a:1} }`") {| pos := 8; statestack := [interp_inside; interp; root] |}
  = Next [tok 8 String_Interpol "}"] {| pos := 9; statestack := [interp; root] |}.
Proof.
  exact (proj1 (@brace_closes_interpolation ascii_only (codes "`${ {a:1} }`") 8 interp [root]
                  eq_refl)).
Defined.

(** X22. In the code states, a dollar sign or an underscore and the word
    characters, dollar signs, points and question marks after it are one
    [Name.Other] token where [() {] follows, an empty argument list, a
    space and a brace: the points and the question marks belong to the
    name, and the state [slashstartsregex] is pushed. *)
Theorem name_before_call U s p q c st stack :
  code_state st = true ->
  nth_error s p = Some c ->
  c = ch "$" \/ c = ch "_" ->
  p < q ->
  (forall j, p < j < q ->
     exists d, nth_error s j = Some d /\ in_set U [esc_w; c1 "?"; c1 "."; c1 "$"] d = true) ->
  prefix_at s q (codes "() {") = true ->
  step U s {| pos := p; statestack := st :: stack |}
  = Next [{| t_pos := p; t_type := Name_Other; t_value := slice s p q |}]
         {| pos := q; statestack := slashstartsregex :: st :: stack |}.
Proof.
  intros Hst Hc Hcase Hpq Hrun Hcall.
  pose proof (@prefix_at_first s q _ _ _ Hcall eq_refl) as Hq.
  pose proof (nth_error_lt _ _ Hq) as Hlen.
  rewrite step_emits
    with (rex := Cat (Group 1 (Cat (In_ [rg "a" "z"; rg "A" "Z"; c1 "_"; c1 "?"; c1 "."; c1 "$"])
                                   (star (In_ [esc_w; c1 "?"; c1 "."; c1 "$"]))))
                     (Look (lit "() {")))
         (l := Name_Other) (new := [push slashstartsregex])
         (m := {| m_end := q; m_groups := [(1, (p, q))] |}); [reflexivity|lia|].
  rewrite (@first_match_filter U s c p _ Hc), (@name_candidates U c st Hcase Hst).
  cbn [first_match].
  replace (rexmatch U s _ p) with (Some {| m_end := q; m_groups := [(1, (p, q))] |});
    [reflexivity|].
  symmetry. unfold rexmatch, star. cbn [run]. unfold one_char at 1. rewrite Hc.
  replace (in_set U _ c) with true by (destruct Hcase as [->| ->]; reflexivity).
  apply greedy_chars with (m := q - S p); try lia; replace (S p + (q - S p)) with q by lia.
  - intros j Hj. apply Hrun. lia.
  - now rewrite Hq.
  - now rewrite run_lit, Hcall.
Qed.

(** The name of [$a.b() {]. *)
Lemma name_before_call_witness :
  step ascii_only (codes "$a.b() {") start
  = Next [tok 0 Name_Other "$a.b"] {| pos := 4; statestack := [slashstartsregex; root] |}.
Proof.
  apply (@name_before_call ascii_only (codes "$a.b() {") 0 4 (ch "$") root []).
  - reflexivity.
  - reflexivity.
  - left. reflexivity.
  - lia.
  - intros j Hj. assert (j = 1 \/ j = 2 \/ j = 3) as [->|[->| ->]] by lia;
      eexists; split; reflexivity.
  - reflexivity.
Defined.

(** ** The start of a line *)

Section LineStart.

Variable U : unicode.
Variable s : text.

(** What the rule for the start of a line looks ahead for starts with white
    space, a slash or [<]. *)
Lemma opens_slash_char p :
  opens_slash U s p = true ->
  exists c, nth_error s p = Some c /\ c <> ch "}" /\ c <> ch "#".
Proof.
  unfold opens_slash. intros H. apply orb_prop in H. destruct H as [H|H].
  - destruct (nth_error s p) as [c|]; [|discriminate]. exists c. split; [reflexivity|].
    apply orb_prop in H. destruct H as [H|H].
    + split; intros ->; discriminate H.
    + apply N.eqb_eq in H. subst c. split; discriminate.
  - apply prefix_at_first with (c := ch "<") (w' := codes "!--") in H; [|reflexivity].
    exists (ch "<"). split; [exact H|]. split; discriminate.
Qed.

Lemma line_start_match p :
  at_bol s p = true -> opens_slash U s p = true ->
  rexmatch U s line_start p = Some {| m_end := p; m_groups := [] |}.
Proof.
  intros Hbol Hopen. unfold rexmatch, line_start. cbn [run alt]. rewrite Hbol.
  rewrite run_lit, run_chr. unfold one_char, in_set. cbn [existsb member].
  unfold opens_slash in Hopen.
  destruct (nth_error s p) as [c|].
  - rewrite orb_false_r. destruct (is_space U c); [reflexivity|].
    destruct (c =? ch "/")%N; [reflexivity|]. cbn [orb] in Hopen. now rewrite Hopen.
  - cbn [orb] in Hopen. now rewrite Hopen.
Qed.

Lemma hashbang_needs_hash p c :
  nth_error s p = Some c -> c <> ch "#" ->
  rexmatch U s (cats [Bos; lit "#!"; opt (chr " "); chr "/"; lazy_star Any; Eol]) p = None.
Proof.
  intros Hc Hne. destruct p as [|p]; [|apply hashbang_not_inside].
  unfold rexmatch. rewrite run_cats. cbn [run]. rewrite run_cats, run_lit.
  change (codes "#!") with [ch "#"; ch "!"]. cbn [prefix_at]. rewrite Hc.
  now replace (ch "#" =? c)%N with false by (symmetry; apply N.eqb_neq; congruence).
Qed.

End LineStart.

(** X23. In the code states, at the start of a line (or of the text) that
    begins with white space, a slash or [<!--], the scanner first yields
    an empty [Text] token and pushes [slashstartsregex], without moving: a
    slash that starts a line, after white space too, is read as the start
    of a regular expression literal or of a comment, never as a
    division. *)
Theorem line_start_opens U s p st stack :
  code_state st = true ->
  at_bol s p = true ->
  opens_slash U s p = true ->
  step U s {| pos := p; statestack := st :: stack |}
  = Next [{| t_pos := p; t_type := Text; t_value := [] |}]
         {| pos := p; statestack := slashstartsregex :: st :: stack |}.
Proof.
  intros Hst Hbol Hopen.
  destruct (@opens_slash_char U s p Hopen) as (c & Hc & Hbrace & Hhash).
  pose proof (nth_error_lt _ _ Hc) as Hlen.
  assert (Hroot : first_match U s (tokendefs root) p
                  = Some (rule line_start (emit Text) [push slashstartsregex],
                          {| m_end := p; m_groups := [] |})).
  { change (tokendefs root)
      with (rule (cats [Bos; lit "#!"; opt (chr " "); chr "/"; lazy_star Any; Eol])
                 (emit Comment_Hashbang) []
            :: rule line_start (emit Text) [push slashstartsregex]
            :: skipn 2 (tokendefs root)).
    cbn [first_match]. rewrite (@hashbang_needs_hash U s p c Hc Hhash).
    now rewrite (@line_start_match U s p Hbol Hopen). }
  rewrite step_emits with (rex := line_start) (l := Text) (new := [push slashstartsregex])
                          (m := {| m_end := p; m_groups := [] |});
    [cbn [m_end]; now rewrite slice_empty|exact Hlen|].
  destruct st; try discriminate Hst; [exact Hroot|].
  rewrite interp_inside_entries. cbn [first_match]. rewrite rexmatch_chr, Hc.
  now replace (c =? ch "}")%N with false by (symmetry; now apply N.eqb_neq).
Qed.

(** The second line of a text, which starts with a slash. *)
Lemma line_start_opens_witness :
  step ascii_only (codes "a" ++ [newline] ++ codes "/b/") {| pos := 2; statestack := [root] |}
  = Next [tok 2 Text ""] {| pos := 2; statestack := [slashstartsregex; root] |}.
Proof.
  apply (@line_start_opens ascii_only (codes "a" ++ [newline] ++ codes "/b/") 2 root []).
  - reflexivity.
  - reflexivity.
  - reflexivity.
Defined.

(** ** Rules in the shadow of others, and what never happens *)

Section Shadows.

Variable U : unicode.
Variable s : text.

Lemma prefix_at_slice w : forall p,
  prefix_at s p w = true -> slice s p (p + List.length w) = w.
Proof.
  induction w as [|c w IH]; intros p H.
  - rewrite Nat.add_0_r. apply slice_empty.
  - cbn [prefix_at] in H. destruct (nth_error s p) as [d|] eqn:E; [|discriminate].
    apply andb_prop in H. destruct H as [Hd Hw]. apply N.eqb_eq in Hd. subst d.
    replace (p + List.length (c :: w)) with (S p + List.length w) by (cbn; lia).
    rewrite <- (@slice_app s p (S p) (S p + List.length w)); try lia.
    now rewrite (slice_one _ _ E), (IH (S p) Hw).
Qed.

(** The first alternative to match decides, if those before it fail. *)
Lemma run_alt_pick pre r post i g k m :
  Forall (fun a => run U s a i g k = None) pre ->
  run U s r i g k = Some m ->
  run U s (alt (pre ++ r :: post)) i g k = Some m.
Proof.
  intros Hpre Hr. induction Hpre as [|a pre Ha _ IH].
  - cbn [app]. destruct post; [exact Hr|]. cbn [alt run]. now rewrite Hr.
  - cbn [app]. destruct (pre ++ r :: post) eqn:E; [now destruct pre|].
    cbn [alt run]. rewrite Ha. exact IH.
Qed.

(** At [su], the keywords before [super] in the list do not match. *)
Lemma keywords_before_super p g k :
  nth_error s p = Some (ch "s") -> nth_error s (S p) = Some (ch "u") ->
  Forall (fun a => run U s a p g k = None)
         (map lit (firstn 26 keywords)).
Proof.
  intros H0 H1.
  assert (Hall : forall w : string,
            match codes w with
            | a :: b :: _ => negb ((a =? ch "s")%N && (b =? ch "u")%N)
            | _ => false
            end = true ->
            run U s (lit w) p g k = None).
  { intros w Hw. rewrite run_lit. destruct (codes w) as [|a [|b t]]; try discriminate Hw.
    cbn [prefix_at]. rewrite H0, H1.
    destruct (a =? ch "s")%N; [|reflexivity].
    destruct (b =? ch "u")%N; [discriminate Hw|reflexivity]. }
  unfold keywords. cbn [firstn map].
  repeat (constructor; [apply Hall; reflexivity|]). constructor.
Qed.

Lemma super_keyword_match p m :
  rexmatch U s super_call p = Some m ->
  rexmatch U s (whole_word (words keywords)) p
  = Some {| m_end := p + 5; m_groups := [(1, (p, p + 5))] |}.
Proof.
  intros H. apply super_call_inv in H. destruct H as (Hpre & c & Hc & Hcls).
  assert (H0 : nth_error s p = Some (ch "s")).
  { replace p with (p + 0) by lia. now apply prefix_at_nth with (w := codes "super"). }
  assert (H1 : nth_error s (S p) = Some (ch "u")).
  { replace (S p) with (p + 1) by lia. now apply prefix_at_nth with (w := codes "super"). }
  assert (H4 : nth_error s (p + 4) = Some (ch "r")).
  { now apply prefix_at_nth with (w := codes "super"). }
  unfold rexmatch, whole_word. cbn [run]. unfold words.
  change (map lit keywords) with (map lit (firstn 26 keywords) ++ lit "super" :: []).
  apply run_alt_pick.
  - now apply keywords_before_super.
  - rewrite run_lit, Hpre. change (List.length (codes "super")) with 5.
    assert (Hb : boundary U s (p + 5) = true).
    { unfold boundary. replace (p + 5) with (S (p + 4)) by lia.
      replace (word_at U s (p + 4)) with true
        by (unfold word_at; rewrite H4; reflexivity).
      replace (S (p + 4)) with (p + 5) by lia. unfold word_at. rewrite Hc.
      destruct Hcls as [Hs| ->]; [now rewrite (@space_not_word U c Hs)|reflexivity]. }
    now rewrite Hb.
Qed.

Lemma s_candidates st :
  code_state st = true ->
  exists rest,
    filter (can_begin U (ch "s")) (tokendefs st)
    = rule (whole_word (words keywords)) (emit Keyword) [push slashstartsregex] :: rest.
Proof. intros Hst. destruct st; try discriminate Hst; eexists; reflexivity. Qed.

End Shadows.

(** X24. The rule for [super] with an argument list never fires: wherever
    its pattern matches in the code states, the keyword rule, which stands
    before it, matches first. The step yields the [Keyword] token [super]
    alone and pushes [slashstartsregex]; white space and argument list are
    left to the steps that follow. *)
Theorem super_call_is_keyword U s p m st stack :
  code_state st = true ->
  rexmatch U s super_call p = Some m ->
  step U s {| pos := p; statestack := st :: stack |}
  = Next [{| t_pos := p; t_type := Keyword; t_value := codes "super" |}]
         {| pos := p + 5; statestack := slashstartsregex :: st :: stack |}.
Proof.
  intros Hst Hm. pose proof (@super_keyword_match U s p m Hm) as Hk.
  apply super_call_inv in Hm. destruct Hm as (Hpre & c & Hc & _).
  pose proof (nth_error_lt _ _ Hc) as Hlen.
  assert (H0 : nth_error s p = Some (ch "s")).
  { replace p with (p + 0) by lia. now apply prefix_at_nth with (w := codes "super"). }
  rewrite step_emits with (rex := whole_word (words keywords)) (l := Keyword)
                          (new := [push slashstartsregex])
                          (m := {| m_end := p + 5; m_groups := [(1, (p, p + 5))] |}).
  - cbn [m_end transition fold_left apply_move].
    pose proof (@prefix_at_slice s (codes "super") p Hpre) as Hsl.
    change (List.length (codes "super")) with 5 in Hsl. now rewrite Hsl.
  - lia.
  - rewrite (@first_match_filter U s _ p _ H0).
    destruct (@s_candidates U st Hst) as (rest & ->).
    cbn [first_match]. now rewrite Hk.
Qed.

(** The call [super(a)]. *)
Lemma super_call_is_keyword_witness :
  step ascii_only (codes "super(a)") start
  = Next [tok 0 Keyword "super"] {| pos := 5; statestack := [slashstartsregex; root] |}.
Proof.
  apply (@super_call_is_keyword ascii_only (codes "super(a)") 0
           {| m_end := 8; m_groups := [(3, (5, 8)); (2, (5, 5)); (1, (0, 5))] |} root []).
  - reflexivity.
  - reflexivity.
Defined.

(** X25. Where the comment rules come first, [<!--] is a [Comment] token
    of these four characters and no more: what follows on the line is
    scanned as usual, in the same state. *)
Theorem html_comment_opener U s p st stack :
  comments_first s st p = true ->
  prefix_at s p (codes "<!--") = true ->
  step U s {| pos := p; statestack := st :: stack |}
  = Next [{| t_pos := p; t_type := Comment; t_value := codes "<!--" |}]
         {| pos := p + 4; statestack := st :: stack |}.
Proof.
  intros Hst Hpre.
  pose proof (@prefix_at_first s p _ _ _ Hpre eq_refl) as Hc.
  pose proof (nth_error_lt _ _ Hc) as Hlen.
  rewrite step_emits with (rex := lit "<!--") (l := Comment) (new := [])
                          (m := {| m_end := p + 4; m_groups := [] |});
    [cbn [m_end transition fold_left];
     pose proof (@prefix_at_slice s (codes "<!--") p Hpre) as Hsl;
     change (List.length (codes "<!--")) with 4 in Hsl; now rewrite Hsl|exact Hlen|].
  apply comments_first_match with (c := ch "<"); auto; [discriminate|].
  apply first_match_pick with (c := ch "<") (n := 1) (pre := []); auto.
  unfold rexmatch. now rewrite run_lit, Hpre.
Qed.

(** The opener of [x <!-- y]. *)
Lemma html_comment_opener_witness :
  step ascii_only (codes "x <!-- y") {| pos := 2; statestack := [root] |}
  = Next [tok 2 Comment "<!--"] {| pos := 6; statestack := [root] |}.
Proof.
  apply (@html_comment_opener ascii_only (codes "x <!-- y") 2 root []).
  - reflexivity.
  - reflexivity.
Defined.

(** X26. In the code states the arrow [=>] is one [Punctuation] token: the
    rule for it stands before the operator rule, which would take the [=]
    alone, and unlike that rule it does not push [slashstartsregex]. *)
Theorem arrow_is_punctuation U s p st stack :
  code_state st = true ->
  prefix_at s p (codes "=>") = true ->
  step U s {| pos := p; statestack := st :: stack |}
  = Next [{| t_pos := p; t_type := Punctuation; t_value := codes "=>" |}]
         {| pos := p + 2; statestack := st :: stack |}.
Proof.
  intros Hst Hpre.
  pose proof (@prefix_at_first s p _ _ _ Hpre eq_refl) as Hc.
  pose proof (nth_error_lt _ _ Hc) as Hlen.
  assert (Hm : rexmatch U s (Or (lit "...") (lit "=>")) p
               = Some {| m_end := p + 2; m_groups := [] |}).
  { unfold rexmatch. cbn [run]. rewrite !run_lit, Hpre.
    change (codes "...") with [ch "."; ch "."; ch "."]. cbn [prefix_at]. now rewrite Hc. }
  rewrite step_emits with (rex := Or (lit "...") (lit "=>")) (l := Punctuation) (new := [])
                          (m := {| m_end := p + 2; m_groups := [] |});
    [cbn [m_end transition fold_left];
     pose proof (@prefix_at_slice s (codes "=>") p Hpre) as Hsl;
     change (List.length (codes "=>")) with 2 in Hsl; now rewrite Hsl|exact Hlen|].
  destruct st; try discriminate Hst.
  - apply first_match_pick with (c := ch "=") (n := 11) (pre := []); auto.
  - apply first_match_pick with (c := ch "=") (n := 12) (pre := []); auto.
Qed.

(** The arrow of [x=>/a/]. *)
Lemma arrow_is_punctuation_witness :
  step ascii_only (codes "x=>/a/") {| pos := 1; statestack := [root] |}
  = Next [tok 1 Punctuation "=>"] {| pos := 3; statestack := [root] |}.
Proof.
  apply (@arrow_is_punctuation ascii_only (codes "x=>/a/") 1 root []).
  - reflexivity.
  - reflexivity.
Defined.

(** X27. In [slashstartsregex], a character that is no white space, no
    slash and no [<] is left where it is: no rule of the state matches, the
    default pops the state without a token and the character is scanned in
    the state below. *)
Theorem slashstartsregex_falls_through U s p c st rest :
  nth_error s p = Some c ->
  is_space U c = false -> c <> ch "/" -> c <> ch "<" ->
  step U s {| pos := p; statestack := slashstartsregex :: st :: rest |}
  = Next [] {| pos := p; statestack := st :: rest |}.
Proof.
  intros Hc Hsp Hslash Hlt. pose proof (nth_error_lt _ _ Hc) as Hlen.
  apply N.eqb_neq in Hslash, Hlt.
  rewrite step_at by exact Hlen.
  replace (first_match U s (tokendefs slashstartsregex) p) with (@None (entry * match_));
    [reflexivity|].
  symmetry. apply first_match_all_fail. intros rex act new Hin.
  cbv [tokendefs process_state tokens flat_map app] in Hin.
  repeat (destruct Hin as [E|Hin]; [try discriminate E; injection E as <- _ _|]);
    [ | | | | | |destruct Hin]; unfold rexmatch.
  - unfold plus. cbn [run rounds below]. unfold one_char at 1. rewrite Hc.
    unfold in_set. cbn [existsb member]. now rewrite Hsp.
  - rewrite run_lit. change (codes "<!--") with (ch "<" :: codes "!--").
    cbn [prefix_at]. now rewrite Hc, N.eqb_sym, Hlt.
  - cbn [run]. rewrite run_lit. change (codes "//") with [ch "/"; ch "/"].
    cbn [prefix_at]. now rewrite Hc, N.eqb_sym, Hslash.
  - cbn [run]. rewrite run_lit. change (codes "/*") with [ch "/"; ch "*"].
    cbn [prefix_at]. now rewrite Hc, N.eqb_sym, Hslash.
  - unfold regex_literal. now rewrite run_cats, run_chr, Hc, Hslash.
  - unfold slash_ahead. cbn [run]. now rewrite run_chr, Hc, Hslash.
Qed.

(** After the operator of [a=b], the [b] is scanned in [root]. *)
Lemma slashstartsregex_falls_through_witness :
  step ascii_only (codes "a=b") {| pos := 2; statestack := [slashstartsregex; root] |}
  = Next [] {| pos := 2; statestack := [root] |}.
Proof.
  apply (@slashstartsregex_falls_through ascii_only (codes "a=b") 2 (ch "b") root []).
  - reflexivity.
  - reflexivity.
  - discriminate.
  - discriminate.
Defined.



(** The rules of [interp] yield the two types of a template. *)
Lemma interp_types rex act new :
  In (rule rex act new) (tokendefs interp) ->
  1 <= min_len rex /\ (act = emit String_Backtick \/ act = emit String_Interpol).
Proof.
  intros H. cbv [tokendefs process_state tokens flat_map app] in H.
  repeat (destruct H as [H|H]; [injection H as <- <- <-; split; [cbn; lia|auto]|]).
  destruct H.
Qed.

(** X29. In a template no character becomes an [Error] token, but a
    backslash that is the last character of the text: at any other
    character the step yields one token of type [String.Backtick] or
    [String.Interpol] that is not empty. So a template that the text does
    not close is read as template text up to the end of the text. *)
Theorem template_has_no_errors U s p c stack :
  nth_error s p = Some c ->
  c <> ch "\" \/ S p < List.length s ->
  exists l q stack',
    (l = String_Backtick \/ l = String_Interpol) /\ p < q /\
    step U s {| pos := p; statestack := interp :: stack |}
    = Next [{| t_pos := p; t_type := l; t_value := slice s p q |}]
           {| pos := q; statestack := stack' |}.
Proof.
  intros Hc Hcase. pose proof (nth_error_lt _ _ Hc) as Hlen.
  rewrite step_at by exact Hlen.
  destruct (first_match U s (tokendefs interp) p) as [[e m]|] eqn:F.
  - destruct (@first_match_some U s _ _ _ _ F) as (rex & act & new & -> & Hin & Hm).
    destruct (@interp_types _ _ _ Hin) as [Hmin Hact].
    apply rexmatch_bounds in Hm; [|lia]. destruct Hm as [Hlo _].
    destruct Hact as [-> | ->]; eexists _, (m_end m), _;
      (split; [|split; [|reflexivity]]); auto; lia.
  - exfalso. rewrite interp_rules in F.
    assert (H1 : rexmatch U s (chr "`") p = None)
      by (apply (@first_match_none U s _ p _ (emit String_Backtick) [pop] F); cbn; auto).
    assert (H2 : rexmatch U s (Cat (chr "\") Any) p = None)
      by (apply (@first_match_none U s _ p _ (emit String_Backtick) [] F); cbn; auto).
    assert (H4 : rexmatch U s (chr "$") p = None)
      by (apply (@first_match_none U s _ p _ (emit String_Backtick) [] F); cbn; auto 10).
    assert (H5 : rexmatch U s (plus (NotIn [c1 "`"; c1 "\"; c1 "$"])) p = None)
      by (apply (@first_match_none U s _ p _ (emit String_Backtick) [] F); cbn; auto 10).
    rewrite rexmatch_chr, Hc in H1, H4.
    destruct (N.eqb_spec c (ch "`")) as [|Hn1]; [discriminate H1|].
    destruct (N.eqb_spec c (ch "$")) as [|Hn4]; [discriminate H4|].
    destruct (N.eqb_spec c (ch "\")) as [->|Hn2].
    + destruct Hcase as [Hne|Hnext]; [now elim Hne|].
      unfold rexmatch in H2. cbn [run] in H2. rewrite run_chr, Hc, N.eqb_refl in H2.
      unfold one_char in H2.
      destruct (nth_error s (S p)) eqn:E; [discriminate H2|].
      apply nth_error_None in E. lia.
    + unfold rexmatch, plus in H5. cbn [run rounds below] in H5.
      unfold one_char at 1 in H5. rewrite Hc in H5.
      replace (negb (in_set U [c1 "`"; c1 "\"; c1 "$"] c)) with true in H5.
      2:{ unfold in_set. cbn [existsb member c1]. apply N.eqb_neq in Hn1, Hn2, Hn4.
          now rewrite Hn1, Hn2, Hn4. }
      replace (p <? S p) with true in H5 by (symmetry; apply Nat.ltb_lt; lia).
      destruct (List.length s - p) as [|fuel] eqn:L; [lia|].
      destruct (rounds _ _ _ _ _ _ _ _ _) eqn:R; [discriminate|].
      now apply rounds_total in R.
Qed.

(** The text of a template that nothing closes. *)
Lemma template_has_no_errors_witness :
  exists l q stack',
    (l = String_Backtick \/ l = String_Interpol) /\ 1 < q /\
    step ascii_only (codes "`abc") {| pos := 1; statestack := [interp; root] |}
    = Next [{| t_pos := 1; t_type := l; t_value := slice (codes "`abc") 1 q |}]
           {| pos := q; statestack := stack' |}.
Proof.
  apply (@template_has_no_errors ascii_only (codes "`abc") 1 (ch "a") [root]).
  - reflexivity.
  - left. discriminate.
Defined.

Section Fractions.

Variable U : unicode.
Variable s : text.
Variables p q1 q : nat.
Variable c : N.
Hypothesis first : nth_error s p = Some c.
Hypothesis nonzero : between (ch "1") (ch "9") c = true.
Hypothesis inside : p < q1 /\ q1 < q /\ q <= List.length s.
Hypothesis whole :
  forall j, p < j < q1 -> exists d, nth_error s j = Some d /\ ascii_digit d = true.
Hypothesis point : nth_error s q1 = Some (ch ".").
Hypothesis fraction :
  forall j, q1 < j < q -> exists d, nth_error s j = Some d /\ ascii_digit d = true.
Hypothesis after :
  match nth_error s q with
  | Some d => ascii_digit d = false /\ d <> ch "e" /\ d <> ch "E"
  | None => True
  end.

Lemma whole_run :
  forall j, p <= j < q1 ->
  exists d, nth_error s j = Some d /\ in_set U [rg "0" "9"] d = true.
Proof.
  intros j Hj. destruct (Nat.eq_dec j p) as [->|Hne].
  - exists c. split; [exact first|]. rewrite digit_in_set. now apply nonzero_digit.
  - destruct (whole (j := j)) as (d & Hd & Hdig); [lia|].
    exists d. split; [exact Hd|]. now rewrite digit_in_set.
Qed.

Lemma fraction_not_bigint : rexmatch U s (Cat digits (chr "n")) p = None.
Proof.
  unfold rexmatch, digits, plus. cbn [run].
  apply class_then_none with (q := q1); try lia.
  - apply whole_run.
  - now rewrite point.
  - intros j Hj. rewrite run_chr. destruct (Nat.eq_dec j q1) as [->|Hne].
    + now rewrite point.
    + destruct (@whole_run j) as (d & Hd & Hdig); [lia|]. rewrite Hd.
      rewrite digit_in_set in Hdig.
      destruct (N.eqb_spec d (ch "n")) as [->|_]; [discriminate Hdig|reflexivity].
Qed.

Lemma fraction_match :
  rexmatch U s float_literal p = Some {| m_end := q; m_groups := [(1, (p, q))] |}.
Proof.
  unfold rexmatch, float_literal. cbn [run alt].
  rewrite run_chr, first.
  replace (c =? ch ".")%N with false
    by (symmetry; apply N.eqb_neq; intros ->; discriminate nonzero).
  rewrite run_cats. unfold digits at 1, plus at 1. cbn [run].
  rewrite class_then with (q := q1) (r := {| m_end := q; m_groups := [(1, (p, q))] |});
    [reflexivity| | | | |].
  - lia.
  - lia.
  - apply whole_run.
  - now rewrite point.
  - rewrite run_cats, run_chr, point, N.eqb_refl.
    change (cats [star (In_ [rg "0" "9"])]) with (star (In_ [rg "0" "9"])).
    unfold star. cbn [run].
    apply greedy_chars with (m := q - S q1); try lia;
      replace (S q1 + (q - S q1)) with q by lia.
    + intros j Hj. destruct (fraction (j := j)) as (d & Hd & Hdig); [lia|].
      exists d. split; [exact Hd|]. now rewrite digit_in_set.
    + pose proof after as Hafter.
      destruct (nth_error s q) as [d|]; [|exact I]. rewrite digit_in_set. tauto.
    + rewrite opt_skipped; [reflexivity|].
      intros k'. cbn [run]. rewrite run_cats. cbn [run]. unfold one_char.
      pose proof after as Hafter.
      destruct (nth_error s q) as [d|]; [|reflexivity].
      unfold in_set. cbn [existsb member c1].
      destruct Hafter as (_ & He & HE). apply N.eqb_neq in He, HE.
      now rewrite He, HE.
Qed.

End Fractions.

(** X30. In the code states, digits that start with a digit from 1 to 9, a
    point and the digits after it, if any, are one [Number.Float] token,
    where the end of the text or a character follows that is no digit, [e]
    or [E]: a point right after digits belongs to the number, even when
    a name follows it. *)
Theorem fraction_is_float_token U s p q1 q c st stack :
  code_state st = true ->
  nth_error s p = Some c ->
  between (ch "1") (ch "9") c = true ->
  p < q1 /\ q1 < q /\ q <= List.length s ->
  (forall j, p < j < q1 -> exists d, nth_error s j = Some d /\ ascii_digit d = true) ->
  nth_error s q1 = Some (ch ".") ->
  (forall j, q1 < j < q -> exists d, nth_error s j = Some d /\ ascii_digit d = true) ->
  match nth_error s q with
  | Some d => ascii_digit d = false /\ d <> ch "e" /\ d <> ch "E"
  | None => True
  end ->
  step U s {| pos := p; statestack := st :: stack |}
  = Next [{| t_pos := p; t_type := Number_Float; t_value := slice s p q |}]
         {| pos := q; statestack := st :: stack |}.
Proof.
  intros Hst Hc Hnz Hin Hwhole Hpoint Hfrac Hafter.
  rewrite step_emits with (rex := float_literal) (l := Number_Float) (new := [])
                          (m := {| m_end := q; m_groups := [(1, (p, q))] |});
    [reflexivity|lia|].
  rewrite (@first_match_filter U s c p _ Hc), (@decimal_candidates U c st Hnz Hst).
  cbn [first_match].
  rewrite (@fraction_not_bigint U s p q1 q c Hc Hnz Hin Hwhole Hpoint).
  now rewrite (@fraction_match U s p q1 q c Hc Hnz Hin Hwhole Hpoint Hfrac Hafter).
Qed.

(** The number of [1.toString()]: the point is taken with the digit. *)
Lemma fraction_is_float_token_witness :
  step ascii_only (codes "1.toString()") start
  = Next [tok 0 Number_Float "1."] {| pos := 2; statestack := [root] |}.
Proof.
  apply (@fraction_is_float_token ascii_only (codes "1.toString()") 0 1 2 (ch "1") root []).
  - reflexivity.
  - reflexivity.
  - reflexivity.
  - cbn. lia.
  - intros j Hj. lia.
  - reflexivity.
  - intros j Hj. lia.
  - repeat split; discriminate.
Defined.
